(** * mailauth: a shallow embedding of the tools and SPF modules

    The development follows the JavaScript sources function by function:
    - lib/tools.js (src/unnamed/part_001): [formatSignatureHeaderLine],
      [getPublicKey], [escapeCommentValue], [formatAuthHeaderRow],
      [formatRelaxedLine], [formatDomain], [getAligment],
      [parseLogoFromX509];
    - lib/spf/index.js (the second module of src/lib/commands/report.js):
      [formatHeaders], [limitedResolver], [verify].

    JavaScript strings are modelled as Rocq strings of 8-bit characters
    (the binary view the library itself takes of header lines); a
    JavaScript object used as a dictionary is a [gmap]; a function that
    may [throw] (or an [async] function that may reject) returns a
    [result]; the modules the sources [require] (punycode, psl, libmime,
    crypto, zlib, ...) are interfaces, given as type classes whose methods
    are the calls the sources make. Definitions come first, the properties
    proved of them after. *)

From Stdlib Require Import String Ascii NArith ZArith List Bool Lia.
From stdpp Require Import base option list gmap strings sorting pretty.

Local Open Scope string_scope.
Local Open Scope list_scope.

(** ** JavaScript values, errors and results *)

(** The primitive values the modelled functions handle. Numbers are the
    integers (the sources only produce integer time stamps, versions and
    counters). *)
Inductive jsval : Type :=
| JUndefined
| JNull
| JBool (b : bool)
| JNum (n : Z)
| JStr (s : string).

(** What a DNS resolver hands back: a list of records, or, for the two
    bookkeeping queries of the SPF resolver, a number. *)
Inductive rdata : Type :=
| Txt (fragments : list string)
| Addr (a : string)
| Mx (exchange : string) (priority : Z).

Inductive answer : Type :=
| Records (l : list rdata)
| Number (n : Z).

(** An SPF outcome object: [{ qualifier, error, text, rr, lookups }], with
    [lookups] the pair [{ limit, count }]. *)
Record spfResultObj : Type := mkSpfResult {
  qualifier : option string;
  spf_error : option string;
  text : option string;
  spf_rr : option string;
  lookups : option (answer * answer)
}.

(** An [Error] object with the extra properties the sources attach. *)
Record error : Type := mkError {
  err_name : string;
  message : string;
  code : option string;
  err_rr : option string;
  spfResult : option spfResultObj
}.

Inductive result (A : Type) : Type :=
| Ok (a : A)
| Throw (e : error).
Arguments Ok {A} a.
Arguments Throw {A} e.

(** [result] is the error monad of the embedding: [x ← r; k] awaits (or
    evaluates) [r] and goes on with [k], and a [Throw] propagates. *)
#[export] Instance result_ret : MRet result := fun _ a => Ok a.
#[export] Instance result_bind : MBind result := fun _ _ f r =>
  match r with
  | Ok a => f a
  | Throw e => Throw e
  end.

Definition newError (msg : string) : error :=
  mkError "Error" msg None None None.

(** [ToBoolean]. *)
Definition truthy (v : jsval) : bool :=
  match v with
  | JUndefined | JNull => false
  | JBool b => b
  | JNum n => negb (n =? 0)%Z
  | JStr s => negb (String.eqb s "")
  end.

(** [ToString], as a template literal applies it. *)
Definition toString (v : jsval) : string :=
  match v with
  | JUndefined => "undefined"
  | JNull => "null"
  | JBool true => "true"
  | JBool false => "false"
  | JNum n => pretty n
  | JStr s => s
  end.

(** A property that may be missing reads as [undefined]. *)
Definition jsget (o : option jsval) : jsval := default JUndefined o.

(** An optional string option: [undefined] when it is not given. *)
Definition ostr (o : option string) : jsval :=
  match o with Some s => JStr s | None => JUndefined end.

(** ** Characters and strings *)

Abbreviation chars := list_ascii_of_string.
Abbreviation str := string_of_list_ascii.

Definition SP : ascii := " "%char.
Definition CR : ascii := ascii_of_N 13.
Definition LF : ascii := ascii_of_N 10.
Definition DQUOTE : ascii := ascii_of_N 34.
Definition CRLF : string := String CR (String LF EmptyString).

(** The class [\s] of a regular expression, which is also what
    [String.prototype.trim] strips, on the characters below 256:
    TAB, LF, VT, FF, CR, SP and NBSP. *)
Definition isSpace (c : ascii) : bool :=
  let n := N_of_ascii c in
  ((9 <=? n) && (n <=? 13) || (n =? 32) || (n =? 160))%N.

(** [.] of a regular expression without the [s] flag: any character but a
    line terminator. *)
Definition isLineTerminator (c : ascii) : bool :=
  let n := N_of_ascii c in ((n =? 10) || (n =? 13))%N.

(** [\w]. *)
Definition isWordChar (c : ascii) : bool :=
  let n := N_of_ascii c in
  ((48 <=? n) && (n <=? 57) || (65 <=? n) && (n <=? 90)
   || (97 <=? n) && (n <=? 122) || (n =? 95))%N.

Definition isDigit (c : ascii) : bool :=
  let n := N_of_ascii c in ((48 <=? n) && (n <=? 57))%N.

(** [[\x00-\x1F]]. *)
Definition isControl (c : ascii) : bool :=
  (N_of_ascii c <=? 31)%N.

(** [String.prototype.toLowerCase] on one character below 256: the ASCII
    capitals and the Latin-1 capitals (all of C0..DE but the
    multiplication sign D7) move up by 32. *)
Definition lowerChar (c : ascii) : ascii :=
  let n := N_of_ascii c in
  if ((65 <=? n) && (n <=? 90)
      || (192 <=? n) && (n <=? 222) && negb (n =? 215))%N
  then ascii_of_N (n + 32) else c.

(** [String.prototype.toUpperCase] on one character below 256, for the
    characters whose capital is again a character below 256. (The capital
    of the others is no ASCII letter; the sources only compare the outcome
    with ASCII words.) *)
Definition upperChar (c : ascii) : ascii :=
  let n := N_of_ascii c in
  if ((97 <=? n) && (n <=? 122)
      || (224 <=? n) && (n <=? 254) && negb (n =? 247))%N
  then ascii_of_N (n - 32) else c.

Definition toLowerCase (s : string) : string := str (map lowerChar (chars s)).
Definition toUpperCase (s : string) : string := str (map upperChar (chars s)).

Fixpoint dropWhile {A} (p : A -> bool) (l : list A) : list A :=
  match l with
  | [] => []
  | c :: r => if p c then dropWhile p r else l
  end.

Definition ltrimL (l : list ascii) : list ascii := dropWhile isSpace l.
Definition rtrimL (l : list ascii) : list ascii := rev (dropWhile isSpace (rev l)).
Definition trimL (l : list ascii) : list ascii := ltrimL (rtrimL l).

(** [s.trim()]. *)
Definition trim (s : string) : string := str (trimL (chars s)).

(** [s.replace(/[p]+/g, ' ')]: every maximal run of characters of the class
    [p] becomes one space. [inRun] tells that the previous character was
    of the class, so that the run has been replaced already. *)
Fixpoint collapseRuns (p : ascii -> bool) (inRun : bool) (l : list ascii) : list ascii :=
  match l with
  | [] => []
  | c :: r =>
      if p c then (if inRun then collapseRuns p true r else SP :: collapseRuns p true r)
      else c :: collapseRuns p false r
  end.

(** [s.replace(/\s+/g, ' ')]. *)
Definition collapseL (l : list ascii) : list ascii := collapseRuns isSpace false l.

(** [s.replace(/\r?\n/g, '')]: a line feed goes, together with the carriage
    return just before it. *)
Fixpoint unfoldL (l : list ascii) : list ascii :=
  match l with
  | [] => []
  | c :: r =>
      if Ascii.eqb c LF then unfoldL r
      else if Ascii.eqb c CR then
        match r with
        | d :: r' => if Ascii.eqb d LF then unfoldL r' else c :: unfoldL r
        | [] => [c]
        end
      else c :: unfoldL r
  end.

(** The split at the first [x], as a regular expression that anchors a
    group of non-[x] characters followed by [x] makes it: the text before
    the first [x] and the text after it, when there is an [x]. *)
Fixpoint splitFirst (x : ascii) (l : list ascii) : option (list ascii * list ascii) :=
  match l with
  | [] => None
  | c :: r =>
      if Ascii.eqb c x then Some ([], r)
      else match splitFirst x r with
           | Some (k, v) => Some (c :: k, v)
           | None => None
           end
  end.

(** The second replacement of [formatRelaxedLine]: the text up to the
    first colon is the key [k], replaced together with the colon and the
    white space after it by [k.toLowerCase().trim() + ':']. *)
Definition relaxKeyL (l : list ascii) : list ascii :=
  match splitFirst ":"%char l with
  | Some (k, v) => trimL (map lowerChar k) ++ ":"%char :: ltrimL v
  | None => l
  end.

(** [formatRelaxedLine(line, suffix)] of lib/tools.js, for a [line] that is
    a buffer (read as a binary string) and an optional [suffix]. *)
Definition formatRelaxedLine (line : string) (suffix : option string) : string :=
  str (trimL (collapseL (relaxKeyL (unfoldL (chars line)))))
  +:+ (match suffix with
       | Some s => if String.eqb s "" then "" else s
       | None => ""
       end).


(** ** Further string helpers *)

Fixpoint takeWhile {A} (p : A -> bool) (l : list A) : list A :=
  match l with
  | [] => []
  | c :: r => if p c then c :: takeWhile p r else []
  end.

(** [s.split(x)], for a one-character separator. *)
Fixpoint splitOn (x : ascii) (l : list ascii) : list (list ascii) :=
  match l with
  | [] => [[]]
  | c :: r =>
      if Ascii.eqb c x then [] :: splitOn x r
      else match splitOn x r with
           | h :: t => (c :: h) :: t
           | [] => [[c]]
           end
  end.

(** [s.split(x).pop()]: the text after the last [x], all of [s] when it has
    no [x]. *)
Definition afterLast (x : ascii) (l : list ascii) : list ascii :=
  rev (takeWhile (fun c => negb (Ascii.eqb c x)) (rev l)).

(** The text before the last [x]. *)
Definition beforeLast (x : ascii) (l : list ascii) : list ascii :=
  rev (tail (dropWhile (fun c => negb (Ascii.eqb c x)) (rev l))).

(** [s.indexOf(x)], [None] for -1. *)
Fixpoint indexOf (x : ascii) (l : list ascii) : option nat :=
  match l with
  | [] => None
  | c :: r => if Ascii.eqb c x then Some 0 else S <$> indexOf x r
  end.

(** [s.replace(/[p]/g, c => '\\' + c)]: a backslash before every character
    of the class [p]. *)
Definition escapeChars (p : ascii -> bool) (l : list ascii) : list ascii :=
  flat_map (fun c => if p c then ["\"%char; c] else [c]) l.

Fixpoint joinWith (sep : string) (l : list string) : string :=
  match l with
  | [] => ""
  | [x] => x
  | x :: r => x +:+ sep +:+ joinWith sep r
  end.

(** [a || b] on strings that may be undefined. *)
Definition orElse (a : option string) (b : string) : string :=
  match a with
  | Some s => if String.eqb s "" then b else s
  | None => b
  end.

(** ** Escaping and the Authentication-Results row (lib/tools.js) *)

(** [escapeCommentValue(value)]. *)
Definition escapeCommentValue (value : jsval) : string :=
  let value := toString (if truthy value then value else JStr "") in
  let value := trimL (collapseL (collapseRuns isControl false (chars value))) in
  str (escapeChars (fun c => Ascii.eqb c "\"%char || Ascii.eqb c ")"%char) value).

(** The class of [escapePropValue]'s test: white space, controls, DEL and
    everything above it, and the specials of a header parameter. *)
Definition isPropSpecial (c : ascii) : bool :=
  isSpace c || isControl c || (127 <=? N_of_ascii c)%N
  || existsb (Ascii.eqb c) (DQUOTE :: chars "()<>,;:\/[]?=").

(** [escapePropValue(value)]. *)
Definition escapePropValue (value : jsval) : string :=
  let value := toString (if truthy value then value else JStr "") in
  let value := trimL (collapseL (collapseRuns isControl false (chars value))) in
  if negb (existsb isPropSpecial value) then str value
  else
    str (DQUOTE :: escapeChars (fun c => Ascii.eqb c DQUOTE || Ascii.eqb c "\"%char) value
                ++ [DQUOTE]).

(** A status object: [{ result, comment, policy, smtp, body, header }]. The
    four property groups are objects whose keys are listed in insertion
    order. *)
Record status : Type := mkStatus {
  st_result : jsval;
  st_comment : jsval;
  st_policy : option (list (string * jsval));
  st_smtp : option (list (string * jsval));
  st_body : option (list (string * jsval));
  st_header : option (list (string * jsval))
}.

Definition ptypeRows (ptype : string) (group : option (list (string * jsval))) : list string :=
  match group with
  | None => []
  | Some props =>
      flat_map (fun '(prop, v) =>
                  if truthy v then [ptype +:+ "." +:+ prop +:+ "=" +:+ escapePropValue v] else [])
               props
  end.

(** [formatAuthHeaderRow(method, status)]. *)
Definition formatAuthHeaderRow (method : string) (status : status) : string :=
  let parts := [method +:+ "=" +:+ toString (if truthy (st_result status) then st_result status else JStr "none")] in
  let parts := parts ++ (if truthy (st_comment status)
                         then ["(" +:+ escapeCommentValue (st_comment status) +:+ ")"] else []) in
  let parts := parts ++ ptypeRows "policy" (st_policy status) ++ ptypeRows "smtp" (st_smtp status)
                     ++ ptypeRows "body" (st_body status) ++ ptypeRows "header" (st_header status) in
  joinWith " " parts.

(** ** The modules the sources require *)

(** [libmime.foldLines(str, lineLength)]; the length may be left out. *)
Class Libmime : Type := { foldLines : string -> option nat -> string }.

(** [os.hostname()]. *)
Class Os : Type := { hostname : string }.

(** [domainSchema.validate(domain).error] of the Joi schema
    [Joi.string().domain(...)]: the validation error, if any. *)
Class Joi : Type := { domainSchema_validate : string -> option error }.

(** [punycode.toASCII(input)], which may throw. *)
Class Punycode : Type := { toASCII : string -> result string }.

(** [psl.get(domain)]: the organizational domain, or [null]. *)
Class Psl : Type := { psl_get : string -> option string }.

(** A DNS resolver, [resolver(name, rr)]. Its answer may depend on the
    queries it has served before, which it is given. *)
Definition resolver_t : Type := list (jsval * string) -> jsval -> string -> result answer.

(** [dns.promises.resolve]. *)
Class Dns : Type := { dns_resolve : resolver_t }.

(** ** SPF: the counting resolver and [verify] (lib/spf/index.js) *)

Definition MAX_RESOLVE_COUNT : Z := 50.

(** [formatHeaders(result)]: the text handed to [libmime.foldLines], and
    the folding at 160 columns. *)
Definition receivedSpfLine (st : status) (client_ip : jsval) : string :=
  "Received-SPF: " +:+ toString (st_result st)
  +:+ (if truthy (st_comment st) then " (" +:+ escapeCommentValue (st_comment st) +:+ ")" else "")
  +:+ " client-ip=" +:+ toString client_ip +:+ ";".

(** The closure state of one [limitedResolver]: its counter. [upstream] is
    a ghost log of the calls passed on to the wrapped resolver, oldest
    first. *)
Record resolverState : Type := mkResolverState {
  resolveCount : Z;
  upstream : list (jsval * string)
}.

Definition initialState : resolverState := mkResolverState 0 [].

(** The domain test of the resolver, a lax one: one or more labels of
    printable ASCII other than the dot, each followed by a dot, and a last
    label that starts with a lowercase letter and goes on with lowercase
    letters, digits and hyphens. *)
Definition isLabelChar (c : ascii) : bool :=
  let n := N_of_ascii c in ((32 <=? n) && (n <=? 45) || (47 <=? n) && (n <=? 126))%N.

Definition isLower (c : ascii) : bool :=
  let n := N_of_ascii c in ((97 <=? n) && (n <=? 122))%N.

Definition isTldChar (c : ascii) : bool :=
  isLower c || isDigit c || Ascii.eqb c "-"%char.

Definition isTld (l : list ascii) : bool :=
  match l with
  | [] => false
  | c :: r => isLower c && forallb isTldChar r
  end.

Definition laxDomain (s : string) : bool :=
  let labels := splitOn "."%char (chars s) in
  match rev labels with
  | tld :: (_ :: _) as front =>
      isTld tld && forallb (fun l => negb (Nat.eqb (length l) 0) && forallb isLabelChar l) front
  | _ => false
  end.

Definition permerror (txt : string) : spfResultObj :=
  mkSpfResult None (Some "permerror") (Some txt) None None.

Definition tooManyRequests : error :=
  mkError "Error" "Too many DNS requests" None None (Some (permerror "Too many DNS requests")).

Definition effectiveLimit (maxResolveCount : option Z) : Z :=
  match maxResolveCount with
  | Some n => if (n =? 0)%Z then MAX_RESOLVE_COUNT else n
  | None => MAX_RESOLVE_COUNT
  end.

(** [limitedResolver(resolver, maxResolveCount)], as the function it
    returns: one call [(domain, type)] in the state [st]. *)
Definition limitedResolver (resolver : resolver_t) (maxResolveCount : option Z)
    (domain : jsval) (type : string) (st : resolverState) : resolverState * result answer :=
  let maxResolveCount := effectiveLimit maxResolveCount in
  if negb (truthy domain) && String.eqb type "resolveCount" then
    (st, Ok (Number (resolveCount st)))
  else if negb (truthy domain) && String.eqb type "resolveLimit" then
    (st, Ok (Number maxResolveCount))
  else
    let st := mkResolverState (resolveCount st + 1) (upstream st) in
    if (maxResolveCount <? resolveCount st)%Z then (st, Throw tooManyRequests)
    else if negb (laxDomain (toString domain)) then
      (st, Throw (mkError "Error" "Failed to validate domain" None None
                    (Some (permerror ("Invalid domain " +:+ toString domain)))))
    else
      let r := resolver (upstream st) domain type in
      let st := mkResolverState (resolveCount st) (upstream st ++ [(domain, type)]) in
      match r with
      | Ok a => (st, Ok a)
      | Throw err =>
          match code err with
          | Some c =>
              if String.eqb c "ENOTFOUND" || String.eqb c "ENODATA" then (st, Ok (Records []))
              else if String.eqb c "ETIMEOUT" then
                (st, Throw (mkError (err_name err) (message err) (code err) (err_rr err)
                              (Some (mkSpfResult None (Some "temperror") (Some "DNS timeout") None None))))
              else (st, Throw err)
          | None => (st, Throw err)
          end
      end.

(** The options [verify] hands to [spfVerify], the resolver apart. *)
Record spfOpts : Type := mkSpfOpts {
  o_sender : string;
  o_ip : jsval;
  o_mta : string;
  o_helo : jsval
}.

(** An SPF evaluation, seen from the resolver it is given: it returns an
    outcome ([None] for [false], no outcome), throws, or awaits one
    resolver call and goes on with what the call returned or threw. *)
Inductive spf_eval : Type :=
| Done (r : option spfResultObj)
| Fail (e : error)
| Resolve (domain : jsval) (type : string) (k : result answer -> spf_eval).

(** Modelled from the spec: [spfVerify] of lib/spf/spf-verify.js is not
    among the sources. The spec makes it the SPF evaluator that fetches
    every record through the resolver it is given (4.4: each operation
    routes through an injected resolver; 4.6); here it is any evaluation
    over that resolver. *)
Class SpfVerify : Type := { spfVerify : string -> spfOpts -> spf_eval }.


(** Running an evaluation against a resolver with state. *)
Fixpoint run (lr : jsval -> string -> resolverState -> resolverState * result answer)
    (p : spf_eval) (st : resolverState) : resolverState * result (option spfResultObj) :=
  match p with
  | Done r => (st, Ok r)
  | Fail e => (st, Throw e)
  | Resolve d t k => let '(st', a) := lr d t st in run lr (k a) st'
  end.

(** The address part of an IPv4-mapped IPv6 address: a non-empty run of
    colons and hexadecimal letters A to F (either case), a colon, and a
    dotted quad of decimal numbers, which is what is returned. *)
Definition isMappingPrefixChar (c : ascii) : bool :=
  let n := N_of_ascii (upperChar c) in (n =? 58)%N || ((65 <=? n) && (n <=? 70))%N.

Definition isDottedQuad (l : list ascii) : bool :=
  let parts := splitOn "."%char l in
  Nat.eqb (length parts) 4
  && forallb (fun p => negb (Nat.eqb (length p) 0) && forallb isDigit p) parts.

Definition mappingMatch (s : string) : option string :=
  let l := chars s in
  if existsb (Ascii.eqb ":"%char) l then
    let prefix := beforeLast ":"%char l in
    let quad := afterLast ":"%char l in
    if negb (Nat.eqb (length prefix) 0) && forallb isMappingPrefixChar prefix && isDottedQuad quad
    then Some (str quad) else None
  else None.

Record verifyOpts : Type := mkVerifyOpts {
  sender : option string;
  ip : option string;
  helo : option string;
  mta : option string;
  maxResolveCount : option Z;
  resolver : option resolver_t
}.

(** The object [verify] returns; [header] and [info] are set last. *)
Record response : Type := mkResponse {
  r_domain : string;
  r_client_ip : jsval;
  r_helo : option string;
  r_envelope_from : option string;
  r_rr : option string;
  r_status : status;
  r_header : option string;
  r_info : option string;
  r_lookups : option (answer * answer)
}.

(** [formatHeaders(result)]. *)
Definition formatHeaders `{Libmime} (r : response) : string :=
  foldLines (receivedSpfLine (r_status r) (r_client_ip r)) (Some 160).

(** The sender [verify] works with: the given one or postmaster at the
    HELO name, with [postmaster] put before a missing local part. *)
Definition normalSender (sender helo : option string) : string :=
  let sender := orElse sender ("postmaster@" +:+ toString (ostr helo)) in
  match indexOf "@"%char (chars sender) with
  | None => "postmaster@" +:+ sender
  | Some 0 => "postmaster" +:+ sender
  | Some _ => sender
  end.

(** [sender.split('@').pop().toLowerCase().trim() || '-']. *)
Definition senderDomain (sender : string) : string :=
  orElse (Some (trim (toLowerCase (str (afterLast "@"%char (chars sender)))))) "-".

(** The client address: the IPv4 part of a mapped IPv6 address. *)
Definition normalIp (ip : option string) : jsval :=
  match mappingMatch (orElse ip "") with
  | Some quad => JStr quad
  | None => ostr ip
  end.

(** The [switch] of [verify]: the result word and the comment for an
    outcome. *)
Definition verdict (mta sender domain : string) (ip : jsval) (result : spfResultObj)
  : string * string :=
  let ip := toString ip in
  let detail := match text result with
                | Some t => if String.eqb t "" then "" else ": " +:+ t
                | None => ""
                end in
  let key := match qualifier result with
             | Some q => if String.eqb q "" then spf_error result else Some q
             | None => spf_error result
             end in
  let temperror := ("temperror", mta +:+ ": error in processing during lookup of " +:+ sender +:+ detail) in
  match key with
  | Some k =>
      if String.eqb k "+" then
        ("pass", mta +:+ ": domain of " +:+ sender +:+ " designates " +:+ ip +:+ " as permitted sender")
      else if String.eqb k "~" then
        ("softfail", mta +:+ ": domain of transitioning " +:+ sender +:+ " does not designate "
                     +:+ ip +:+ " as permitted sender")
      else if String.eqb k "-" then
        ("fail", mta +:+ ": domain of " +:+ sender +:+ " does not designate " +:+ ip
                 +:+ " as permitted sender")
      else if String.eqb k "?" then
        ("neutral", mta +:+ ": " +:+ ip +:+ " is neither permitted nor denied by domain of " +:+ sender)
      else if String.eqb k "none" then
        ("none", mta +:+ ": " +:+ domain +:+ " does not designate permitted sender hosts")
      else if String.eqb k "permerror" then
        ("permerror", mta +:+ ": permanent error in processing during lookup of " +:+ sender +:+ detail)
      else temperror
  | None => temperror
  end.

Definition withLookups (r : spfResultObj) (l : option (answer * answer)) : spfResultObj :=
  mkSpfResult (qualifier r) (spf_error r) (text r) (spf_rr r) l.

(** The last part of [verify], from the making of the response object to
    its return, for the outcome [result] of the evaluation. *)
Definition verifyResponse `{Libmime} (mta sender domain : string) (ip : jsval)
    (helo : option string) (result : option spfResultObj) : response :=
  let status0 := mkStatus (JStr "neutral") (JBool false) None
                   (Some [("mailfrom", JStr sender); ("helo", ostr helo)]) None None in
  let response := mkResponse domain ip
                    (match helo with
                     | Some h => if String.eqb h "" then None else Some h
                     | None => None
                     end)
                    (if String.eqb sender "" then None else Some sender)
                    None status0 None None None in
  let result := default (mkSpfResult (Some "?") None None None None) result in
  let '(word, comment) := verdict mta sender domain ip result in
  let status := mkStatus (JStr word) (JStr comment) (st_policy status0) (st_smtp status0)
                  (st_body status0) (st_header status0) in
  let rr := match spf_rr result with
            | Some x => if String.eqb x "" then None else Some x
            | None => None
            end in
  let response := mkResponse (r_domain response) (r_client_ip response) (r_helo response)
                    (r_envelope_from response) rr status None None None in
  let header := formatHeaders response in
  let info := formatAuthHeaderRow "spf" status in
  let status := match st_comment status with
                | JBool _ => mkStatus (st_result status) JUndefined (st_policy status)
                               (st_smtp status) (st_body status) (st_header status)
                | _ => status
                end in
  mkResponse (r_domain response) (r_client_ip response) (r_helo response)
    (r_envelope_from response) rr status (Some header) (Some info) (lookups result).

(** [verify(opts)], exported as [spf]: the final state of the counting
    resolver made for this call, and what is returned or thrown. *)
Definition verify `{Libmime, Os, Joi, Dns, SpfVerify} (opts : verifyOpts)
  : resolverState * result response :=
  let mta := orElse (mta opts) hostname in
  let sender := normalSender (sender opts) (helo opts) in
  let ip := normalIp (ip opts) in
  let domain := senderDomain sender in
  let resolver := default dns_resolve (resolver opts) in
  let verifyResolver := limitedResolver resolver (maxResolveCount opts) in
  (* try { validate; result = await spfVerify(...) } catch (err) { ... } *)
  let '(st, result) :=
    match domainSchema_validate domain with
    | Some err =>
        (initialState,
         Some (mkSpfResult None (Some "none") (Some ("Invalid domain " +:+ domain)) None None))
    | None =>
        match run verifyResolver
                (spfVerify domain (mkSpfOpts sender ip mta (ostr (helo opts)))) initialState with
        | (st, Ok r) => (st, r)
        | (st, Throw err) =>
            (st, Some (match spfResult err with
                       | Some r => r
                       | None => mkSpfResult None (Some "temperror") (Some (message err)) None None
                       end))
        end
    end in
  (* result.lookups = { limit: await ..., count: await ... } *)
  let '(st, result) :=
    match result with
    | Some r =>
        let '(st, limit) := verifyResolver (JBool false) "resolveLimit" st in
        let '(st, count) := verifyResolver (JBool false) "resolveCount" st in
        (st, (l ← limit; c ← count; mret (Some (withLookups r (Some (l, c))))))
    | None => (st, Ok None)
    end in
  (st, result ← result; mret (verifyResponse mta sender domain ip (helo opts) result)).

(** ** DMARC alignment (lib/tools.js) *)

(** [formatDomain(domain)]. *)
Definition formatDomain `{Punycode} (domain : string) : string :=
  let domain := trim (toLowerCase domain) in
  match toASCII domain with
  | Ok a => trim (toLowerCase a)
  | Throw _ => domain
  end.

(** [psl.get(domain) || domain]. *)
Definition orgDomain `{Psl} (domain : string) : string :=
  orElse (psl_get domain) domain.

(** The two loops of [getAligment]: the first domain of the list whose
    formatted organizational domain passes the test, as that formatted
    organizational domain. *)
Fixpoint findDomain `{Punycode, Psl} (test : string -> bool) (domainList : list string)
  : option string :=
  match domainList with
  | [] => None
  | domain :: rest =>
      let domain := formatDomain (orgDomain domain) in
      if test domain then Some domain else findDomain test rest
  end.

(** [getAligment(fromDomain, domainList, strict)]; [None] is [false]. *)
Definition getAligment `{Punycode, Psl} (fromDomain : string) (domainList : list string)
    (strict : bool) : option string :=
  let strictMatch :=
    if strict then
      findDomain (fun domain => String.eqb (formatDomain domain) (formatDomain fromDomain)) domainList
    else None in
  match strictMatch with
  | Some domain => Some domain
  | None =>
      (* match org domains *)
      let fromDomain := if strict then formatDomain fromDomain else fromDomain in
      let fromDomain := formatDomain (orgDomain fromDomain) in
      findDomain (fun domain => String.eqb domain fromDomain) domainList
  end.

(** ** Signature header lines (lib/tools.js) *)

Definition keyOrderingDKIM : list string :=
  ["v"; "a"; "c"; "d"; "h"; "i"; "l"; "q"; "s"; "t"; "x"; "z"; "bh"; "b"].
Definition keyOrderingARC : list string :=
  ["i"; "a"; "c"; "d"; "h"; "l"; "q"; "s"; "t"; "x"; "z"; "bh"; "b"].
Definition keyOrderingAS : list string :=
  ["i"; "a"; "t"; "cv"; "d"; "s"; "b"].

(** [Math.round(Date.now() / 1000)]. *)
Class Clock : Type := { unixTime : Z }.

(** [array.indexOf(key)], with the length standing for -1 where only
    members are looked up. *)
Fixpoint indexIn (key : string) (l : list string) : nat :=
  match l with
  | [] => 0
  | k :: r => if String.eqb k key then 0 else S (indexIn key r)
  end.

Definition includes (l : list string) (key : string) : bool :=
  existsb (String.eqb key) l.

(** The filter of [formatSignatureHeaderLine]: the value is neither
    [false] nor [undefined], the property called [key] of the values is
    not [null], and the key is one of the ordering. *)
Definition isEmitted (keyOrdering : list string) (values : gmap string jsval) (key : string) : bool :=
  match values !! key with
  | None | Some JUndefined | Some (JBool false) => false
  | Some _ =>
      match values !! "key" with
      | Some JNull => false
      | _ => includes keyOrdering key
      end
  end.

(** [s.replace(/.{n}/g, '$& ')]: from left to right, every [n] characters
    that hold no line terminator get a space after them; where the next
    [n] characters hold one (or fewer than [n] are left), one character
    is passed over. *)
Fixpoint spaceEvery (n : nat) (fuel : nat) (l : list ascii) : list ascii :=
  match fuel with
  | 0 => l
  | S fuel' =>
      match l with
      | [] => []
      | c :: r =>
          if (n <=? List.length l)%nat && forallb (fun c => negb (isLineTerminator c)) (take n l)
          then take n l ++ SP :: spaceEvery n fuel' (drop n l)
          else c :: spaceEvery n fuel' r
      end
  end.

(** The folded signature value: the text of the tag, a space after every
    75 characters, trimmed. *)
Definition foldSignature (tag : string) : string :=
  str (trimL (spaceEvery 75 (List.length (chars tag)) (chars tag))).

Definition typeError (msg : string) : error := mkError "TypeError" msg None None None.

(** The conversion to A-labels, a failure of which is ignored. A value that
    is no string has no [split] method, which fails as well. *)
Definition toALabel `{Punycode} (val : jsval) : jsval :=
  match val with
  | JStr s => match toASCII s with Ok a => JStr a | Throw _ => val end
  | _ => val
  end.

(** One tag of the header, the body of the [map] callback. *)
Definition formatTag `{Punycode} (type : string) (values : gmap string jsval) (folded : bool)
    (key : string) : result string :=
  let val := jsget (values !! key) in
  let val := if truthy val then val else JStr "" in
  if String.eqb key "b" && folded && truthy val then
    Ok (foldSignature (key +:+ "=" +:+ toString val))
  else
    let val := if includes ["d"; "s"] key then toALabel val else val in
    val ← (if String.eqb key "i" && String.eqb type "DKIM" then
             match val with
             | JStr s =>
                 match indexOf "@"%char (chars s) with
                 | Some atPos =>
                     let domainPart := str (drop (atPos + 1) (chars s)) in
                     let domainPart := match toASCII domainPart with
                                       | Ok a => a
                                       | Throw _ => domainPart
                                       end in
                     Ok (JStr (str (take (atPos + 1) (chars s)) +:+ domainPart))
                 | None => Ok val
                 end
             | _ => Throw (typeError "val.indexOf is not a function")
             end
           else Ok val);
    Ok (key +:+ "=" +:+ toString val).

(** The order of the comparator [keyOrdering.indexOf(a) - keyOrdering.indexOf(b)]. *)
Definition keyLe (keyOrdering : list string) (a b : string) : Prop :=
  indexIn a keyOrdering <= indexIn b keyOrdering.

#[export] Instance keyLe_dec keyOrdering a b : Decision (keyLe keyOrdering a b) :=
  decide (indexIn a keyOrdering <= indexIn b keyOrdering).

(** The keys of the header, [Object.keys(values)] filtered and sorted. (A
    map lists each key once, in an order of its own; the object lists them
    in insertion order.) *)
Definition emittedKeys (keyOrdering : list string) (values : gmap string jsval) : list string :=
  merge_sort (keyLe keyOrdering)
    (filter (fun key => isEmitted keyOrdering values key = true) (map_to_list values).*1).

(** [Object.assign(defaults, values)]. *)
Definition assign (defaults values : gmap string jsval) : gmap string jsval :=
  values ∪ defaults.

(** [formatSignatureHeaderLine(type, values, folded)]. *)
Definition formatSignatureHeaderLine `{Punycode, Libmime, Clock} (type : string)
    (values : gmap string jsval) (folded : bool) : result string :=
  let type := toUpperCase type in
  '(headerKey, keyOrdering, values) ←
    (if String.eqb type "DKIM" then
       Ok ("DKIM-Signature", keyOrderingDKIM,
           assign (<["v" := JNum 1]> (<["t" := JNum unixTime]> (<["q" := JStr "dns/txt"]> ∅))) values)
     else if String.eqb type "ARC" then
       Ok ("ARC-Message-Signature", keyOrderingARC,
           assign (<["t" := JNum unixTime]> (<["q" := JStr "dns/txt"]> ∅)) values)
     else if String.eqb type "AS" then
       Ok ("ARC-Seal", keyOrderingAS, assign (<["t" := JNum unixTime]> ∅) values)
     else Throw (newError "Unknown Signature type"));
  tags ← mapM (formatTag type values folded) (emittedKeys keyOrdering values);
  let header := headerKey +:+ ": " +:+ joinWith "; " tags in
  Ok (if folded then foldLines header None else header).

(** ** DKIM key records (lib/tools.js) *)

(** Modelled from the spec: [parseDkimHeaders] of lib/parse-dkim-headers.js
    is not among the sources. The spec (3, 4.2) makes its outcome a tag
    list, a mapping from the lowercased tag name to the tag's value string;
    [None] stands for an outcome without the [parsed] property. *)
Class DkimHeaders : Type := { parseDkimHeaders : string -> option (gmap string string) }.

(** [crypto.createPublicKey({ key, format: 'pem' })], which may throw, and
    the key object it returns, a KeyObject of Node.js. Of its properties
    the sources read [asymmetricKeyType]; the length of the modulus of an
    RSA key is a property of its [asymmetricKeyDetails], undefined for a
    key that is no RSA key. *)
Record keyDetails : Type := mkKeyDetails {
  modulusLength : option Z
}.

Record keyObject : Type := mkKeyObject {
  asymmetricKeyType : string;
  asymmetricKeyDetails : keyDetails
}.

(** [publicKey.modulusLength], which [getPublicKey] reads: a KeyObject has
    no property of that name (its properties are [asymmetricKeyDetails],
    [asymmetricKeyType], [symmetricKeySize] and [type], and the methods
    [equals] and [export]), so that the read gives [undefined], here
    [None], whatever the key. *)
Definition keyObject_modulusLength (publicKey : keyObject) : option Z := None.

Class Crypto : Type := { createPublicKey : string -> result keyObject }.

(** The global object, as far as an assignment to an identifier that is not
    declared sees it: whether it has a property of that name. *)
Class GlobalObject : Type := { hasGlobalProperty : string -> bool }.

(** lib/tools.js is strict mode code (its first statement is the directive
    'use strict'), and these are the identifiers it declares at module
    level that [getPublicKey] has in scope, besides its own parameters and
    [let] variables. *)
Definition moduleScope : list string :=
  ["punycode"; "libmime"; "dns"; "crypto"; "https"; "packageData"; "parseDkimHeaders"; "psl";
   "Certificate"; "zlib"; "util"; "gunzip"; "defaultDKIMFieldNames"; "defaultARCFieldNames";
   "defaultASFieldNames"; "keyOrderingDKIM"; "keyOrderingARC"; "keyOrderingAS"; "writeToStream";
   "parseHeaders"; "getSigningHeaderLines"; "formatSignatureHeaderLine"; "getPublicKey"; "fetch";
   "escapePropValue"; "escapeCommentValue"; "formatAuthHeaderRow"; "formatRelaxedLine";
   "formatDomain"; "getAligment"; "validateAlgorithm"; "parseLogoFromX509"].

(** [x = v] in strict mode code, for an [x] that is no local variable: the
    assignment goes through when [x] is declared in the module or is a
    property of the global object, and throws a ReferenceError otherwise. *)
Definition assignIdentifier `{GlobalObject} (x : string) : result unit :=
  if includes moduleScope x || hasGlobalProperty x then Ok tt
  else Throw (mkError "ReferenceError" (x +:+ " is not defined") None None None).

(** [[].concat(list[0] || []).join('')] for what the resolver returned. *)
Definition firstRecordText (list : answer) : string :=
  match list with
  | Records (Txt fragments :: _) => joinWith "" fragments
  | Records (Addr a :: _) => a
  | Records (Mx _ _ :: _) => "[object Object]"
  | Records [] => ""
  | Number _ => ""
  end.

(** The [rr] of [getPublicKey]: the first record with all white space
    removed. *)
Definition keyRecord (list : answer) : string :=
  str (List.filter (fun c => negb (isSpace c)) (chars (firstRecordText list))).

Definition keyError (msg code : string) (rr : option string) : error :=
  mkError "Error" msg (Some code) rr None.

(** What [getPublicKey] returns: [{ publicKey, rr }]. *)
Record publicKeyResult : Type := mkPublicKeyResult {
  publicKey : string;
  pk_rr : string
}.

(** The PEM text [getPublicKey] makes of the [p] tag: the key between the
    two marker lines. *)
Definition pemOf (publicKey : string) : string :=
  "-----BEGIN PUBLIC KEY-----" +:+ String LF publicKey
  +:+ String LF "-----END PUBLIC KEY-----".

(** [getPublicKey(type, name, minBitLength, resolver)]. *)
Definition getPublicKey `{Dns, DkimHeaders, Crypto, GlobalObject} (type : string) (name : string)
    (minBitLength : option Z) (resolver : option resolver_t) : result publicKeyResult :=
  let minBitLength := match minBitLength with
                      | Some n => if (n =? 0)%Z then 1024%Z else n
                      | None => 1024%Z
                      end in
  let resolver := default dns_resolve resolver in
  list ← resolver [] (JStr name) "TXT";
  let rr := keyRecord list in
  if negb (String.eqb rr "") then
    (* prefix value for parsing as there is no default value *)
    let entry := parseDkimHeaders ("DNS: TXT;" +:+ rr) in
    let publicKey := entry ≫= (.!! "p") in
    match publicKey with
    | None | Some "" => Throw (keyError "Missing key value" "EINVALIDVAL" (Some rr))
    | Some publicKey =>
        let v := entry ≫= (.!! "v") in
        if String.eqb type "DKIM"
           && match v with
              | Some value => negb (String.eqb (trim (toLowerCase value)) "dkim1")
              | None => false
              end
        then Throw (keyError "Unknown key version" "EINVALIDVER" (Some rr))
        else
          let publicKeyPem := pemOf publicKey in
          _ ← assignIdentifier "publicKeyPem";
          publicKey ← createPublicKey publicKeyPem;
          let keyType := asymmetricKeyType publicKey in
          let k := entry ≫= (.!! "k") in
          if negb (includes ["rsa"; "ed25519"] keyType)
             || match k with
                | Some value => negb (String.eqb (toLowerCase value) keyType)
                | None => false
                end
          then Throw (keyError "Unknown key type" "EINVALIDTYPE" (Some rr))
          else if String.eqb keyType "rsa"
                  && match keyObject_modulusLength publicKey with
                     | Some bits => (bits <? 1024)%Z
                     | None => false (* undefined < 1024 *)
                     end
          then (* check key length *)
            Throw (keyError "Key too short" "ESHORTKEY" (Some rr))
          else Ok (mkPublicKeyResult publicKeyPem rr)
    end
  else Throw (keyError "Missing key value" "EINVALIDVAL" None).

(** ** Verified Mark Certificates (lib/tools.js) *)

Record altName : Type := mkAltName { dnsName : option string }.

(** An extension of a parsed certificate: its [oid], and the properties
    [altNames] and [value] where it has them. *)
Record extension : Type := mkExtension {
  oid : string;
  altNames : option (list altName);
  ext_value : option string
}.

Record certificate : Type := mkCertificate { extensions : list extension }.

(** [Certificate.fromPEM(pem)] of @fidm/x509, which may throw. *)
Class X509 : Type := { fromPEM : string -> result certificate }.

(** Buffers are strings of bytes: [buffer.toString()] decodes one as UTF-8,
    [Buffer.from(text, 'base64')] decodes base64, and [gunzip] may fail. *)
Class Zlib : Type := {
  utf8 : string -> string;
  fromBase64 : string -> string;
  gunzip : string -> result string
}.

Fixpoint startsWith (needle l : list ascii) : bool :=
  match needle, l with
  | [], _ => true
  | _ :: _, [] => false
  | a :: needle', c :: r => Ascii.eqb a c && startsWith needle' r
  end.

(** The index of the first match of a word boundary followed by the text
    [needle], which starts with a word character: the text stands at the
    start or after a character that is no word character. [afterWord]
    tells whether the character before [l] is a word character. *)
Fixpoint searchWord (needle : list ascii) (afterWord : bool) (l : list ascii) : option nat :=
  match l with
  | [] => None
  | c :: r =>
      if negb afterWord && startsWith needle l then Some 0
      else S <$> searchWord needle (isWordChar c) r
  end.

Record logo : Type := mkLogo {
  logo_pem : string;
  logo_altNames : list string;
  svg : string
}.

(** The [dnsName]s of the subject alternative name extensions, trimmed, the
    empty and the missing ones left out. *)
Definition certAltNames (cert : certificate) : list string :=
  flat_map (fun d =>
              match altNames d with
              | Some ans =>
                  flat_map (fun an =>
                              match dnsName an with
                              | Some n => if String.eqb (trim n) "" then [] else [trim n]
                              | None => []
                              end) ans
              | None => []
              end)
           (filter (fun e => oid e = "2.5.29.17") (extensions cert)).

(** [parseLogoFromX509(pem)]; [None] is [false]. *)
Definition parseLogoFromX509 `{X509, Zlib} (pem : string) : result (option logo) :=
  cert ← fromPEM pem;
  let altNames := certAltNames cert in
  if Nat.eqb (List.length altNames) 0 then Ok None
  else
    let logo := head (filter (fun e => oid e = "1.3.6.1.5.5.7.1.12") (extensions cert)) in
    match logo ≫= ext_value with
    | None | Some "" => Ok None
    | Some value =>
        let str := utf8 value in
        (* No idea what is that binary stuff before the data uri block *)
        let dataMatch := match searchWord (chars "data:") false (chars str) with
                         | Some _ => searchWord (chars "base64,") false (chars str)
                         | None => None
                         end in
        match dataMatch with
        | Some index =>
            let b64 := string_of_list_ascii
                         (drop (index + List.length (chars "base64,")) (chars str)) in
            svg ← gunzip (fromBase64 b64);
            Ok (Some (mkLogo pem altNames (utf8 svg)))
        | None => Ok None
        end
    end.

(** ** Shapes of canonical text *)

Definition noLeadingSpace (l : list ascii) : Prop :=
  match l with
  | [] => True
  | c :: _ => isSpace c = false
  end.

Definition noTrailingSpace (l : list ascii) : Prop := noLeadingSpace (rev l).

(** Every white space character is a single SP between two other
    characters or at an end. *)
Fixpoint singleSpaced (l : list ascii) : Prop :=
  match l with
  | [] => True
  | c :: r =>
      (isSpace c = true -> c = SP /\ noLeadingSpace r) /\ singleSpaced r
  end.


(** The words of a text: its maximal runs of characters that are no white
    space, in order. [word] is the word begun before [l]. *)
Fixpoint wordsFrom (word : list ascii) (l : list ascii) : list (list ascii) :=
  match l with
  | [] => match word with [] => [] | _ :: _ => [word] end
  | c :: r =>
      if isSpace c then
        match word with
        | [] => wordsFrom [] r
        | _ :: _ => word :: wordsFrom [] r
        end
      else wordsFrom (word ++ [c]) r
  end.

Definition words (l : list ascii) : list (list ascii) := wordsFrom [] l.

(** Words put together again with one SP between them. *)
Fixpoint unwords (ws : list (list ascii)) : list ascii :=
  match ws with
  | [] => []
  | [w] => w
  | w :: rest => w ++ SP :: unwords rest
  end.

(** ** The SPF lookup budget: vocabulary *)

(** A call of the counting resolver is a DNS query unless it is one of the
    two bookkeeping calls, which have no domain. *)
Definition isQuery (domain : jsval) (type : string) : bool :=
  negb (negb (truthy domain) && (String.eqb type "resolveCount" || String.eqb type "resolveLimit")).

(** What the counting resolver keeps true: the wrapped resolver has been
    called at most as often as the counter says, and at most [limit]
    times. *)
Definition withinBudget (limit : Z) (st : resolverState) : Prop :=
  (0 <= resolveCount st
   /\ Z.of_nat (List.length (upstream st)) <= resolveCount st
   /\ Z.of_nat (List.length (upstream st)) <= Z.max 0 limit)%Z.

(** The evaluation [verify] starts, and the counting resolver it makes
    for it. *)
Definition evaluationOf `{Os, SpfVerify} (opts : verifyOpts) : spf_eval :=
  let sender := normalSender (sender opts) (helo opts) in
  spfVerify (senderDomain sender)
    (mkSpfOpts sender (normalIp (ip opts)) (orElse (mta opts) hostname) (ostr (helo opts))).

Definition verifyResolverOf `{Dns} (opts : verifyOpts)
  : jsval -> string -> resolverState -> resolverState * result answer :=
  limitedResolver (default dns_resolve (resolver opts)) (maxResolveCount opts).

(** A sample evaluation: [n] nested includes, each one TXT query. *)
Fixpoint includeChain (n : nat) : spf_eval :=
  match n with
  | 0 => Done (Some (mkSpfResult (Some "+") None None None None))
  | S m =>
      Resolve (JStr "spf.example.com") "TXT"
        (fun r => match r with
                  | Ok _ => includeChain m
                  | Throw e => Fail e
                  end)
  end.

(** A sample evaluation that catches whatever the resolver throws and
    goes on: [n] queries one after the other, and no outcome at the end. *)
Fixpoint stubbornChain (n : nat) : spf_eval :=
  match n with
  | 0 => Done None
  | S m => Resolve (JStr "spf.example.com") "TXT" (fun _ => stubbornChain m)
  end.

(** Stand-ins for the modules around [verify]: libmime on a line shorter
    than the limit, which [foldLines] leaves as it is; a host name; a Joi
    schema that accepts the domain; a resolver that answers every query
    with one TXT record; and an evaluator of four nested includes. *)
Definition sampleLibmime : Libmime := {| foldLines := fun s _ => s |}.
Definition sampleOs : Os := {| hostname := "mx.example.com" |}.
Definition sampleJoi : Joi := {| domainSchema_validate := fun _ => None |}.
Definition sampleDns : Dns :=
  {| dns_resolve := fun _ _ _ => Ok (Records [Txt ["v=spf1 include:spf.example.com -all"]]) |}.
Definition sampleSpfVerify : SpfVerify := {| spfVerify := fun _ _ => includeChain 4 |}.


(** Options with a lookup limit of three, and the same with the default
    limit. *)
Definition sampleOpts : verifyOpts :=
  mkVerifyOpts (Some "alice@example.com") (Some "192.0.2.1") (Some "mail.example.com")
    None (Some 3%Z) None.

Definition sampleSpfOpts : verifyOpts :=
  mkVerifyOpts (Some "alice@example.com") (Some "192.0.2.1") (Some "mail.example.com")
    None None None.

(** A sample evaluation that passes on the record it fetched. *)
Definition samplePass : SpfVerify :=
  {| spfVerify := fun domain _ =>
       Resolve (JStr domain) "TXT"
         (fun r => match r with
                   | Ok _ => Done (Some (mkSpfResult (Some "+") None None
                                           (Some "v=spf1 ip4:192.0.2.0/24 -all") None))
                   | Throw e => Fail e
                   end) |}.

(** Modelled from the spec: the Received-SPF line as section 6 of the spec
    words it, with the envelope sender, the HELO name and the matching
    record after the client address. *)
Definition specReceivedSpfLine (r : response) : string :=
  receivedSpfLine (r_status r) (r_client_ip r)
  +:+ " envelope-from=" +:+ str (DQUOTE :: chars (default "" (r_envelope_from r)) ++ [DQUOTE])
  +:+ "; helo=" +:+ default "" (r_helo r) +:+ ";"
  +:+ match r_rr r with
      | Some rr => " rr=" +:+ rr +:+ ";"
      | None => ""
      end.

(** Options whose client address holds a line end. *)
Definition foldedAddressOpts : verifyOpts :=
  mkVerifyOpts (Some "alice@example.com") (Some ("192.0.2.1" +:+ CRLF +:+ "X-Note: added"))
    (Some "mail.example.com") None None None.

(** ** Alignment: sample modules *)

(** A stand-in for punycode on ASCII names, which it leaves as they are. *)
Definition samplePunycode : Punycode := {| toASCII := fun s => Ok s |}.

(** A stand-in for psl with the one public suffix [com]: the
    organizational domain of a name under [com] is its last two labels,
    and other names have none. *)
Definition samplePsl : Psl :=
  {| psl_get := fun domain =>
       match rev (splitOn "."%char (chars domain)) with
       | tld :: name :: _ =>
           if String.eqb (str tld) "com" then Some (str name +:+ ".com") else None
       | _ => None
       end |}.

(** ** Signature headers: vocabulary *)

(** The A-label form of a name, the name itself where the conversion
    fails. *)
Definition aLabelOf `{Punycode} (name : string) : string :=
  match toASCII name with
  | Ok a => a
  | Throw _ => name
  end.

(** The values a header is made of, the defaults of its kind filled in. *)
Definition dkimValues `{Clock} (values : gmap string jsval) : gmap string jsval :=
  assign (<["v" := JNum 1]> (<["t" := JNum unixTime]> (<["q" := JStr "dns/txt"]> ∅))) values.
Definition arcValues `{Clock} (values : gmap string jsval) : gmap string jsval :=
  assign (<["t" := JNum unixTime]> (<["q" := JStr "dns/txt"]> ∅)) values.
Definition sealValues `{Clock} (values : gmap string jsval) : gmap string jsval :=
  assign (<["t" := JNum unixTime]> ∅) values.

(** The header line of the tags [keys], in that order. *)
Definition headerOf `{Punycode, Libmime} (headerKey type : string) (values : gmap string jsval)
    (folded : bool) (keys : list string) : result string :=
  tags ← mapM (formatTag type values folded) keys;
  let header := headerKey +:+ ": " +:+ joinWith "; " tags in
  Ok (if folded then foldLines header None else header).

(** The keys of an ordering that the filter lets through. *)
Definition presentKeys (keyOrdering : list string) (values : gmap string jsval) : list string :=
  filter (fun key => isEmitted keyOrdering values key = true) keyOrdering.

Definition sampleClock : Clock := {| unixTime := 1650000000 |}.

(** A stand-in for punycode that knows one name beyond ASCII. *)
Definition idnPunycode : Punycode :=
  {| toASCII := fun s =>
       if String.eqb s (String (ascii_of_N 252) "ber.example")
       then Ok "xn--ber-goa.example" else Ok s |}.

Definition sampleValues : gmap string jsval :=
  list_to_map [("b", JStr "c2lnbmF0dXJl"); ("bh", JStr "Ym9keWhhc2g=");
               ("s", JStr "selector"); ("a", JStr "rsa-sha256");
               ("i", JStr ("joe@" +:+ String (ascii_of_N 252) "ber.example"));
               ("h", JStr "from:to:subject"); ("x", JBool false);
               ("d", JStr (String (ascii_of_N 252) "ber.example"));
               ("c", JStr "relaxed/relaxed"); ("unknown", JStr "dropped")].

(** ** DKIM key records: sample modules *)

(** Modelled from the spec: a tag-list parser after section 4.2, for the
    samples (lib/parse-dkim-headers.js is not among the sources). The
    text is split at semicolons; a part with an equals sign is a tag, its
    name the trimmed, lowercased text before the sign and its value the
    trimmed text after it; a part without one (the header name and its
    default value) is no tag. *)
Definition sampleTag (part : list ascii) : option (string * string) :=
  match splitFirst "="%char part with
  | Some (k, v) => Some (str (trimL (map lowerChar k)), str (trimL v))
  | None => None
  end.

Definition sampleDkimHeaders : DkimHeaders :=
  {| parseDkimHeaders := fun s =>
       Some (list_to_map (omap sampleTag (splitOn ";"%char (chars s)))) |}.

(** Two RSA public keys in the base64 text of a [p] tag, one of 2048 and
    one of 512 bits, as OpenSSL writes them. *)
Definition rsa2048Key : string :=
  "MIIBIjANBgkqhkiG9w0BAQEFAAOCAQ8AMIIBCgKCAQEA+BQ4jJtJ4o0IuuWeZlo7"
  +:+ "Mz3x5hyWPCOGqovdJ63Cgp3UFQmS4Jl/EJEMyHk6v4k2nyGuY0kUhZmS4h44TtHl"
  +:+ "iNXIacLUKNkmUI9leG9GIM4km1neF5/id72qxtcUwNi8DKVI5R1HlMBbPqLcMpbs"
  +:+ "K/Dtv7YA1XhhtPqezWOU4XsKMyi+iUkXkrrjGkajUoJRsSkJtizeTD/EOo1ZMIrl"
  +:+ "AJSnDpzLk24w+9d6NhH8A69Rih4ExK/es69a/rxIOMeLA6yuNw0c+WkuSb/w9ubP"
  +:+ "Q9Sm5N+fVxYRNangwIgizqawp/+peF7P/BYd/acznm7uh7nxYAlO832saTvYbmxk"
  +:+ "twIDAQAB".

Definition rsa512Key : string :=
  "MFwwDQYJKoZIhvcNAQEBBQADSwAwSAJBAL/T7HRCyOfPWnBm1Zs2aG7E/d/d/5aT"
  +:+ "lITYPnsOEfmEpkzHaBHXg4eKBctZu2oKKcJlObQU0oQDTidyxT5U+jECAwEAAQ==".

(** A stand-in for crypto that knows these two keys and answers for them
    what Node.js answers: a key object of type rsa whose details give the
    length of the modulus. Any other text it refuses, as crypto refuses a
    text that is no key. *)
Definition sampleCrypto : Crypto :=
  {| createPublicKey := fun pem =>
       if String.eqb pem (pemOf rsa2048Key) then Ok (mkKeyObject "rsa" (mkKeyDetails (Some 2048%Z)))
       else if String.eqb pem (pemOf rsa512Key) then Ok (mkKeyObject "rsa" (mkKeyDetails (Some 512%Z)))
       else Throw (mkError "Error" "error:1E08010C:DECODER routines::unsupported"
                     (Some "ERR_OSSL_UNSUPPORTED") None None) |}.

(** The global object of a Node.js process, which has no property
    [publicKeyPem], and one that has been given it. *)
Definition nodeGlobal : GlobalObject := {| hasGlobalProperty := fun _ => false |}.
Definition globalWithPem : GlobalObject :=
  {| hasGlobalProperty := fun x => String.eqb x "publicKeyPem" |}.

(** A resolver that answers every query with the one TXT record of the
    given fragments. *)
Definition txtResolver (fragments : list string) : resolver_t :=
  fun _ _ _ => Ok (Records [Txt fragments]).

Definition rsa2048Record : list string :=
  ["v=DKIM1; k=rsa; "; "p=" +:+ rsa2048Key].
Definition rsa512Record : list string :=
  ["v=DKIM1; k=rsa; p=" +:+ rsa512Key].
Definition revokedRecord : list string := ["v=DKIM1; k=rsa; p="].
Definition keylessRecord : list string := ["v=DKIM1; k=rsa"].

(** The tag list [getPublicKey] reads: that of the key record behind the
    prefix that stands for a header name and its value. *)
Definition tagsOf `{DkimHeaders} (list : answer) : option (gmap string string) :=
  parseDkimHeaders ("DNS: TXT;" +:+ keyRecord list).


(** ** Verified Mark Certificates: vocabulary and sample modules *)

(** The [value] of the logotype extension, if the certificate has the
    extension and the extension a value. *)
Definition logoValue (cert : certificate) : option string :=
  head (filter (fun e => oid e = "1.3.6.1.5.5.7.1.12") (extensions cert)) ≫= ext_value.

(** The index of the first occurrence of [needle] in [l]. *)
Fixpoint indexOfText (needle l : list ascii) : option nat :=
  match l with
  | [] => if startsWith needle [] then Some 0 else None
  | _ :: r => if startsWith needle l then Some 0 else S <$> indexOfText needle r
  end.

(** Modelled from the spec: the test of section 4.12 in the spec's words,
    the value holds a data URI with a base64 payload, that is the text
    [data:] and, somewhere after it, the text [;base64,]. *)
Definition containsDataUri (value : string) : bool :=
  match indexOfText (chars "data:") (chars value) with
  | Some i =>
      bool_decide (is_Some (indexOfText (chars ";base64,") (drop (i + 5) (chars value))))
  | None => false
  end.

(** A certificate with one DNS name and a logotype extension of the given
    value, and a stand-in for @fidm/x509 that parses every text to it. *)
Definition sampleCert (value : string) : certificate :=
  mkCertificate
    [mkExtension "2.5.29.15" None (Some "digitalSignature");
     mkExtension "2.5.29.17" (Some [mkAltName (Some " example.com "); mkAltName None]) None;
     mkExtension "1.3.6.1.5.5.7.1.12" None (Some value)].

Definition sampleX509 (value : string) : X509 := {| fromPEM := fun _ => Ok (sampleCert value) |}.

(** Stand-ins for the buffer and zlib calls on ASCII text that is taken
    as its own decoding: one for a payload that is no gzip stream, which
    zlib refuses, and one for a payload that unpacks to a picture. *)
Definition noGzip : Zlib :=
  {| utf8 := fun s => s;
     fromBase64 := fun s => s;
     gunzip := fun _ => Throw (mkError "Error" "incorrect header check" (Some "Z_DATA_ERROR")
                                 None None) |}.

Definition gzipOfSvg : Zlib :=
  {| utf8 := fun s => s;
     fromBase64 := fun s => s;
     gunzip := fun _ => Ok "<svg/>" |}.

(** ** Header blocks and the headers to sign (lib/tools.js) *)

(** One parsed header: [{ key, casedKey, line }]; a row without a key
    leaves the two keys undefined. *)
Record header : Type := mkHeader {
  h_key : option string;
  h_casedKey : option string;
  h_line : string
}.

(** [s.replace(/[\r\n]+$/, '')]: the trailing run of carriage returns and
    line feeds goes. *)
Definition stripNewlinesL (l : list ascii) : list ascii :=
  rev (dropWhile isLineTerminator (rev l)).

(** Puts a character in front of the first row. *)
Definition consRow (c : ascii) (rows : list (list ascii)) : list (list ascii) :=
  match rows with
  | h :: t => (c :: h) :: t
  | [] => [[c]]
  end.

(** [s.split(/\r?\n/)]: the rows between line feeds, a carriage return
    just before a line feed being part of the separator. *)
Fixpoint splitLines (l : list ascii) : list (list ascii) :=
  match l with
  | [] => [[]]
  | c :: r =>
      if Ascii.eqb c LF then [] :: splitLines r
      else if Ascii.eqb c CR then
        match r with
        | d :: r' => if Ascii.eqb d LF then [] :: splitLines r' else consRow c (splitLines r)
        | [] => [[c]]
        end
      else consRow c (splitLines r)
  end.

(** [/^\s/.test(row)]. *)
Definition startsWithSpace (row : list ascii) : bool :=
  match row with
  | c :: _ => isSpace c
  | [] => false
  end.

(** The loop of [parseHeaders], which goes through the rows from the last
    to the second and joins a row that starts with white space to the row
    before it: the rows of each header, in order. *)
Fixpoint attachRows (rows : list (list ascii)) : list (list (list ascii)) :=
  match rows with
  | [] => []
  | row :: rest =>
      match attachRows rest with
      | next :: groups =>
          if startsWithSpace (default [] (head next)) then (row :: next) :: groups
          else [row] :: next :: groups
      | [] => [[row]]
      end
  end.

(** [rows.join('\r\n')] on rows of characters. *)
Definition joinRows (rows : list (list ascii)) : string :=
  joinWith CRLF (map string_of_list_ascii rows).

(** The callback of the last [map] of [parseHeaders]: the key is what
    stands before the first colon, if anything does. *)
Definition headerOfRows (rows : list (list ascii)) : header :=
  let row := joinRows rows in
  let key := takeWhile (fun c => negb (Ascii.eqb c ":"%char)) (chars row) in
  match key with
  | [] => mkHeader None None row
  | _ :: _ =>
      let casedKey := trim (str key) in
      mkHeader (Some (toLowerCase casedKey)) (Some casedKey) row
  end.

(** [parseHeaders(buf).parsed], for a buffer read as a binary string. *)
Definition parseHeaders (buf : string) : list header :=
  map headerOfRows (attachRows (splitLines (stripNewlinesL (chars buf)))).

Definition defaultDKIMFieldNames : string :=
  "From:Sender:Reply-To:Subject:Date:Message-ID:To:"
  +:+ "Cc:MIME-Version:Content-Type:Content-Transfer-Encoding:Content-ID:"
  +:+ "Content-Description:Resent-Date:Resent-From:Resent-Sender:"
  +:+ "Resent-To:Resent-Cc:Resent-Message-ID:In-Reply-To:References:"
  +:+ "List-Id:List-Help:List-Unsubscribe:List-Subscribe:List-Post:"
  +:+ "List-Owner:List-Archive:BIMI-Selector".

(** The field names of [getSigningHeaderLines]: the list (the default one
    when none is given) split at colons, each name trimmed and lowercased,
    the empty ones left out. *)
Definition fieldNamesOf (fieldNames : option string) : list string :=
  List.filter (fun key => negb (String.eqb key ""))
    (map (fun key => toLowerCase (str (trimL key)))
       (splitOn ":"%char (chars (default defaultDKIMFieldNames fieldNames)))).

Definition hasKey (fieldName : string) (h : header) : bool :=
  match h_key h with
  | Some key => String.eqb fieldName key
  | None => false
  end.

(** The inner loop of the verifying branch: the last header of the list
    with the given key, taken out of the list. *)
Fixpoint takeLast (fieldName : string) (parsedList : list header)
  : option (header * list header) :=
  match parsedList with
  | [] => None
  | h :: rest =>
      match takeLast fieldName rest with
      | Some (found, rest') => Some (found, h :: rest')
      | None => if hasKey fieldName h then Some (h, rest) else None
      end
  end.

(** The outer loop of the verifying branch. *)
Fixpoint selectForVerify (fieldNames : list string) (parsedList : list header) : list header :=
  match fieldNames with
  | [] => []
  | fieldName :: names =>
      match takeLast fieldName parsedList with
      | Some (found, rest) => found :: selectForVerify names rest
      | None => selectForVerify names parsedList
      end
  end.

(** The loop of the signing branch, from the last header to the first. *)
Definition selectForSign (fieldNames : list string) (parsedHeaders : list header) : list header :=
  List.filter (fun h => match h_key h with
                        | Some key => includes fieldNames key
                        | None => false
                        end)
    (rev parsedHeaders).

(** What [getSigningHeaderLines] returns: [{ keys, headers }]. *)
Record signingLines : Type := mkSigningLines {
  sl_keys : string;
  sl_headers : list header
}.

(** [getSigningHeaderLines(parsedHeaders, fieldNames, verify)]. *)
Definition getSigningHeaderLines (parsedHeaders : list header) (fieldNames : option string)
    (verify : bool) : signingLines :=
  let fieldNames := fieldNamesOf fieldNames in
  let signingList := if verify then selectForVerify fieldNames parsedHeaders
                     else selectForSign fieldNames parsedHeaders in
  mkSigningLines (joinWith ": " (map (fun entry => default "" (h_casedKey entry)) signingList))
    signingList.

(** ** Algorithm names (lib/tools.js) *)

Definition algoError (msg : string) : error :=
  mkError "Error" msg (Some "EINVALIDALGO") None None.

(** [validateAlgorithm(algorithm, strict)]: nothing is returned, every
    error leaves with the code EINVALIDALGO. The test of the format asks
    for two parts without a hyphen, neither of them empty, around one
    hyphen. *)
Definition validateAlgorithm (algorithm : option string) (strict : bool) : result unit :=
  let text := default "" algorithm in
  let wellFormed := match splitOn "-"%char (chars text) with
                    | [a; b] => negb (Nat.eqb (List.length a) 0) && negb (Nat.eqb (List.length b) 0)
                    | _ => false
                    end in
  if String.eqb text "" || negb wellFormed then Throw (algoError "Invalid algorithm format")
  else
    let parts := map string_of_list_ascii (splitOn "-"%char (chars (toLowerCase text))) in
    let signAlgo := parts !! 0 in
    let hashAlgo := parts !! 1 in
    if negb (match signAlgo with Some a => includes ["rsa"; "ed25519"] a | None => false end)
    then Throw (algoError ("Unknown signing algorithm: " +:+ toString (ostr signAlgo)))
    else if negb (match hashAlgo with
                  | Some a => includes ("sha256" :: if strict then [] else ["sha1"]) a
                  | None => false
                  end)
    then Throw (algoError ("Unknown hashing algorithm: " +:+ toString (ostr hashAlgo)))
    else Ok tt.

(** ** The resolver of the report command (lib/commands/report.js) *)

(** The names of the properties an object has from [Object.prototype]. *)
Definition objectPrototype : list string :=
  ["constructor"; "__defineGetter__"; "__defineSetter__"; "hasOwnProperty";
   "__lookupGetter__"; "__lookupSetter__"; "isPrototypeOf"; "propertyIsEnumerable";
   "toString"; "valueOf"; "__proto__"; "toLocaleString"].

Definition notFound : error := mkError "Error" "Error" (Some "ENOTFOUND") None None.

(** What one call of the resolver of [cmd] comes to. It returns an answer
    of the file; or it returns the value the entry of the name inherits
    under the record type asked for, which is a function of the runtime
    (for [__proto__] the prototype itself) and no answer; or it throws;
    or, for a name that is itself such an inherited property, its [match]
    is a property [rr] of that function: it throws what the read throws,
    the error of code ENOTFOUND if the value read is falsy, and returns
    the value otherwise. *)
Inductive cacheOutcome : Type :=
| Returns (found : answer)
| ReturnsInherited (property : string)
| Throws (e : error)
| ReadsInherited (name rr : string).

(** The resolver [cmd] makes of a file of cached answers, here a JSON
    object of objects whose values are answers: [dnsCache?.[name]?.[rr]],
    an own property before an inherited one, and the error of code
    ENOTFOUND for a [match] that is undefined or falsy (of the answers,
    the number zero). The line written to standard error in verbose mode
    is left out. *)
Definition cacheResolver (dnsCache : gmap string (gmap string answer)) (name : jsval)
    (rr : string) : cacheOutcome :=
  match dnsCache !! toString name with
  | Some entry =>
      match entry !! rr with
      | Some (Number 0) => Throws notFound
      | Some found => Returns found
      | None => if includes objectPrototype rr then ReturnsInherited rr else Throws notFound
      end
  | None =>
      if includes objectPrototype (toString name) then ReadsInherited (toString name) rr
      else Throws notFound
  end.

(** ** Vocabulary of the further properties *)

(** What makes a text a fixed point of the canonicalization. *)
Definition relaxedBody (b : list ascii) : Prop :=
  Forall (fun c => c <> CR /\ c <> LF) b
  /\ singleSpaced b /\ noLeadingSpace b /\ noTrailingSpace b
  /\ match splitFirst ":"%char b with
     | Some (k, v) => Forall (fun c => lowerChar c = c) k /\ noTrailingSpace k /\ noLeadingSpace v
     | None => True
     end.


(** The seven result words of SPF. *)
Definition spfWords : list string :=
  ["pass"; "softfail"; "fail"; "neutral"; "none"; "permerror"; "temperror"].

(** Every query the wrapped resolver has been sent is a query for a name
    that passes the resolver's domain test. *)
Definition onlyValidQueries (st : resolverState) : Prop :=
  Forall (fun q => isQuery q.1 q.2 = true /\ laxDomain (toString q.1) = true) (upstream st).

(** A Joi schema that refuses every domain, and an evaluator that fails
    with an error of its own. *)
Definition strictJoi : Joi :=
  {| domainSchema_validate := fun _ => Some (newError "must be a valid domain") |}.

Definition failingSpfVerify : SpfVerify :=
  {| spfVerify := fun _ _ => Fail (newError "socket hang up") |}.

(** A resolver that knows no name. *)
Definition notFoundResolver : resolver_t :=
  fun _ _ _ => Throw (mkError "Error" "queryTxt ENOTFOUND" (Some "ENOTFOUND") None None).

(** A counter that has reached the default limit. *)
Definition exhaustedState : resolverState := mkResolverState 50 [].

(** A file of cached answers with one name. *)
Definition sampleCache : gmap string (gmap string answer) :=
  {[ "example.com" := {[ "TXT" := Records [Txt ["v=spf1 -all"]] ]} ]}.

(** The resolver of the sample file at the type of the model's resolvers:
    what it returns where that is an answer, and what it throws. A query
    that reads an inherited property has no answer of this type and is
    given none. *)
Definition sampleCacheResolver : resolver_t :=
  fun _ name rr =>
    match cacheResolver sampleCache name rr with
    | Returns found => Ok found
    | Throws e => Throw e
    | ReturnsInherited _ | ReadsInherited _ _ => Throw notFound
    end.

(** Reading an escaped text back: a backslash stands for the character
    after it. *)
Fixpoint unescapeL (l : list ascii) : list ascii :=
  match l with
  | [] => []
  | c :: r =>
      if Ascii.eqb c "\"%char then
        match r with
        | d :: r' => d :: unescapeL r'
        | [] => [c]
        end
      else c :: unescapeL r
  end.

(** No character of the class [p] stands in the text without a backslash
    before it (and no backslash is left alone at the end). *)
Fixpoint allEscaped (p : ascii -> bool) (l : list ascii) : Prop :=
  match l with
  | [] => True
  | c :: r =>
      if Ascii.eqb c "\"%char then
        match r with
        | _ :: r' => allEscaped p r'
        | [] => False
        end
      else p c = false /\ allEscaped p r
  end.

(** A text without control characters, CR and LF among them. *)
Definition controlFree (s : string) : Prop :=
  Forall (fun c => isControl c = false) (chars s).

(** The text the two escaping functions work on: the value as a string,
    runs of control characters and of white space made one space each,
    trimmed. *)
Definition cleanValue (value : jsval) : list ascii :=
  trimL (collapseL (collapseRuns isControl false
                      (chars (toString (if truthy value then value else JStr ""))))).

(** A status with a comment and a property that try to start a new header
    line. *)
Definition hostileStatus : status :=
  mkStatus (JStr "pass")
    (JStr ("ok)" +:+ CRLF +:+ "Bcc: eve@example.org"))
    None
    (Some [("mailfrom", JStr ("a@example.com" +:+ CRLF +:+ "X-Spam: no"))])
    None None.

(** The header names of the three kinds of signature. *)
Definition headerKeyOf (type : string) : string :=
  if String.eqb type "DKIM" then "DKIM-Signature"
  else if String.eqb type "ARC" then "ARC-Message-Signature"
  else "ARC-Seal".

(** Values with a property called [key] that is [null], and values whose
    identity is a number. *)
Definition nullKeyValues : gmap string jsval :=
  <["key" := JNull]> sampleValues.

Definition numericIdentity : gmap string jsval :=
  <["i" := JNum 42]> sampleValues.

(** Every line feed of the text comes right after a carriage return;
    [afterCR] tells whether the character before the text is one. *)
Fixpoint noBareLF (afterCR : bool) (l : list ascii) : Prop :=
  match l with
  | [] => True
  | c :: r => (c = LF -> afterCR = true) /\ noBareLF (Ascii.eqb c CR) r
  end.

(** The two keys of a parsed header go together: the key is the cased key
    in lower case, and the cased key has no white space around it and no
    colon in it. *)
Definition wellKeyed (h : header) : Prop :=
  match h_key h, h_casedKey h with
  | Some key, Some casedKey =>
      key = toLowerCase casedKey /\ trim casedKey = casedKey /\ ~ In ":"%char (chars casedKey)
  | None, None => True
  | _, _ => False
  end.

(** The key of a header as a string, empty where there is none. *)
Definition keyName (h : header) : string := default "" (h_key h).

(** A header block with a folded header and a header that comes twice. *)
Definition sampleBlock : string :=
  "Received: from a" +:+ CRLF +:+ " by b" +:+ CRLF
  +:+ "From: Alice <alice@example.com>" +:+ CRLF
  +:+ "Subject: one" +:+ CRLF
  +:+ "Subject : two" +:+ CRLF
  +:+ "X-Mailer: none" +:+ CRLF +:+ CRLF.

(** * Properties *)

(** ** Strings as lists of characters *)

Lemma chars_app (a b : string) : chars (a +:+ b) = chars a ++ chars b.
Proof. induction a as [|c a IH]; simpl; [reflexivity | by rewrite IH]. Qed.

Lemma str_app (a b : list ascii) : str (a ++ b) = str a +:+ str b.
Proof. induction a as [|c a IH]; simpl; [reflexivity | by rewrite IH]. Qed.

(** ** Trimming and collapsing *)

Lemma dropWhile_app_stop {A} (p : A -> bool) a c b :
  p c = false -> dropWhile p (a ++ c :: b) = dropWhile p a ++ c :: b.
Proof.
  intros Hc. induction a as [|x a IH]; simpl.
  - by rewrite Hc.
  - destruct (p x); [exact IH | reflexivity].
Qed.

Lemma dropWhile_head (l : list ascii) : noLeadingSpace (dropWhile isSpace l).
Proof.
  induction l as [|c l IH]; simpl; [exact I|].
  destruct (isSpace c) eqn:E; [exact IH | exact E].
Qed.

Lemma dropWhile_id (l : list ascii) : noLeadingSpace l -> dropWhile isSpace l = l.
Proof. destruct l as [|c l]; simpl; [done | by intros ->]. Qed.

Lemma dropWhile_suffix {A} (p : A -> bool) l : exists t, l = t ++ dropWhile p l.
Proof.
  induction l as [|c l [t IH]]; simpl.
  - by exists [].
  - destruct (p c); [exists (c :: t); simpl; by rewrite <- IH | by exists []].
Qed.

Lemma rtrimL_prefix l : exists t, l = rtrimL l ++ t.
Proof.
  unfold rtrimL. destruct (dropWhile_suffix isSpace (rev l)) as [t Ht].
  exists (rev t). rewrite <- rev_app_distr, <- Ht. by rewrite rev_involutive.
Qed.

Lemma rtrimL_noTrailing l : noTrailingSpace (rtrimL l).
Proof. unfold noTrailingSpace, rtrimL. rewrite rev_involutive. apply dropWhile_head. Qed.

Lemma rtrimL_app_stop a c b :
  isSpace c = false -> rtrimL (a ++ c :: b) = a ++ c :: rtrimL b.
Proof.
  intros Hc. unfold rtrimL. rewrite rev_app_distr. simpl. rewrite <- app_assoc. simpl.
  rewrite dropWhile_app_stop by exact Hc.
  rewrite rev_app_distr. simpl. rewrite rev_involutive. by rewrite <- app_assoc.
Qed.

Lemma noTrailingSpace_dropWhile l : noTrailingSpace l -> noTrailingSpace (dropWhile isSpace l).
Proof.
  induction l as [|c l IH]; simpl; [done|].
  destruct (isSpace c) eqn:E; [|done].
  intros H. apply IH. unfold noTrailingSpace in *. simpl in H.
  destruct (rev l) as [|x r] eqn:Er; simpl in *; [exact I | exact H].
Qed.

Lemma trimL_noLeading l : noLeadingSpace (trimL l).
Proof. apply dropWhile_head. Qed.

Lemma trimL_noTrailing l : noTrailingSpace (trimL l).
Proof. apply noTrailingSpace_dropWhile, rtrimL_noTrailing. Qed.

Lemma collapseRuns_app_stop p b a c r :
  p c = false ->
  collapseRuns p b (a ++ c :: r) = collapseRuns p b a ++ c :: collapseRuns p false r.
Proof.
  intros Hc. revert b. induction a as [|x a IH]; intros b; simpl.
  - by rewrite Hc.
  - destruct (p x); [destruct b|]; simpl; by rewrite IH.
Qed.

Lemma collapseRuns_noLeading b l :
  (b = true \/ noLeadingSpace l) -> b = true -> noLeadingSpace (collapseRuns isSpace b l).
Proof.
  intros _ ->. induction l as [|c l IH]; simpl; [exact I|].
  destruct (isSpace c) eqn:E; [exact IH | exact E].
Qed.

Lemma collapseL_noLeading l : noLeadingSpace l -> noLeadingSpace (collapseL l).
Proof.
  unfold collapseL. destruct l as [|c l]; simpl; [done|]. intros E. rewrite E. exact E.
Qed.

Lemma collapseRuns_singleSpaced b l : singleSpaced (collapseRuns isSpace b l).
Proof.
  revert b. induction l as [|c l IH]; intros b; simpl; [exact I|].
  destruct (isSpace c) eqn:E.
  - destruct b; [apply IH|]. simpl. split; [|apply IH].
    intros _. split; [reflexivity|]. by apply collapseRuns_noLeading; [left|].
  - simpl. split; [|apply IH]. rewrite E. discriminate.
Qed.

Lemma collapseRuns_last b l :
  noTrailingSpace l -> noTrailingSpace (collapseRuns isSpace b l).
Proof.
  revert b. induction l as [|c l IH] using rev_ind; intros b H; [exact I|].
  unfold noTrailingSpace in H. rewrite rev_app_distr in H. simpl in H.
  rewrite collapseRuns_app_stop by exact H. simpl.
  unfold noTrailingSpace. rewrite rev_app_distr. simpl. exact H.
Qed.

Lemma singleSpaced_app_l a b : singleSpaced (a ++ b) -> singleSpaced a.
Proof.
  induction a as [|c a IH]; simpl; [done|].
  intros [H1 H2]. split; [|by apply IH].
  intros Hc. destruct (H1 Hc) as [Hsp Hn]. split; [exact Hsp|].
  destruct a as [|x a']; [exact I | exact Hn].
Qed.

Lemma singleSpaced_dropWhile l : singleSpaced l -> singleSpaced (dropWhile isSpace l).
Proof.
  induction l as [|c l IH]; simpl; [done|].
  intros [H1 H2]. destruct (isSpace c) eqn:E; [by apply IH|].
  simpl. split; [rewrite E; discriminate | exact H2].
Qed.

Lemma trimL_singleSpaced l : singleSpaced l -> singleSpaced (trimL l).
Proof.
  intros H. apply singleSpaced_dropWhile.
  destruct (rtrimL_prefix l) as [t Ht]. rewrite Ht in H. by apply singleSpaced_app_l in H.
Qed.

Lemma singleSpaced_no_newline l :
  singleSpaced l -> Forall (fun c => c <> CR /\ c <> LF) l.
Proof.
  induction l as [|c l IH]; simpl; [constructor|].
  intros [H1 H2]. constructor; [|by apply IH].
  split; intros ->; destruct (H1 eq_refl) as [E _]; discriminate E.
Qed.

Lemma lowerChar_idem c : lowerChar (lowerChar c) = lowerChar c.
Proof. destruct c as [[] [] [] [] [] [] [] []]; reflexivity. Qed.

Lemma dropWhile_Forall {A} (P : A -> Prop) p l : Forall P l -> Forall P (dropWhile p l).
Proof.
  induction 1 as [|c l Hc Hl IH]; simpl; [constructor|].
  destruct (p c); [exact IH | by constructor].
Qed.

Lemma trimL_Forall (P : ascii -> Prop) l : Forall P l -> Forall P (trimL l).
Proof.
  intros H. apply dropWhile_Forall. unfold rtrimL.
  apply Forall_rev, dropWhile_Forall, Forall_rev, H.
Qed.

Lemma collapseRuns_Forall (P : ascii -> Prop) p b l :
  P SP -> Forall P l -> Forall P (collapseRuns p b l).
Proof.
  intros HP H. revert b. induction H as [|c l Hc Hl IH]; intros b; simpl; [constructor|].
  destruct (p c); [destruct b|]; auto.
Qed.

Lemma splitFirst_Some x l k v :
  splitFirst x l = Some (k, v) -> l = k ++ x :: v /\ ~ In x k.
Proof.
  revert k v. induction l as [|c l IH]; intros k v; simpl; [discriminate|].
  destruct (Ascii.eqb c x) eqn:E.
  - apply Ascii.eqb_eq in E. subst c. intros [= <- <-]. split; [reflexivity | intros []].
  - destruct (splitFirst x l) as [[k' v']|]; [|discriminate].
    intros [= <- <-]. destruct (IH k' v' eq_refl) as [-> Hn]. split; [reflexivity|].
    intros [->|Hin]; [by rewrite Ascii.eqb_refl in E | by apply Hn].
Qed.

(** The canonical form of a line: the body before the suffix. *)
Lemma relaxed_body_key (l k v : list ascii) :
  splitFirst ":"%char l = Some (k, v) ->
  trimL (collapseL (relaxKeyL l))
  = collapseL (trimL (map lowerChar k)) ++ ":"%char :: rtrimL (collapseL (ltrimL v)).
Proof.
  intros Hs. unfold relaxKeyL. rewrite Hs. unfold collapseL at 1.
  rewrite collapseRuns_app_stop by reflexivity.
  unfold trimL at 1. rewrite rtrimL_app_stop by reflexivity.
  unfold ltrimL at 1. rewrite dropWhile_app_stop by reflexivity.
  f_equal. apply dropWhile_id. apply collapseL_noLeading, trimL_noLeading.
Qed.

Lemma rtrimL_noLeading l : noLeadingSpace l -> noLeadingSpace (rtrimL l).
Proof.
  intros H. destruct (rtrimL_prefix l) as [t Ht].
  destruct (rtrimL l) as [|c r]; [exact I|]. rewrite Ht in H. exact H.
Qed.

Lemma lowerChar_colon c : lowerChar c = ":"%char -> c = ":"%char.
Proof. destruct c as [[] [] [] [] [] [] [] []]; vm_compute; congruence. Qed.

Lemma relaxed_key_no_colon k :
  ~ In ":"%char k -> ~ In ":"%char (collapseL (trimL (map lowerChar k))).
Proof.
  intros Hk Hin.
  assert (Forall (fun c => c <> ":"%char) (collapseL (trimL (map lowerChar k)))) as HF.
  { apply collapseRuns_Forall; [discriminate|]. apply trimL_Forall.
    apply List.Forall_forall. intros c Hc. apply List.in_map_iff in Hc as (c0 & <- & Hc0).
    intros E. apply lowerChar_colon in E. by subst. }
  rewrite List.Forall_forall in HF. by apply (HF _ Hin).
Qed.

(** Unfolding deletes line feeds and carriage returns only, and leaves no
    line feed. *)
Lemma unfoldL_keeps (l : list ascii) :
  filter (fun c => isLineTerminator c = false) (unfoldL l)
  = filter (fun c => isLineTerminator c = false) l
  /\ Forall (fun c => c <> LF) (unfoldL l).
Proof.
  remember (List.length l) as n eqn:Hn. revert l Hn.
  induction n as [n IHn] using lt_wf_ind. intros l Hn.
  assert (forall r, List.length r < List.length l ->
            filter (fun c => isLineTerminator c = false) (unfoldL r)
            = filter (fun c => isLineTerminator c = false) r
            /\ Forall (fun c => c <> LF) (unfoldL r)) as IH.
  { intros r Hr. apply (IHn (List.length r)); [lia | reflexivity]. }
  clear IHn Hn.
  destruct l as [|c r]; [split; [reflexivity | constructor]|].
  simpl. destruct (Ascii.eqb c LF) eqn:E1.
  - apply Ascii.eqb_eq in E1. subst c. destruct (IH r) as [H1 H2]; [simpl; lia|].
    split; [|exact H2]. rewrite filter_cons_False by (vm_compute; congruence). exact H1.
  - destruct (Ascii.eqb c CR) eqn:E2.
    + apply Ascii.eqb_eq in E2. subst c. destruct r as [|d r'].
      * split; [reflexivity | repeat constructor; discriminate].
      * destruct (Ascii.eqb d LF) eqn:E3.
        -- apply Ascii.eqb_eq in E3. subst d. destruct (IH r') as [H1 H2]; [simpl; lia|].
           split; [|exact H2].
           rewrite !filter_cons_False by (vm_compute; congruence). exact H1.
        -- destruct (IH (d :: r')) as [H1 H2]; [simpl; lia|].
           split; [|constructor; [discriminate | exact H2]].
           rewrite (filter_cons_False _ CR (unfoldL _)) by (vm_compute; congruence).
           rewrite (filter_cons_False _ CR (d :: _)) by (vm_compute; congruence). exact H1.
    + destruct (IH r) as [H1 H2]; [simpl; lia|].
      split; [|constructor; [intros ->; by rewrite Ascii.eqb_refl in E1 | exact H2]].
      rewrite !filter_cons. rewrite H1. reflexivity.
Qed.

Lemma chars_str (l : list ascii) : chars (str l) = l.
Proof. apply list_ascii_of_string_of_list_ascii. Qed.

Lemma str_chars (s : string) : str (chars s) = s.
Proof. apply string_of_list_ascii_of_string. Qed.

(** Unfolding a text made of rows with CRLF between them puts the rows
    one after the other. *)
Lemma unfoldL_app_crlf (a r : list ascii) :
  Forall (fun c => c <> CR /\ c <> LF) a -> unfoldL (a ++ CR :: LF :: r) = a ++ unfoldL r.
Proof.
  induction 1 as [|c a [Hc1 Hc2] _ IH]; [reflexivity|].
  cbn [app unfoldL].
  destruct (Ascii.eqb_spec c LF) as [|_]; [done|].
  destruct (Ascii.eqb_spec c CR) as [|_]; [done|]. by rewrite IH.
Qed.

Lemma unfoldL_plain (a : list ascii) :
  Forall (fun c => c <> CR /\ c <> LF) a -> unfoldL a = a.
Proof.
  induction 1 as [|c a [Hc1 Hc2] _ IH]; [reflexivity|].
  cbn [unfoldL].
  destruct (Ascii.eqb_spec c LF) as [|_]; [done|].
  destruct (Ascii.eqb_spec c CR) as [|_]; [done|]. by rewrite IH.
Qed.

Lemma unfoldL_rows (rows : list (list ascii)) :
  Forall (Forall (fun c => c <> CR /\ c <> LF)) rows ->
  unfoldL (chars (joinRows rows)) = concat rows.
Proof.
  induction 1 as [|row rows Hrow Hrows IH]; [reflexivity|].
  destruct rows as [|next rows].
  - unfold joinRows. simpl. rewrite chars_str, app_nil_r. by apply unfoldL_plain.
  - change (joinRows (row :: next :: rows))
      with (str row +:+ CRLF +:+ joinRows (next :: rows)).
    rewrite chars_app, chars_str.
    change (chars (CRLF +:+ joinRows (next :: rows)))
      with (CR :: LF :: chars (joinRows (next :: rows))).
    rewrite unfoldL_app_crlf by exact Hrow. by rewrite IH.
Qed.

(** ** Words *)

Lemma wordsFrom_collapseRuns b word l :
  (b = true -> word = []) ->
  wordsFrom word (collapseRuns isSpace b l) = wordsFrom word l.
Proof.
  revert b word. induction l as [|c l IH]; intros b word Hb; [reflexivity|].
  cbn [collapseRuns wordsFrom]. destruct (isSpace c) eqn:E.
  - destruct b.
    + rewrite (Hb eq_refl). by apply IH.
    + cbn [wordsFrom]. change (isSpace SP) with true. cbv iota.
      destruct word; by rewrite IH.
  - cbn [wordsFrom]. rewrite E. apply IH. discriminate.
Qed.

Lemma words_dropWhile l : words (dropWhile isSpace l) = words l.
Proof.
  unfold words. induction l as [|c l IH]; [reflexivity|]. simpl.
  destruct (isSpace c) eqn:E; [exact IH|]. simpl. by rewrite E.
Qed.

Lemma wordsFrom_spaces word t :
  Forall (fun c => isSpace c = true) t -> wordsFrom word t = wordsFrom word [].
Proof.
  intros Ht. revert word. induction Ht as [|c t Hc _ IH]; intros word; [reflexivity|].
  cbn [wordsFrom]. rewrite Hc. destruct word; rewrite IH; reflexivity.
Qed.

Lemma wordsFrom_app_spaces word a t :
  Forall (fun c => isSpace c = true) t -> wordsFrom word (a ++ t) = wordsFrom word a.
Proof.
  intros Ht. revert word. induction a as [|c a IH]; intros word.
  - by apply wordsFrom_spaces.
  - cbn [app wordsFrom]. destruct (isSpace c); [destruct word|]; by rewrite IH.
Qed.

Lemma rtrimL_ending l :
  exists t, l = rtrimL l ++ t /\ Forall (fun c => isSpace c = true) t.
Proof.
  assert (forall r : list ascii,
             exists t, r = t ++ dropWhile isSpace r /\ Forall (fun c => isSpace c = true) t)
    as Hsplit.
  { induction r as [|c r (t & Hr & Ht)]; [by exists []|]. simpl.
    destruct (isSpace c) eqn:E; [|by exists []].
    exists (c :: t). split; [simpl; by rewrite <- Hr | by constructor]. }
  destruct (Hsplit (rev l)) as (t & Hr & Ht).
  exists (rev t). split; [|by apply List.Forall_rev].
  unfold rtrimL. rewrite <- rev_app_distr, <- Hr. symmetry. apply rev_involutive.
Qed.

Lemma words_rtrimL l : words (rtrimL l) = words l.
Proof.
  destruct (rtrimL_ending l) as (t & Hl & Ht). rewrite Hl at 2.
  unfold words. by rewrite wordsFrom_app_spaces.
Qed.

Lemma words_trimL l : words (trimL l) = words l.
Proof. unfold trimL, ltrimL. by rewrite words_dropWhile, words_rtrimL. Qed.

Lemma words_collapseL l : words (collapseL l) = words l.
Proof. unfold words, collapseL. apply wordsFrom_collapseRuns. discriminate. Qed.

Lemma noTrailingSpace_tail c r : noTrailingSpace (c :: r) -> r <> [] -> noTrailingSpace r.
Proof.
  unfold noTrailingSpace. simpl. intros H Hr.
  destruct (rev r) as [|d t] eqn:E; [|exact H].
  apply (f_equal (@rev ascii)) in E. rewrite rev_involutive in E. by subst.
Qed.

(** A text in which white space is single spaces between words is its
    words with one space between them. *)
Lemma unwords_wordsFrom word b :
  Forall (fun c => isSpace c = false) word ->
  singleSpaced b -> noTrailingSpace b -> (word = [] -> noLeadingSpace b) ->
  unwords (wordsFrom word b) = word ++ b.
Proof.
  revert word. induction b as [|c r IH]; intros word Hw Hs Ht Hl.
  - simpl. rewrite app_nil_r. by destruct word.
  - destruct Hs as [Hc Hr]. cbn [wordsFrom]. destruct (isSpace c) eqn:E.
    + destruct (Hc eq_refl) as [-> Hnl].
      destruct word as [|x word]; [by specialize (Hl eq_refl)|].
      destruct r as [|d r]; [discriminate Ht|].
      assert (noTrailingSpace (d :: r)) as Htr by (by apply (noTrailingSpace_tail SP)).
      specialize (IH [] (List.Forall_nil _) Hr Htr (fun _ => Hnl)).
      cbn [app] in IH. cbn [unwords].
      destruct (wordsFrom [] (d :: r)) as [|w ws]; [discriminate IH|].
      by rewrite IH.
    + rewrite IH.
      * by rewrite <- app_assoc.
      * apply List.Forall_app. split; [exact Hw | by repeat constructor].
      * exact Hr.
      * destruct r as [|d r]; [exact I | by apply (noTrailingSpace_tail c)].
      * intros Hnil. by destruct word.
Qed.

Lemma unwords_words b :
  singleSpaced b -> noLeadingSpace b -> noTrailingSpace b -> unwords (words b) = b.
Proof. intros Hs Hl Ht. by apply (unwords_wordsFrom [] b). Qed.

(** C8. Relaxed header canonicalization, [formatRelaxedLine(line, '\r\n')]:
    the outcome is a body followed by CRLF; the body holds no CR and no LF,
    every white space character in it is one SP between two other
    characters, and it neither starts nor ends with white space; and when
    the unfolded line has a colon, the body is the key (the text before the
    first colon, in lower case, trimmed), the colon with no white space on
    either side of it, and the value. Key and value are the words of the
    text before and after the colon, with one SP between them, and without
    a colon the body is the words of the unfolded line. Unfolding deletes
    carriage returns and line feeds only and leaves no line feed; for a
    line made of rows with CRLF between them, the unfolded line is the
    rows one after the other. *)
Theorem formatRelaxedLine_canonical (line : string) :
  exists body : list ascii,
    formatRelaxedLine line (Some CRLF) = str body +:+ CRLF
    /\ Forall (fun c => c <> CR /\ c <> LF) body
    /\ singleSpaced body
    /\ noLeadingSpace body /\ noTrailingSpace body
    /\ match splitFirst ":"%char (unfoldL (chars line)) with
       | Some (k, v) =>
           let key := collapseL (trimL (map lowerChar k)) in
           let value := rtrimL (collapseL (ltrimL v)) in
           body = key ++ ":"%char :: value
           /\ Forall (fun c => lowerChar c = c) key
           /\ ~ In ":"%char key
           /\ noTrailingSpace key /\ noLeadingSpace value
           /\ key = unwords (words (map lowerChar k))
           /\ value = unwords (words v)
       | None =>
           body = trimL (collapseL (unfoldL (chars line)))
           /\ body = unwords (words (unfoldL (chars line)))
       end
    /\ filter (fun c => isLineTerminator c = false) (unfoldL (chars line))
       = filter (fun c => isLineTerminator c = false) (chars line)
    /\ Forall (fun c => c <> LF) (unfoldL (chars line))
    /\ forall rows : list (list ascii),
         Forall (Forall (fun c => c <> CR /\ c <> LF)) rows ->
         line = joinRows rows ->
         unfoldL (chars line) = concat rows.
Proof.
  exists (trimL (collapseL (relaxKeyL (unfoldL (chars line))))).
  assert (singleSpaced (trimL (collapseL (relaxKeyL (unfoldL (chars line)))))) as Hss
    by apply trimL_singleSpaced, collapseRuns_singleSpaced.
  split; [reflexivity|].
  split; [by apply singleSpaced_no_newline|].
  split; [exact Hss|].
  split; [apply trimL_noLeading|].
  split; [apply trimL_noTrailing|].
  split.
  { pose proof (trimL_noLeading (collapseL (relaxKeyL (unfoldL (chars line))))) as Hl.
    pose proof (trimL_noTrailing (collapseL (relaxKeyL (unfoldL (chars line))))) as Ht.
    destruct (splitFirst ":"%char (unfoldL (chars line))) as [[k v]|] eqn:Hs.
    - cbv zeta. rewrite (relaxed_body_key _ _ _ Hs) in Hss, Hl, Ht |- *.
      split; [reflexivity|].
      split.
      { apply collapseRuns_Forall; [reflexivity|]. apply trimL_Forall.
        apply List.Forall_forall. intros c Hc. apply List.in_map_iff in Hc as (c0 & <- & _).
        apply lowerChar_idem. }
      split; [apply relaxed_key_no_colon; by apply (splitFirst_Some _ _ _ _ Hs)|].
      split; [apply collapseRuns_last, trimL_noTrailing|].
      split; [apply rtrimL_noLeading, collapseL_noLeading, dropWhile_head|].
      split.
      + rewrite <- (words_trimL (map lowerChar k)), <- (words_collapseL (trimL _)).
        symmetry. apply unwords_words.
        * apply collapseRuns_singleSpaced.
        * apply collapseL_noLeading, trimL_noLeading.
        * apply collapseRuns_last, trimL_noTrailing.
      + rewrite <- (words_dropWhile v), <- (words_collapseL (dropWhile _ _)),
          <- (words_rtrimL (collapseL _)).
        symmetry. apply unwords_words.
        * assert (singleSpaced (collapseL (dropWhile isSpace v))) as Hv
            by apply collapseRuns_singleSpaced.
          destruct (rtrimL_prefix (collapseL (dropWhile isSpace v))) as [t Hp].
          rewrite Hp in Hv. by apply singleSpaced_app_l in Hv.
        * apply rtrimL_noLeading, collapseL_noLeading, dropWhile_head.
        * apply rtrimL_noTrailing.
    - unfold relaxKeyL in *. rewrite Hs in *. split; [reflexivity|].
      rewrite <- (words_collapseL (unfoldL _)), <- (words_trimL (collapseL _)).
      symmetry. by apply unwords_words. }
  split; [apply unfoldL_keeps|].
  split; [apply unfoldL_keeps|].
  intros rows Hrows ->. by apply unfoldL_rows.
Qed.

(** A header folded over two rows, with white space around the colon, at
    the fold and at the end. *)
Lemma formatRelaxedLine_canonical_witness :
  formatRelaxedLine ("SubJect :  Hello" +:+ CRLF +:+ "   wide  World  ") (Some CRLF)
  = "subject:Hello wide World" +:+ CRLF
  /\ unfoldL (chars ("SubJect :  Hello" +:+ CRLF +:+ "   wide  World  "))
     = chars "SubJect :  Hello   wide  World  ".
Proof.
  destruct (formatRelaxedLine_canonical ("SubJect :  Hello" +:+ CRLF +:+ "   wide  World  "))
    as (body & Hline & _ & _ & _ & _ & Hbody & _ & _ & Hrows).
  assert (unfoldL (chars ("SubJect :  Hello" +:+ CRLF +:+ "   wide  World  "))
          = concat [chars "SubJect :  Hello"; chars "   wide  World  "]) as Hu.
  { apply Hrows; [|reflexivity].
    repeat first [apply List.Forall_nil | apply List.Forall_cons | split | discriminate]. }
  split; [|by rewrite Hu].
  rewrite Hu in Hbody.
  change (splitFirst _ _)
    with (Some (chars "SubJect ", chars "  Hello   wide  World  ")) in Hbody.
  cbv zeta in Hbody. destruct Hbody as (Hb & _ & _ & _ & _ & Hk & Hv).
  rewrite Hline, Hb, Hk, Hv. vm_compute. reflexivity.
Defined.

Example formatRelaxedLine_folded :
  formatRelaxedLine ("SubJect :  Hello" +:+ CRLF +:+ "   wide  World  " +:+ CRLF) (Some CRLF)
  = "subject:Hello wide World" +:+ CRLF.
Proof. vm_compute. reflexivity. Qed.


(** ** The SPF lookup budget *)

Section LookupBudget.
Context (resolver : resolver_t) (maxResolveCount : option Z).

Local Abbreviation limit := (effectiveLimit maxResolveCount).
Local Abbreviation lr := (limitedResolver resolver maxResolveCount).

Lemma bookkeeping_keeps_state d t st :
  isQuery d t = false -> fst (lr d t st) = st /\ exists n, snd (lr d t st) = Ok (Number n).
Proof.
  unfold isQuery, limitedResolver. intros H.
  destruct (truthy d); simpl in *; [discriminate|].
  destruct (String.eqb t "resolveCount"); simpl in *; [eauto|].
  destruct (String.eqb t "resolveLimit"); simpl in *; [eauto | discriminate].
Qed.

Lemma query_step d t st :
  isQuery d t = true ->
  resolveCount (fst (lr d t st)) = (resolveCount st + 1)%Z
  /\ ((limit < resolveCount st + 1)%Z ->
      lr d t st = (mkResolverState (resolveCount st + 1) (upstream st), Throw tooManyRequests))
  /\ (upstream (fst (lr d t st)) = upstream st
      \/ (resolveCount st + 1 <= limit)%Z
         /\ upstream (fst (lr d t st)) = upstream st ++ [(d, t)]).
Proof.
  unfold isQuery, limitedResolver. intros H.
  assert ((negb (truthy d) && String.eqb t "resolveCount") = false
          /\ (negb (truthy d) && String.eqb t "resolveLimit") = false) as [-> ->].
  { destruct (truthy d); simpl in *; [done|].
    destruct (String.eqb t "resolveCount"), (String.eqb t "resolveLimit"); done. }
  cbv zeta. simpl resolveCount. simpl upstream.
  destruct (Z.ltb_spec limit (resolveCount st + 1)) as [Hlt|Hge].
  - split; [reflexivity|]. split; [reflexivity|]. by left.
  - destruct (laxDomain (toString d)); simpl.
    + split; [|split; [lia|]].
      * destruct (resolver (upstream st) d t) as [a|e]; [reflexivity|].
        destruct (code e) as [c|]; [|reflexivity].
        destruct (String.eqb c "ENOTFOUND" || String.eqb c "ENODATA"); [reflexivity|].
        destruct (String.eqb c "ETIMEOUT"); reflexivity.
      * right. split; [exact Hge|].
        destruct (resolver (upstream st) d t) as [a|e]; [reflexivity|].
        destruct (code e) as [c|]; [|reflexivity].
        destruct (String.eqb c "ENOTFOUND" || String.eqb c "ENODATA"); [reflexivity|].
        destruct (String.eqb c "ETIMEOUT"); reflexivity.
    + split; [reflexivity|]. split; [lia|]. by left.
Qed.

Lemma step_withinBudget d t st :
  withinBudget limit st -> withinBudget limit (fst (lr d t st)).
Proof.
  intros (H0 & H1 & H2). destruct (isQuery d t) eqn:Hq.
  - destruct (query_step d t st Hq) as (Hc & _ & Hu). unfold withinBudget. rewrite Hc.
    destruct Hu as [-> | [Hle ->]]; [lia|]. rewrite length_app. simpl. lia.
  - by destruct (bookkeeping_keeps_state d t st Hq) as [-> _].
Qed.

Lemma run_withinBudget p st :
  withinBudget limit st -> withinBudget limit (fst (run lr p st)).
Proof.
  revert st. induction p as [r|e|d t k IH]; intros st Hst; simpl; [done..|].
  pose proof (step_withinBudget d t st Hst) as Hst'.
  destruct (lr d t st) as [st' a]. by apply IH.
Qed.

End LookupBudget.

Lemma initial_withinBudget limit : withinBudget limit initialState.
Proof. unfold withinBudget. simpl. lia. Qed.

Section Verify.
Context `{Libmime, Os, Joi, Dns, SpfVerify}.

Lemma verify_state (opts : verifyOpts) :
  fst (verify opts)
  = match domainSchema_validate (senderDomain (normalSender (sender opts) (helo opts))) with
    | Some _ => initialState
    | None => fst (run (verifyResolverOf opts) (evaluationOf opts) initialState)
    end.
Proof.
  unfold verify, evaluationOf, verifyResolverOf.
  destruct (domainSchema_validate _) as [err|]; [reflexivity|].
  destruct (run _ _ initialState) as [st [[r|]|e]]; reflexivity.
Qed.

End Verify.





(** ** The Received-SPF header *)

Lemma append_nonempty (a b : string) : b <> "" -> String.eqb (a +:+ b) "" = false.
Proof.
  intros Hb. apply String.eqb_neq. intros E.
  destruct a; simpl in E; [by apply Hb | discriminate].
Qed.

Lemma verdict_comment mta sender domain ip r :
  truthy (JStr (snd (verdict mta sender domain ip r))) = true.
Proof.
  unfold verdict, truthy.
  repeat match goal with
         | |- context [match ?x with _ => _ end] => destruct x
         end;
    simpl snd; rewrite append_nonempty; try reflexivity; try discriminate;
    destruct sender; discriminate.
Qed.

(** The header [verify] makes of an outcome. *)
Lemma verifyResponse_header `{Libmime} mta sender domain ip helo result :
  let resp := verifyResponse mta sender domain ip helo result in
  r_header resp
  = Some (foldLines ("Received-SPF: " +:+ toString (st_result (r_status resp))
                     +:+ (" (" +:+ escapeCommentValue (st_comment (r_status resp)) +:+ ")")
                     +:+ " client-ip=" +:+ toString (r_client_ip resp) +:+ ";")
            (Some 160))
  /\ r_client_ip resp = ip.
Proof.
  unfold verifyResponse.
  pose proof (verdict_comment mta sender domain ip
                (default (mkSpfResult (Some "?") None None None None) result)) as Hc.
  destruct (verdict mta sender domain ip _) as [word comment].
  cbn [r_header r_status st_result st_comment r_client_ip].
  unfold formatHeaders, receivedSpfLine. cbn [r_status st_result st_comment r_client_ip].
  cbn [snd] in Hc. rewrite Hc. split; reflexivity.
Qed.

(** [verify] always returns. *)
Lemma verify_returns `{Libmime, Os, Joi, Dns, SpfVerify} (opts : verifyOpts) :
  exists result,
    snd (verify opts)
    = Ok (verifyResponse (orElse (mta opts) hostname) (normalSender (sender opts) (helo opts))
            (senderDomain (normalSender (sender opts) (helo opts))) (normalIp (ip opts))
            (helo opts) result).
Proof.
  unfold verify.
  destruct (domainSchema_validate _) as [err|]; [eexists; reflexivity|].
  destruct (run _ _ initialState) as [st [[r|]|e]]; eexists; reflexivity.
Qed.

Lemma escapeChars_Forall (P : ascii -> Prop) p l :
  P "\"%char -> Forall P l -> Forall P (escapeChars p l).
Proof.
  intros HP. induction 1 as [|c l Hc _ IH]; [constructor|].
  unfold escapeChars in *. cbn [flat_map]. destruct (p c); cbn; auto.
Qed.

Lemma collapseRuns_removes (p : ascii -> bool) b l :
  p SP = false -> Forall (fun c => p c = false) (collapseRuns p b l).
Proof.
  intros HP. revert b. induction l as [|c l IH]; intros b; simpl; [constructor|].
  destruct (p c) eqn:E; [destruct b|]; auto.
Qed.

Lemma cleanValue_shape (value : jsval) :
  Forall (fun c => isControl c = false) (cleanValue value)
  /\ singleSpaced (cleanValue value)
  /\ noLeadingSpace (cleanValue value) /\ noTrailingSpace (cleanValue value).
Proof.
  unfold cleanValue. split; [|split; [|split]].
  - apply trimL_Forall, collapseRuns_Forall; [reflexivity|].
    by apply collapseRuns_removes.
  - apply trimL_singleSpaced, collapseRuns_singleSpaced.
  - apply trimL_noLeading.
  - apply trimL_noTrailing.
Qed.

Lemma escapeCommentValue_controlFree v : controlFree (escapeCommentValue v).
Proof.
  unfold controlFree, escapeCommentValue. fold (cleanValue v). rewrite chars_str.
  apply escapeChars_Forall; [reflexivity | apply cleanValue_shape].
Qed.

Lemma controlFree_app a b : controlFree a -> controlFree b -> controlFree (a +:+ b).
Proof. unfold controlFree. rewrite chars_app. intros. by apply List.Forall_app. Qed.

Lemma verdict_word mta sender domain ip r : In (fst (verdict mta sender domain ip r)) spfWords.
Proof.
  unfold verdict, spfWords.
  repeat match goal with
         | |- context [match ?x with _ => _ end] => destruct x
         end; simpl; tauto.
Qed.

Lemma takeWhile_Forall {A} (p : A -> bool) l : Forall (fun c => p c = true) (takeWhile p l).
Proof.
  induction l as [|c l IH]; simpl; [constructor|].
  destruct (p c) eqn:E; by constructor.
Qed.

Lemma normalSender_nonempty (sender helo : option string) :
  String.eqb (normalSender sender helo) "" = false.
Proof.
  unfold normalSender.
  destruct (indexOf "@"%char (chars (orElse sender _))) as [[|n]|] eqn:E; [reflexivity| |reflexivity].
  destruct (orElse sender _); [discriminate | reflexivity].
Qed.

Lemma afterLast_Forall (P : ascii -> Prop) x l : Forall P l -> Forall P (afterLast x l).
Proof.
  intros Hl. unfold afterLast. apply List.Forall_rev.
  apply List.Forall_rev in Hl. induction Hl as [|c r Hc _ IH]; simpl; [constructor|].
  destruct (negb (Ascii.eqb c x)); by constructor.
Qed.

(** The client address [verify] reports holds no control character when
    the address it was given holds none. *)
Lemma normalIp_controlFree (ip : option string) :
  (forall s, ip = Some s -> controlFree s) -> controlFree (toString (normalIp ip)).
Proof.
  intros Hip. unfold normalIp, mappingMatch.
  destruct (existsb _ (chars (orElse ip ""))) eqn:Hex.
  - destruct (negb _ && _ && _).
    + unfold controlFree. simpl toString. rewrite chars_str. apply afterLast_Forall.
      destruct ip as [s|]; [|constructor]. unfold orElse.
      destruct (String.eqb s ""); [constructor | by apply Hip].
    + destruct ip as [s|]; [by apply Hip | by repeat constructor].
  - destruct ip as [s|]; [by apply Hip | by repeat constructor].
Qed.

(** What the response says of the sender, the HELO name and the matching
    record. *)
Lemma verifyResponse_properties `{Libmime} mta sender domain ip helo result :
  let outcome := default (mkSpfResult (Some "?") None None None None) result in
  let resp := verifyResponse mta sender domain ip helo result in
  r_envelope_from resp = (if String.eqb sender "" then None else Some sender)
  /\ r_helo resp = match helo with
                   | Some h => if String.eqb h "" then None else Some h
                   | None => None
                   end
  /\ r_rr resp = match spf_rr outcome with
                 | Some x => if String.eqb x "" then None else Some x
                 | None => None
                 end
  /\ st_result (r_status resp) = JStr (fst (verdict mta sender domain ip outcome)).
Proof.
  unfold verifyResponse. cbv zeta.
  destruct (verdict mta sender domain ip _) as [word comment]. repeat split.
Qed.

(** C6, as amended. The Received-SPF header [verify] emits is the text
    Received-SPF, the status, the escaped comment in brackets, and
    [client-ip=] with the client address and a semicolon, folded by
    libmime at 160 columns; nothing follows the client address. The text
    is a single line, with no CR, no LF and no other control character,
    when the client address given holds none (the address is written as it
    is, not escaped). The envelope sender, the HELO name and the matching
    record are not written into the header: they are returned as
    properties of the response, the sender always, the HELO name when it
    is not empty, and the record of the outcome of the evaluation when it
    has one. *)
Theorem received_spf_header `{Libmime, Os, Joi, Dns, SpfVerify} (opts : verifyOpts) :
  exists resp,
    let line := "Received-SPF: " +:+ toString (st_result (r_status resp))
                +:+ (" (" +:+ escapeCommentValue (st_comment (r_status resp)) +:+ ")")
                +:+ " client-ip=" +:+ toString (r_client_ip resp) +:+ ";" in
    snd (verify opts) = Ok resp
    /\ r_header resp = Some (foldLines line (Some 160))
    /\ ((forall s, ip opts = Some s -> controlFree s) -> controlFree line)
    /\ r_client_ip resp = normalIp (ip opts)
    /\ r_envelope_from resp = Some (normalSender (sender opts) (helo opts))
    /\ r_helo resp = match helo opts with
                     | Some h => if String.eqb h "" then None else Some h
                     | None => None
                     end
    /\ forall st outcome,
         domainSchema_validate (senderDomain (normalSender (sender opts) (helo opts))) = None ->
         run (verifyResolverOf opts) (evaluationOf opts) initialState = (st, Ok (Some outcome)) ->
         r_rr resp = match spf_rr outcome with
                     | Some rr => if String.eqb rr "" then None else Some rr
                     | None => None
                     end.
Proof.
  destruct (verify_returns opts) as [result Hr].
  set (mta := orElse (mta opts) hostname) in *.
  set (sender := normalSender (sender opts) (helo opts)) in *.
  destruct (verifyResponse_header mta sender (senderDomain sender) (normalIp (ip opts))
              (helo opts) result) as [Hheader Hip].
  destruct (verifyResponse_properties mta sender (senderDomain sender) (normalIp (ip opts))
              (helo opts) result) as (Hfrom & Hhelo & Hrr & Hword).
  eexists. cbv zeta. split; [exact Hr|].
  split; [exact Hheader|].
  split.
  { intros Hfree. rewrite Hip, Hword.
    assert (controlFree (fst (verdict mta sender (senderDomain sender) (normalIp (ip opts))
                                (default (mkSpfResult (Some "?") None None None None) result))))
      as Hw.
    { pose proof (verdict_word mta sender (senderDomain sender) (normalIp (ip opts))
                    (default (mkSpfResult (Some "?") None None None None) result)) as Hin.
      simpl in Hin.
      repeat (destruct Hin as [<-|Hin]; [by repeat constructor|]). destruct Hin. }
    apply controlFree_app; [by repeat constructor|].
    apply controlFree_app; [exact Hw|].
    apply controlFree_app.
    { apply controlFree_app; [by repeat constructor|].
      apply controlFree_app; [apply escapeCommentValue_controlFree | by repeat constructor]. }
    apply controlFree_app; [by repeat constructor|].
    apply controlFree_app; [by apply normalIp_controlFree | by repeat constructor]. }
  split; [exact Hip|].
  split; [rewrite Hfrom; unfold sender; by rewrite normalSender_nonempty|].
  split; [exact Hhelo|].
  intros st outcome Hv Hrun. rewrite Hrr.
  assert (snd (verify opts)
          = Ok (verifyResponse mta sender (senderDomain sender) (normalIp (ip opts)) (helo opts)
                  (Some (withLookups outcome
                           (Some (Number (effectiveLimit (maxResolveCount opts)),
                                  Number (resolveCount st))))))) as Hr'.
  { unfold verify. fold sender. rewrite Hv.
    unfold evaluationOf, verifyResolverOf in Hrun. fold sender mta in Hrun. fold mta.
    rewrite Hrun. reflexivity. }
  rewrite Hr in Hr'. injection Hr' as Hresp.
  destruct (verifyResponse_properties mta sender (senderDomain sender) (normalIp (ip opts))
              (helo opts) (Some (withLookups outcome
                                   (Some (Number (effectiveLimit (maxResolveCount opts)),
                                          Number (resolveCount st))))))
    as (_ & _ & Hrr' & _).
  rewrite <- Hresp in Hrr'. rewrite Hrr in Hrr'. exact Hrr'.
Qed.

(** A passing evaluation: the header, which is one line, and the three
    properties. *)
Lemma received_spf_header_witness :
  exists resp,
    snd (@verify sampleLibmime sampleOs sampleJoi sampleDns samplePass sampleSpfOpts) = Ok resp
    /\ controlFree ("Received-SPF: " +:+ toString (st_result (r_status resp))
                    +:+ (" (" +:+ escapeCommentValue (st_comment (r_status resp)) +:+ ")")
                    +:+ " client-ip=" +:+ toString (r_client_ip resp) +:+ ";")
    /\ r_envelope_from resp = Some "alice@example.com"
    /\ r_helo resp = Some "mail.example.com"
    /\ r_rr resp = Some "v=spf1 ip4:192.0.2.0/24 -all".
Proof.
  destruct (@received_spf_header sampleLibmime sampleOs sampleJoi sampleDns samplePass
              sampleSpfOpts) as (resp & Hr & _ & Hline & _ & Hfrom & Hhelo & Hrr).
  exists resp. split; [exact Hr|].
  split; [apply Hline; intros s [= <-]; by repeat constructor|].
  split; [exact Hfrom|]. split; [exact Hhelo|].
  rewrite (Hrr (mkResolverState 1 [(JStr "example.com", "TXT")])
             (mkSpfResult (Some "+") None None (Some "v=spf1 ip4:192.0.2.0/24 -all") None));
    reflexivity.
Defined.

(** A passing evaluation with a sender, a HELO name and a matching record:
    the header has the client address only, and is not the line of the
    spec. *)
Lemma received_spf_header_counterexample :
  exists resp,
    snd (@verify sampleLibmime sampleOs sampleJoi sampleDns samplePass sampleSpfOpts) = Ok resp
    /\ r_envelope_from resp = Some "alice@example.com"
    /\ r_helo resp = Some "mail.example.com"
    /\ r_rr resp = Some "v=spf1 ip4:192.0.2.0/24 -all"
    /\ r_header resp
       = Some ("Received-SPF: pass (mx.example.com: domain of alice@example.com designates "
               +:+ "192.0.2.1 as permitted sender) client-ip=192.0.2.1;")
    /\ r_header resp <> Some (@foldLines sampleLibmime (specReceivedSpfLine resp) (Some 160)).
Proof.
  eexists. split; [vm_compute; reflexivity|].
  repeat split; try (vm_compute; reflexivity).
  vm_compute. discriminate.
Qed.

(** A client address with a line end in it: the address is written into
    the header as it is, and the text handed to libmime is no single
    line. *)
Example received_spf_header_unescaped_address :
  exists resp,
    snd (@verify sampleLibmime sampleOs sampleJoi sampleDns samplePass foldedAddressOpts) = Ok resp
    /\ r_header resp
       = Some ("Received-SPF: pass (mx.example.com: domain of alice@example.com designates "
               +:+ "192.0.2.1 X-Note: added as permitted sender) client-ip=192.0.2.1"
               +:+ CRLF +:+ "X-Note: added;").
Proof. eexists. split; vm_compute; reflexivity. Qed.


(** ** DMARC alignment *)

Lemma findDomain_Some `{Punycode, Psl} (test : string -> bool) (domainList : list string) :
  findDomain test domainList <> None
  <-> exists domain, In domain domainList /\ test (formatDomain (orgDomain domain)) = true.
Proof.
  induction domainList as [|d l IH]; simpl.
  - split; [done | intros (x & [] & _)].
  - destruct (test (formatDomain (orgDomain d))) eqn:E.
    + split; [intros _; exists d; auto | done].
    + rewrite IH. split.
      * intros (x & Hin & Hx). exists x. auto.
      * intros (x & [<-|Hin] & Hx); [congruence | exists x; auto].
Qed.

(** X1. Relaxed mode (strict unset): [getAligment] returns a result other
    than [false] exactly when some domain of the list has the formatted
    organizational domain of the From domain. *)
Lemma getAligment_relaxed `{Punycode, Psl} (fromDomain : string) (domainList : list string) :
  getAligment fromDomain domainList false <> None
  <-> exists domain,
        In domain domainList
        /\ formatDomain (orgDomain domain) = formatDomain (orgDomain fromDomain).
Proof.
  unfold getAligment. rewrite findDomain_Some.
  split; intros (d & Hin & Hd); exists d; (split; [exact Hin|]).
  - by apply String.eqb_eq.
  - by apply String.eqb_eq.
Qed.

(** C2, the strict half on the code: with strict mode set, a From domain
    and a signing domain that are different hosts of one organizational
    domain align all the same, and so does a subdomain with the
    organizational domain itself. *)
Theorem getAligment_strict_not_identical :
  @getAligment samplePunycode samplePsl "mail.example.com" ["other.example.com"] true
  = Some "example.com"
  /\ @getAligment samplePunycode samplePsl "example.com" ["mail.example.com"] true
     = Some "example.com"
  /\ @formatDomain samplePunycode "other.example.com"
     <> @formatDomain samplePunycode "mail.example.com".
Proof.
  split; [vm_compute; reflexivity|].
  split; [vm_compute; reflexivity|].
  vm_compute. discriminate.
Qed.


(** ** DKIM key records *)

Section KeyRecords.
Context `{Dns, DkimHeaders, Crypto, GlobalObject}.
Context (type name : string) (minBitLength : option Z) (resolver : option resolver_t).


(** C3, as amended. A key record whose [p] tag is empty and one that has
    no [p] tag fail alike: with the error Missing key value of code
    EINVALIDVAL, which carries the record. *)
Theorem getPublicKey_no_key (list : answer) :
  default dns_resolve resolver [] (JStr name) "TXT" = Ok list ->
  keyRecord list <> "" ->
  tagsOf list ≫= (.!! "p") = Some "" \/ tagsOf list ≫= (.!! "p") = None ->
  getPublicKey type name minBitLength resolver
  = Throw (keyError "Missing key value" "EINVALIDVAL" (Some (keyRecord list))).
Proof.
  intros Hres Hrr Hp. unfold getPublicKey. rewrite Hres. cbn [mbind result_bind].
  apply String.eqb_neq in Hrr. rewrite Hrr. cbn [negb].
  unfold tagsOf in Hp. destruct Hp as [-> | ->]; reflexivity.
Qed.

(** X2. The assignment to the undeclared [publicKeyPem] stands before the
    one return of [getPublicKey]: where the global object has no property
    of that name, [getPublicKey] returns no key, whatever the record. *)
Lemma getPublicKey_reference_error (r : publicKeyResult) :
  hasGlobalProperty "publicKeyPem" = false ->
  getPublicKey type name minBitLength resolver <> Ok r.
Proof.
  intros Hg. unfold getPublicKey.
  destruct (default dns_resolve resolver [] (JStr name) "TXT") as [list|e]; [|discriminate].
  cbn [mbind result_bind].
  destruct (negb (String.eqb (keyRecord list) "")); [|discriminate].
  destruct (parseDkimHeaders _ ≫= (.!! "p")) as [[|c p]|]; [discriminate| |discriminate].
  destruct (String.eqb type "DKIM" && _); [discriminate|].
  unfold assignIdentifier. rewrite Hg. discriminate.
Qed.

(** The part of [getPublicKey] after the version test. *)
Lemma getPublicKey_tail_errors (entry : option (gmap string string)) (p rr : string) e :
  (_ ← assignIdentifier "publicKeyPem";
   publicKey ← createPublicKey (pemOf p);
   let keyType := asymmetricKeyType publicKey in
   let k := entry ≫= (.!! "k") in
   if negb (includes ["rsa"; "ed25519"] keyType)
      || match k with
         | Some value => negb (String.eqb (toLowerCase value) keyType)
         | None => false
         end
   then Throw (keyError "Unknown key type" "EINVALIDTYPE" (Some rr))
   else if String.eqb keyType "rsa"
           && match keyObject_modulusLength publicKey with
              | Some bits => (bits <? 1024)%Z
              | None => false
              end
   then Throw (keyError "Key too short" "ESHORTKEY" (Some rr))
   else Ok (mkPublicKeyResult (pemOf p) rr)) = Throw e ->
  e = mkError "ReferenceError" "publicKeyPem is not defined" None None None
  \/ (exists pem, createPublicKey pem = Throw e)
  \/ e = keyError "Unknown key type" "EINVALIDTYPE" (Some rr)
  \/ e = keyError "Key too short" "ESHORTKEY" (Some rr).
Proof.
  unfold assignIdentifier.
  destruct (includes moduleScope "publicKeyPem" || hasGlobalProperty "publicKeyPem");
    cbn [mbind result_bind]; [|intros [= <-]; by left].
  destruct (createPublicKey (pemOf p)) as [key|e'] eqn:Hkey; cbn [mbind result_bind];
    [|intros [= <-]; right; left; eauto].
  cbv zeta. destruct (negb _ || _); [intros [= <-]; right; right; by left|].
  destruct (String.eqb _ "rsa" && _); [intros [= <-]; by repeat right | discriminate].
Qed.

End KeyRecords.

Lemma getPublicKey_reference_error_witness :
  @getPublicKey sampleDns sampleDkimHeaders sampleCrypto nodeGlobal "DKIM"
    "sel._domainkey.example.com" None (Some (txtResolver rsa2048Record))
  <> Ok (mkPublicKeyResult
           (pemOf rsa2048Key)
           ("v=DKIM1;k=rsa;p=" +:+ rsa2048Key)).
Proof.
  apply (@getPublicKey_reference_error sampleDns sampleDkimHeaders sampleCrypto nodeGlobal).
  reflexivity.
Defined.

Lemma getPublicKey_no_key_witness :
  @getPublicKey sampleDns sampleDkimHeaders sampleCrypto nodeGlobal "DKIM"
    "sel._domainkey.example.com" None (Some (txtResolver revokedRecord))
  = Throw (keyError "Missing key value" "EINVALIDVAL" (Some "v=DKIM1;k=rsa;p=")).
Proof.
  apply (@getPublicKey_no_key sampleDns sampleDkimHeaders sampleCrypto nodeGlobal "DKIM"
           "sel._domainkey.example.com" None (Some (txtResolver revokedRecord))
           (Records [Txt revokedRecord])).
  - reflexivity.
  - vm_compute. discriminate.
  - left. vm_compute. reflexivity.
Defined.

(** A revoked key (an empty [p]) and a record without [p] are not told
    apart: both errors are Missing key value, EINVALIDVAL. *)
Lemma getPublicKey_no_key_counterexample :
  exists e1 e2,
    @getPublicKey sampleDns sampleDkimHeaders sampleCrypto nodeGlobal "DKIM"
      "sel._domainkey.example.com" None (Some (txtResolver revokedRecord)) = Throw e1
    /\ @getPublicKey sampleDns sampleDkimHeaders sampleCrypto nodeGlobal "DKIM"
         "sel._domainkey.example.com" None (Some (txtResolver keylessRecord)) = Throw e2
    /\ message e1 = "Missing key value" /\ message e2 = "Missing key value"
    /\ code e1 = Some "EINVALIDVAL" /\ code e2 = Some "EINVALIDVAL".
Proof.
  do 2 eexists. split; [vm_compute; reflexivity|]. split; [vm_compute; reflexivity|].
  repeat split.
Qed.






(** C9 on the code: a well-formed record with an RSA key of 2048 bits, in
    a process whose global object has no [publicKeyPem]. The call ends in
    a ReferenceError that has no code; it returns the key only where some
    other code has made [publicKeyPem] a global. *)
Theorem getPublicKey_reference_error_at_valid_key :
  @getPublicKey sampleDns sampleDkimHeaders sampleCrypto nodeGlobal "DKIM"
    "sel._domainkey.example.com" None (Some (txtResolver rsa2048Record))
  = Throw (mkError "ReferenceError" "publicKeyPem is not defined" None None None)
  /\ @getPublicKey sampleDns sampleDkimHeaders sampleCrypto globalWithPem "DKIM"
       "sel._domainkey.example.com" None (Some (txtResolver rsa2048Record))
     = Ok (mkPublicKeyResult
             (pemOf rsa2048Key)
             ("v=DKIM1;k=rsa;p=" +:+ rsa2048Key)).
Proof.
  split; vm_compute; reflexivity.
Qed.


(** ** Signature header lines *)

Section KeyOrder.
Context (keyOrdering : list string).

#[local] Instance keyLe_transitive : Transitive (keyLe keyOrdering).
Proof. intros a b c. unfold keyLe. lia. Qed.

#[local] Instance keyLe_total : Total (keyLe keyOrdering).
Proof. intros a b. unfold keyLe. lia. Qed.

Lemma includes_elem_of (l : list string) key : includes l key = true <-> key ∈ l.
Proof.
  unfold includes. rewrite existsb_exists. rewrite list_elem_of_In. split.
  - intros (x & Hx & E). apply String.eqb_eq in E. by subst.
  - intros Hin. exists key. split; [exact Hin | apply String.eqb_refl].
Qed.

Lemma indexIn_lookup (l : list string) key : key ∈ l -> l !! indexIn key l = Some key.
Proof.
  induction l as [|k l IH]; [by intros ?%elem_of_nil|].
  intros Hin. simpl. destruct (String.eqb_spec k key) as [->|Hne]; [reflexivity|].
  simpl. apply IH. apply elem_of_cons in Hin as [->|Hin]; [done | exact Hin].
Qed.

Lemma indexIn_inj a b :
  a ∈ keyOrdering -> b ∈ keyOrdering -> indexIn a keyOrdering = indexIn b keyOrdering -> a = b.
Proof.
  intros Ha Hb E. apply indexIn_lookup in Ha, Hb. rewrite E in Ha. congruence.
Qed.

Lemma isEmitted_elem_of values key :
  isEmitted keyOrdering values key = true ->
  key ∈ keyOrdering /\ key ∈ (map_to_list values).*1.
Proof.
  unfold isEmitted. destruct (values !! key) as [v|] eqn:Ev; [|discriminate].
  intros Hk. split.
  - apply includes_elem_of.
    destruct v as [| |[]| |]; try discriminate;
      destruct (values !! "key") as [[]|]; try discriminate; exact Hk.
  - apply list_elem_of_fmap. exists (key, v). split; [reflexivity|].
    by apply elem_of_map_to_list.
Qed.

Lemma StronglySorted_filter {A} (R : relation A) (P : A -> Prop) `{!forall x, Decision (P x)} l :
  StronglySorted R l -> StronglySorted R (filter P l).
Proof.
  induction 1 as [|x l Hl IH Hx]; [constructor|].
  rewrite filter_cons. destruct (decide (P x)); [|exact IH].
  constructor; [exact IH|].
  apply Forall_forall. intros y Hy. apply list_elem_of_filter in Hy as [_ Hy].
  rewrite Forall_forall in Hx. by apply Hx.
Qed.

(** The emitted keys are those of the ordering that pass the filter, in
    the order of the ordering. *)
Lemma emittedKeys_ordered values :
  StronglySorted (keyLe keyOrdering) keyOrdering ->
  NoDup keyOrdering ->
  emittedKeys keyOrdering values
  = filter (fun key => isEmitted keyOrdering values key = true) keyOrdering.
Proof.
  intros Hsorted Hnodup. unfold emittedKeys.
  apply (StronglySorted_unique_strong (keyLe keyOrdering)).
  - intros a b Ha Hb Hab Hba.
    rewrite merge_sort_Permutation in Ha.
    apply list_elem_of_filter in Ha as [Ha _], Hb as [Hb _].
    apply isEmitted_elem_of in Ha as [Ha _], Hb as [Hb _].
    apply indexIn_inj; [done..|]. unfold keyLe in *. lia.
  - apply StronglySorted_merge_sort; apply _.
  - by apply StronglySorted_filter.
  - rewrite merge_sort_Permutation. apply NoDup_Permutation.
    + apply NoDup_filter, NoDup_fst_map_to_list.
    + by apply NoDup_filter.
    + intros key. rewrite !list_elem_of_filter. split.
      * intros [He _]. split; [exact He|]. by apply isEmitted_elem_of in He as [? _].
      * intros [He _]. split; [exact He|]. by apply isEmitted_elem_of in He as [_ ?].
Qed.
End KeyOrder.

Ltac sorted_by_index :=
  repeat first [apply SSorted_nil | apply SSorted_cons | apply List.Forall_nil | apply List.Forall_cons];
  unfold keyLe; simpl; lia.

Ltac nodup_strings :=
  repeat (apply NoDup_cons; split; [rewrite list_elem_of_In; simpl; intuition discriminate|]);
  apply NoDup_nil_2.

Lemma keyOrderings_sorted :
  (StronglySorted (keyLe keyOrderingDKIM) keyOrderingDKIM /\ NoDup keyOrderingDKIM)
  /\ (StronglySorted (keyLe keyOrderingARC) keyOrderingARC /\ NoDup keyOrderingARC)
  /\ (StronglySorted (keyLe keyOrderingAS) keyOrderingAS /\ NoDup keyOrderingAS).
Proof.
  split; [split; [sorted_by_index | nodup_strings]|].
  split; (split; [sorted_by_index | nodup_strings]).
Qed.

Lemma spaceEvery_short n fuel l :
  List.length l < n -> spaceEvery n fuel l = l.
Proof.
  revert l. induction fuel as [|fuel IH]; intros l Hl; [reflexivity|].
  destruct l as [|c r]; [reflexivity|]. simpl.
  destruct (Nat.leb_spec n (S (List.length r))) as [Hle|_]; [simpl in Hl; lia|].
  simpl. f_equal. apply IH. simpl in Hl. lia.
Qed.

Lemma spaceEvery_step n fuel l :
  l <> [] ->
  (n <=? List.length l)%nat && forallb (fun c => negb (isLineTerminator c)) (take n l) = true ->
  spaceEvery n (S fuel) l = take n l ++ SP :: spaceEvery n fuel (drop n l).
Proof.
  destruct l as [|c r]; [done|]. intros _ Hm.
  change (spaceEvery n (S fuel) (c :: r))
    with (if (n <=? List.length (c :: r))%nat
             && forallb (fun c => negb (isLineTerminator c)) (take n (c :: r))
          then take n (c :: r) ++ SP :: spaceEvery n fuel (drop n (c :: r))
          else c :: spaceEvery n fuel r).
  by rewrite Hm.
Qed.

(** A text of segments of 75 characters without line terminators and a
    shorter rest: a space is put after every segment. *)
Lemma spaceEvery_segments (segs : list (list ascii)) (rest : list ascii) fuel :
  Forall (fun g => List.length g = 75
                   /\ forallb (fun c => negb (isLineTerminator c)) g = true) segs ->
  List.length rest < 75 ->
  List.length (concat segs ++ rest) <= fuel ->
  spaceEvery 75 fuel (concat segs ++ rest) = concat (map (fun g => g ++ [SP]) segs) ++ rest.
Proof.
  intros Hsegs Hrest. revert fuel.
  induction Hsegs as [|g segs [Hg Hlt] _ IH]; intros fuel Hfuel.
  - simpl. by apply spaceEvery_short.
  - cbn [concat map] in *. rewrite <- !app_assoc in *.
    set (l := concat segs ++ rest) in *.
    rewrite length_app in Hfuel.
    destruct fuel as [|fuel]; [lia|].
    assert (take 75 (g ++ l) = g) as Htake by (rewrite take_app_length'; [done | by rewrite Hg]).
    assert (drop 75 (g ++ l) = l) as Hdrop by (rewrite drop_app_length'; [done | by rewrite Hg]).
    rewrite spaceEvery_step.
    + rewrite Htake, Hdrop. rewrite IH by lia. simpl. reflexivity.
    + destruct g; [simpl in Hg; lia | discriminate].
    + rewrite Htake, Hlt. rewrite length_app, Hg. reflexivity.
Qed.

Section Tags.
Context `{Punycode, Libmime, Clock}.

Lemma formatTag_folded_b type (values : gmap string jsval) (val : jsval) :
  values !! "b" = Some val -> truthy val = true ->
  formatTag type values true "b" = Ok (foldSignature ("b=" +:+ toString val)).
Proof.
  intros Hb Ht. unfold formatTag. rewrite Hb. cbv zeta. unfold jsget. cbn [from_option id]. rewrite !Ht.
  reflexivity.
Qed.

Lemma formatTag_domain type (values : gmap string jsval) folded key (name : string) :
  key = "d" \/ key = "s" ->
  values !! key = Some (JStr name) ->
  formatTag type values folded key = Ok (key +:+ "=" +:+ aLabelOf name).
Proof.
  intros Hkey Hv. unfold formatTag, aLabelOf. rewrite Hv. cbv zeta. unfold jsget. cbn [from_option id].
  destruct Hkey as [-> | ->]; cbn [String.eqb Ascii.eqb Bool.eqb andb includes existsb orb];
    destruct name as [|c name]; cbn [truthy String.eqb negb toALabel];
    destruct (toASCII _); reflexivity.
Qed.

Lemma append_assoc (a b c : string) : (a +:+ b) +:+ c = a +:+ b +:+ c.
Proof.
  induction a as [|x a IH]; [reflexivity|].
  change (String x ((a +:+ b) +:+ c) = String x (a +:+ b +:+ c)). by rewrite IH.
Qed.

Lemma indexOf_app x (a b : list ascii) :
  ~ In x a -> indexOf x (a ++ x :: b) = Some (List.length a).
Proof.
  induction a as [|c a IH]; simpl; intros Hn.
  - by rewrite Ascii.eqb_refl.
  - destruct (Ascii.eqb_spec c x) as [->|_]; [tauto|]. rewrite IH by tauto. reflexivity.
Qed.

Lemma formatTag_identity (values : gmap string jsval) folded (localPart domainPart : string) :
  ~ In "@"%char (chars localPart) ->
  values !! "i" = Some (JStr (localPart +:+ "@" +:+ domainPart)) ->
  formatTag "DKIM" values folded "i"
  = Ok ("i=" +:+ localPart +:+ "@" +:+ aLabelOf domainPart).
Proof.
  intros Hat Hv. unfold formatTag, aLabelOf. rewrite Hv. cbv zeta. unfold jsget. cbn [from_option id].
  assert (truthy (JStr (localPart +:+ "@" +:+ domainPart)) = true) as ->.
  { cbn [truthy]. by rewrite append_nonempty. }
  cbn [String.eqb Ascii.eqb Bool.eqb andb includes existsb orb mbind result_bind].
  assert (chars (localPart +:+ "@" +:+ domainPart)
          = chars localPart ++ "@"%char :: chars domainPart) as ->
    by (rewrite chars_app; reflexivity).
  rewrite (indexOf_app _ _ _ Hat).
  replace (List.length (chars localPart) + 1) with (S (List.length (chars localPart))) by lia.
  assert (take (S (List.length (chars localPart))) (chars localPart ++ "@"%char :: chars domainPart)
          = chars localPart ++ ["@"%char]) as ->.
  { change ("@"%char :: chars domainPart) with (["@"%char] ++ chars domainPart).
    rewrite app_assoc. apply take_app_length'. rewrite length_app. simpl. lia. }
  assert (drop (S (List.length (chars localPart))) (chars localPart ++ "@"%char :: chars domainPart)
          = chars domainPart) as ->.
  { change ("@"%char :: chars domainPart) with (["@"%char] ++ chars domainPart).
    rewrite app_assoc. apply drop_app_length'. rewrite length_app. simpl. lia. }
  rewrite string_of_list_ascii_of_string, str_app, string_of_list_ascii_of_string.
  cbn [str]. destruct (toASCII domainPart); cbn [mbind result_bind toString];
    by rewrite append_assoc.
Qed.
End Tags.

Lemma spaceEvery_head n fuel c1 c2 r :
  2 <= n -> exists r', spaceEvery n fuel (c1 :: c2 :: r) = c1 :: c2 :: r'.
Proof.
  intros Hn. destruct fuel as [|fuel]; [by eexists|]. cbn [spaceEvery].
  destruct (_ && _).
  - destruct n as [|[|n]]; [lia..|]. cbn [take app]. by eexists.
  - destruct fuel as [|fuel]; [by eexists|]. cbn [spaceEvery].
    destruct (_ && _); [|by eexists].
    destruct n as [|n]; [lia|]. cbn [take app]. by eexists.
Qed.

(** Every tag of the header is its key, an equals sign and a value. *)
Lemma formatTag_key `{Punycode} type (values : gmap string jsval) folded key tag :
  formatTag type values folded key = Ok tag -> exists v, tag = key +:+ "=" +:+ v.
Proof.
  unfold formatTag. cbv zeta.
  destruct (String.eqb key "b" && folded && _) eqn:Eb.
  - apply andb_true_iff in Eb as [Eb _]. apply andb_true_iff in Eb as [Eb _].
    apply String.eqb_eq in Eb. subst key. intros [= <-]. unfold foldSignature.
    set (v := toString _). change (chars ("b" +:+ "=" +:+ v)) with ("b"%char :: "="%char :: chars v).
    destruct (spaceEvery_head 75 (List.length ("b"%char :: "="%char :: chars v))
                "b"%char "="%char (chars v)) as [r' ->]; [lia|].
    unfold trimL. change ("b"%char :: "="%char :: r') with (["b"%char] ++ "="%char :: r').
    rewrite (rtrimL_app_stop ["b"%char] "="%char r') by reflexivity.
    exists (str (rtrimL r')). reflexivity.
  - destruct (String.eqb key "i" && String.eqb type "DKIM").
    + destruct (if includes _ key then _ else _) as [| | | |s]; try discriminate.
      destruct (indexOf _ _); intros [= <-]; by eexists.
    + intros [= <-]. by eexists.
Qed.

(** C7. Signature headers. Each of the three headers is its name and the
    tags of its ordering that pass the filter, in the order of the
    ordering: v,a,c,d,h,i,l,q,s,t,x,z,bh,b for DKIM-Signature,
    i,a,c,d,h,l,q,s,t,x,z,bh,b for ARC-Message-Signature and
    i,a,t,cv,d,s,b for ARC-Seal; every tag is its key, an equals sign and
    a value. With folding, the [b] tag is cut into segments of 75
    characters with a space between them. The [d] and [s] values, and the
    part of a DKIM [i] value after the at sign, are converted to A-labels
    by punycode (and kept as they are where punycode fails). *)
Theorem signature_header_format `{Punycode, Libmime, Clock} (values : gmap string jsval)
    (folded : bool) :
  (formatSignatureHeaderLine "DKIM" values folded
   = headerOf "DKIM-Signature" "DKIM" (dkimValues values) folded
       (presentKeys keyOrderingDKIM (dkimValues values))
   /\ formatSignatureHeaderLine "ARC" values folded
      = headerOf "ARC-Message-Signature" "ARC" (arcValues values) folded
          (presentKeys keyOrderingARC (arcValues values))
   /\ formatSignatureHeaderLine "AS" values folded
      = headerOf "ARC-Seal" "AS" (sealValues values) folded
          (presentKeys keyOrderingAS (sealValues values)))
  /\ (keyOrderingDKIM = ["v"; "a"; "c"; "d"; "h"; "i"; "l"; "q"; "s"; "t"; "x"; "z"; "bh"; "b"]
      /\ keyOrderingARC = ["i"; "a"; "c"; "d"; "h"; "l"; "q"; "s"; "t"; "x"; "z"; "bh"; "b"]
      /\ keyOrderingAS = ["i"; "a"; "t"; "cv"; "d"; "s"; "b"])
  /\ (forall type V key tag,
        formatTag type V folded key = Ok tag -> exists v, tag = key +:+ "=" +:+ v)
  /\ (forall type (V : gmap string jsval) val,
        V !! "b" = Some val -> truthy val = true ->
        formatTag type V true "b" = Ok (foldSignature ("b=" +:+ toString val)))
  /\ (forall (segs : list (list ascii)) (rest : list ascii),
        Forall (fun g => List.length g = 75
                         /\ forallb (fun c => negb (isLineTerminator c)) g = true) segs ->
        List.length rest < 75 ->
        foldSignature (str (concat segs ++ rest))
        = str (trimL (concat (map (fun g => g ++ [SP]) segs) ++ rest)))
  /\ (forall type (V : gmap string jsval) key name,
        key = "d" \/ key = "s" ->
        V !! key = Some (JStr name) ->
        formatTag type V folded key = Ok (key +:+ "=" +:+ aLabelOf name))
  /\ (forall (V : gmap string jsval) localPart domainPart,
        ~ In "@"%char (chars localPart) ->
        V !! "i" = Some (JStr (localPart +:+ "@" +:+ domainPart)) ->
        formatTag "DKIM" V folded "i"
        = Ok ("i=" +:+ localPart +:+ "@" +:+ aLabelOf domainPart)).
Proof.
  destruct keyOrderings_sorted as ((Hs1 & Hn1) & (Hs2 & Hn2) & (Hs3 & Hn3)).
  split.
  { unfold formatSignatureHeaderLine, headerOf, presentKeys.
    split; [|split].
    - change (toUpperCase "DKIM") with "DKIM". cbn [String.eqb Ascii.eqb Bool.eqb mbind result_bind].
      fold (dkimValues values). by rewrite (emittedKeys_ordered _ _ Hs1 Hn1).
    - change (toUpperCase "ARC") with "ARC". cbn [String.eqb Ascii.eqb Bool.eqb mbind result_bind].
      fold (arcValues values). by rewrite (emittedKeys_ordered _ _ Hs2 Hn2).
    - change (toUpperCase "AS") with "AS". cbn [String.eqb Ascii.eqb Bool.eqb mbind result_bind].
      fold (sealValues values). by rewrite (emittedKeys_ordered _ _ Hs3 Hn3). }
  split; [repeat split|].
  split; [intros type V key tag; apply formatTag_key|].
  split; [intros type V val; apply formatTag_folded_b|].
  split.
  { intros segs rest Hsegs Hrest. unfold foldSignature.
    rewrite list_ascii_of_string_of_list_ascii.
    by rewrite spaceEvery_segments. }
  split; [intros type V key name; apply formatTag_domain|].
  intros V localPart domainPart. apply formatTag_identity.
Qed.

(** A DKIM header with an internationalized domain, and a signature of 77
    characters folded. *)
Lemma signature_header_format_witness :
  @formatSignatureHeaderLine idnPunycode sampleLibmime sampleClock "DKIM" sampleValues false
  = Ok ("DKIM-Signature: v=1; a=rsa-sha256; c=relaxed/relaxed; d=xn--ber-goa.example; "
        +:+ "h=from:to:subject; i=joe@xn--ber-goa.example; q=dns/txt; s=selector; "
        +:+ "t=1650000000; bh=Ym9keWhhc2g=; b=c2lnbmF0dXJl")
  /\ @formatTag idnPunycode "DKIM" sampleValues false "i" = Ok "i=joe@xn--ber-goa.example"
  /\ @formatTag idnPunycode "DKIM" sampleValues false "d" = Ok "d=xn--ber-goa.example"
  /\ foldSignature (str (concat [repeat "A"%char 75] ++ chars "BB"))
     = str (repeat "A"%char 75 ++ SP :: chars "BB").
Proof.
  destruct (@signature_header_format idnPunycode sampleLibmime sampleClock sampleValues false)
    as ((Hdkim & _) & _ & _ & _ & Hsegs & Hdomain & Hidentity).
  split; [rewrite Hdkim; vm_compute; reflexivity|].
  split.
  { apply (Hidentity sampleValues "joe" (String (ascii_of_N 252) "ber.example")).
    - simpl. intuition discriminate.
    - vm_compute. reflexivity. }
  split.
  { apply (Hdomain "DKIM" sampleValues "d" (String (ascii_of_N 252) "ber.example")).
    - by left.
    - vm_compute. reflexivity. }
  rewrite (Hsegs [repeat "A"%char 75] (chars "BB")).
  - vm_compute. reflexivity.
  - repeat constructor.
  - simpl. lia.
Defined.


(** ** Verified Mark Certificates *)

(** C10, as amended. For a text that parses as a certificate,
    [parseLogoFromX509] returns [false] and throws nothing when the
    certificate has no DNS name, when it has no logotype extension with a
    value that is not empty, and when the value lacks [data:] at a word
    boundary or lacks [base64,] at a word boundary (the two are looked for
    apart from each other, in no order). It returns an object only when
    there are names, a value and both marks, and the text after the first
    [base64,] unpacks; the object then holds the text given, the names and
    the unpacked picture. *)
Theorem parseLogoFromX509_outcome `{X509, Zlib} (pem : string) (cert : certificate) :
  fromPEM pem = Ok cert ->
  (certAltNames cert = [] -> parseLogoFromX509 pem = Ok None)
  /\ (logoValue cert = None \/ logoValue cert = Some "" -> parseLogoFromX509 pem = Ok None)
  /\ (forall value,
        logoValue cert = Some value ->
        searchWord (chars "data:") false (chars (utf8 value)) = None
        \/ searchWord (chars "base64,") false (chars (utf8 value)) = None ->
        parseLogoFromX509 pem = Ok None)
  /\ (forall l,
        parseLogoFromX509 pem = Ok (Some l) ->
        certAltNames cert <> []
        /\ exists value index picture,
             logoValue cert = Some value /\ value <> ""
             /\ searchWord (chars "data:") false (chars (utf8 value)) <> None
             /\ searchWord (chars "base64,") false (chars (utf8 value)) = Some index
             /\ gunzip (fromBase64 (str (drop (index + 7) (chars (utf8 value))))) = Ok picture
             /\ l = mkLogo pem (certAltNames cert) (utf8 picture)).
Proof.
  intros Hcert. unfold parseLogoFromX509, logoValue. rewrite Hcert.
  cbn [mbind result_bind].
  split; [by intros ->|].
  destruct (certAltNames cert) as [|n ns] eqn:Hnames.
  { split; [done|]. split; [done|]. intros l [=]. }
  cbn [List.length Nat.eqb].
  split; [by intros [-> | ->]|].
  split.
  - intros value -> Hmark.
    destruct value as [|c value]; [reflexivity|].
    destruct Hmark as [-> | Hb]; [reflexivity|].
    destruct (searchWord (chars "data:") _ _); [by rewrite Hb | reflexivity].
  - intros l Hl. split; [done|].
    destruct (head _ ≫= ext_value) as [[|c value]|]; [discriminate| |discriminate].
    destruct (searchWord (chars "data:") false _) as [i|] eqn:Hd; [|discriminate].
    destruct (searchWord (chars "base64,") false _) as [index|] eqn:Hb; [|discriminate].
    destruct (gunzip _) as [picture|e] eqn:Hz; [|discriminate].
    cbn [mbind result_bind] in Hl. injection Hl as <-.
    exists (String c value), index, picture.
    repeat split; try done. by rewrite Hd.
Qed.

Lemma parseLogoFromX509_outcome_witness :
  @parseLogoFromX509 (sampleX509 "0#data:image/svg+xml;base64,H4sIAAAA") gzipOfSvg "vmc"
  = Ok (Some (mkLogo "vmc" ["example.com"] "<svg/>"))
  /\ @parseLogoFromX509 (sampleX509 "no picture here") gzipOfSvg "vmc" = Ok None.
Proof.
  destruct (@parseLogoFromX509_outcome (sampleX509 "no picture here") gzipOfSvg "vmc"
              (sampleCert "no picture here") eq_refl) as (_ & _ & Hmark & _).
  split; [vm_compute; reflexivity|].
  apply (Hmark "no picture here"); [reflexivity|]. left. vm_compute. reflexivity.
Defined.

(** A value that holds the two marks the wrong way round, and so no data
    URI: the outcome is not [false], it is the error of zlib, or an object
    where the rest of the value unpacks. *)
Lemma parseLogoFromX509_outcome_counterexample :
  containsDataUri "base64,QUJD data:" = false
  /\ @parseLogoFromX509 (sampleX509 "base64,QUJD data:") noGzip "vmc"
     = Throw (mkError "Error" "incorrect header check" (Some "Z_DATA_ERROR") None None)
  /\ @parseLogoFromX509 (sampleX509 "base64,QUJD data:") gzipOfSvg "vmc"
     = Ok (Some (mkLogo "vmc" ["example.com"] "<svg/>")).
Proof.
  split; [vm_compute; reflexivity|]. split; vm_compute; reflexivity.
Qed.

(** * Further properties *)

(** ** Relaxed canonicalization is idempotent *)

Lemma append_empty_r (s : string) : s +:+ "" = s.
Proof. induction s as [|c s IH]; [reflexivity|]. change (String c (s +:+ "") = String c s). by rewrite IH. Qed.

Lemma rtrimL_id l : noTrailingSpace l -> rtrimL l = l.
Proof. intros H. unfold rtrimL. rewrite dropWhile_id by exact H. apply rev_involutive. Qed.

Lemma trimL_id l : noLeadingSpace l -> noTrailingSpace l -> trimL l = l.
Proof. intros H1 H2. unfold trimL, ltrimL. rewrite rtrimL_id by exact H2. by apply dropWhile_id. Qed.

Lemma trimL_idem l : trimL (trimL l) = trimL l.
Proof. apply trimL_id; [apply trimL_noLeading | apply trimL_noTrailing]. Qed.

Lemma collapseRuns_id b l :
  singleSpaced l -> (b = true -> noLeadingSpace l) -> collapseRuns isSpace b l = l.
Proof.
  revert b. induction l as [|c r IH]; intros b Hs Hb; [reflexivity|].
  simpl in *. destruct Hs as [Hc Hr]. destruct (isSpace c) eqn:E.
  - destruct b; [by specialize (Hb eq_refl)|].
    destruct (Hc eq_refl) as [-> Hn]. f_equal. by apply IH.
  - f_equal. apply IH; [exact Hr | discriminate].
Qed.

Lemma unfoldL_id l : Forall (fun c => c <> LF) l -> unfoldL l = l.
Proof.
  induction 1 as [|c r Hc Hr IH]; [reflexivity|]. simpl.
  destruct (Ascii.eqb c LF) eqn:E; [by apply Ascii.eqb_eq in E|].
  destruct (Ascii.eqb c CR); [|by rewrite IH].
  destruct r as [|d r']; [reflexivity|].
  inversion Hr as [|? ? Hd _]; subst.
  destruct (Ascii.eqb d LF) eqn:E'; [by apply Ascii.eqb_eq in E'|]. by rewrite IH.
Qed.

Lemma unfoldL_crlf l :
  Forall (fun c => c <> CR /\ c <> LF) l -> unfoldL (l ++ [CR; LF]) = l.
Proof.
  induction 1 as [|c r [Hc1 Hc2] Hr IH]; [reflexivity|].
  cbn [app unfoldL].
  destruct (Ascii.eqb c LF) eqn:E; [by apply Ascii.eqb_eq in E|].
  destruct (Ascii.eqb c CR) eqn:E'; [by apply Ascii.eqb_eq in E'|]. by rewrite IH.
Qed.

Lemma splitFirst_None x l : ~ In x l -> splitFirst x l = None.
Proof.
  induction l as [|c l IH]; intros Hn; [reflexivity|]. simpl.
  destruct (Ascii.eqb c x) eqn:E.
  - apply Ascii.eqb_eq in E. subst. exfalso. apply Hn. by left.
  - rewrite IH; [reflexivity|]. intros Hin. apply Hn. by right.
Qed.

Lemma splitFirst_app x k v : ~ In x k -> splitFirst x (k ++ x :: v) = Some (k, v).
Proof.
  induction k as [|c k IH]; intros Hn; simpl.
  - by rewrite Ascii.eqb_refl.
  - destruct (Ascii.eqb c x) eqn:E.
    + apply Ascii.eqb_eq in E. subst. exfalso. apply Hn. by left.
    + rewrite IH; [reflexivity|]. intros Hin. apply Hn. by right.
Qed.

Lemma relaxedBody_fixed b :
  relaxedBody b -> trimL (collapseL (relaxKeyL (unfoldL b))) = b.
Proof.
  intros (Hnl & Hss & Hl & Ht & Hk).
  rewrite unfoldL_id by (eapply List.Forall_impl; [|exact Hnl]; by intros c [_ ?]).
  assert (relaxKeyL b = b) as ->.
  { unfold relaxKeyL. destruct (splitFirst ":"%char b) as [[k v]|] eqn:Hs; [|reflexivity].
    destruct Hk as (Hlow & Hkt & Hv).
    destruct (splitFirst_Some _ _ _ _ Hs) as [Hb _].
    assert (map lowerChar k = k) as ->.
    { clear -Hlow. induction Hlow as [|c k Hc _ IH]; [reflexivity|]. simpl. by rewrite Hc, IH. }
    rewrite trimL_id; [|by rewrite Hb in Hl; destruct k|exact Hkt].
    unfold ltrimL. by rewrite dropWhile_id. }
  unfold collapseL. rewrite collapseRuns_id; [|exact Hss|discriminate].
  by apply trimL_id.
Qed.

Lemma relaxed_is_relaxedBody l : relaxedBody (trimL (collapseL (relaxKeyL (unfoldL l)))).
Proof.
  assert (singleSpaced (trimL (collapseL (relaxKeyL (unfoldL l))))) as Hss
    by apply trimL_singleSpaced, collapseRuns_singleSpaced.
  split; [by apply singleSpaced_no_newline|].
  split; [exact Hss|].
  split; [apply trimL_noLeading|].
  split; [apply trimL_noTrailing|].
  destruct (splitFirst ":"%char (unfoldL l)) as [[k v]|] eqn:Hs.
  - rewrite (relaxed_body_key _ _ _ Hs).
    rewrite splitFirst_app
      by (apply relaxed_key_no_colon; by apply (splitFirst_Some _ _ _ _ Hs)).
    split.
    { apply collapseRuns_Forall; [reflexivity|]. apply trimL_Forall.
      apply List.Forall_forall. intros c Hc. apply List.in_map_iff in Hc as (c0 & <- & _).
      apply lowerChar_idem. }
    split; [apply collapseRuns_last, trimL_noTrailing|].
    apply rtrimL_noLeading, collapseL_noLeading, dropWhile_head.
  - unfold relaxKeyL. rewrite Hs. rewrite splitFirst_None; [exact I|].
    assert (Forall (fun c => c <> ":"%char) (trimL (collapseL (unfoldL l)))) as HF.
    { apply trimL_Forall, collapseRuns_Forall; [discriminate|].
      apply List.Forall_forall. intros c Hc ->. revert Hs Hc. clear.
      induction (unfoldL l) as [|c u IH]; simpl; [by intros _ []|].
      destruct (Ascii.eqb c ":"%char) eqn:E; [discriminate|].
      destruct (splitFirst ":"%char u) as [[]|]; [discriminate|].
      intros _ [->|Hin]; [by rewrite Ascii.eqb_refl in E | by apply IH]. }
    rewrite List.Forall_forall in HF. intros Hin. by apply (HF _ Hin).
Qed.

(** X3. Relaxed canonicalization is idempotent: a line that
    [formatRelaxedLine] has made is left as it is by a second pass, both
    without a suffix and with the CRLF suffix that ends header lines. *)
Theorem formatRelaxedLine_idempotent (line : string) :
  formatRelaxedLine (formatRelaxedLine line None) None = formatRelaxedLine line None
  /\ formatRelaxedLine (formatRelaxedLine line (Some CRLF)) (Some CRLF)
     = formatRelaxedLine line (Some CRLF).
Proof.
  pose proof (relaxed_is_relaxedBody (chars line)) as Hb.
  unfold formatRelaxedLine. cbn [String.eqb CRLF Ascii.eqb].
  change (if String.eqb CRLF "" then "" else CRLF) with CRLF.
  set (body := trimL (collapseL (relaxKeyL (unfoldL (chars line))))) in *.
  split.
  - rewrite !append_empty_r, chars_str. by rewrite relaxedBody_fixed.
  - rewrite chars_app, chars_str. change (chars CRLF) with [CR; LF].
    rewrite unfoldL_crlf by apply Hb. f_equal.
    f_equal. rewrite <- (relaxedBody_fixed body Hb) at 2.
    f_equal. f_equal. f_equal. symmetry. apply unfoldL_id.
    eapply List.Forall_impl; [|apply Hb]. by intros c [_ ?].
Qed.

(** ** SPF: what [verify] reports *)

Lemma run_invariant (I : resolverState -> Prop)
    (lr : jsval -> string -> resolverState -> resolverState * result answer) :
  (forall d t st, I st -> I (fst (lr d t st))) ->
  forall p st, I st -> I (fst (run lr p st)).
Proof.
  intros Hstep p. induction p as [r|e|d t k IH]; intros st Hst; simpl; [done..|].
  pose proof (Hstep d t st Hst) as Hst'.
  destruct (lr d t st) as [st' a]. by apply IH.
Qed.

(** The fields of the response [verify] makes of an outcome. *)
Lemma verifyResponse_fields `{Libmime} mta sender domain ip helo result :
  let outcome := default (mkSpfResult (Some "?") None None None None) result in
  let resp := verifyResponse mta sender domain ip helo result in
  st_result (r_status resp) = JStr (fst (verdict mta sender domain ip outcome))
  /\ st_comment (r_status resp) = JStr (snd (verdict mta sender domain ip outcome))
  /\ r_domain resp = domain /\ r_client_ip resp = ip
  /\ r_lookups resp = lookups outcome.
Proof.
  unfold verifyResponse. cbv zeta.
  destruct (verdict mta sender domain ip _) as [word comment]. repeat split.
Qed.

(** X4. [verify] never throws, whatever the resolver and the evaluator do:
    it returns a response whose result is one of the seven result words of
    SPF, with a non-empty comment, for the domain of the normalized sender
    and the normalized client address. *)
Theorem verify_result_word `{Libmime, Os, Joi, Dns, SpfVerify} (opts : verifyOpts) :
  exists resp word comment,
    snd (verify opts) = Ok resp
    /\ st_result (r_status resp) = JStr word /\ In word spfWords
    /\ st_comment (r_status resp) = JStr comment /\ comment <> ""
    /\ r_domain resp = senderDomain (normalSender (sender opts) (helo opts))
    /\ r_client_ip resp = normalIp (ip opts).
Proof.
  destruct (verify_returns opts) as [result Hr].
  destruct (verifyResponse_fields (orElse (mta opts) hostname)
              (normalSender (sender opts) (helo opts))
              (senderDomain (normalSender (sender opts) (helo opts)))
              (normalIp (ip opts)) (helo opts) result) as (Hw & Hc & Hd & Hi & _).
  eexists _, _, _. split; [exact Hr|].
  split; [exact Hw|]. split; [apply verdict_word|].
  split; [exact Hc|]. split; [|split; [exact Hd | exact Hi]].
  intros E. pose proof (verdict_comment (orElse (mta opts) hostname)
              (normalSender (sender opts) (helo opts))
              (senderDomain (normalSender (sender opts) (helo opts)))
              (normalIp (ip opts))
              (default (mkSpfResult (Some "?") None None None None) result)) as Ht.
  rewrite E in Ht. discriminate.
Qed.

(** X5. The lookups [verify] reports: the limit in force and the final
    value of the counter, which bounds the number of queries sent to the
    wrapped resolver; the response has no lookups only when the evaluator
    returned no outcome, and the result is neutral then. *)
Theorem verify_lookups `{Libmime, Os, Joi, Dns, SpfVerify} (opts : verifyOpts) :
  exists resp,
    snd (verify opts) = Ok resp
    /\ (r_lookups resp
        = Some (Number (effectiveLimit (maxResolveCount opts)),
                Number (resolveCount (fst (verify opts))))
        \/ r_lookups resp = None
           /\ st_result (r_status resp) = JStr "neutral"
           /\ snd (run (verifyResolverOf opts) (evaluationOf opts) initialState) = Ok None)
    /\ (Z.of_nat (List.length (upstream (fst (verify opts)))) <= resolveCount (fst (verify opts)))%Z.
Proof.
  assert (withinBudget (effectiveLimit (maxResolveCount opts)) (fst (verify opts))) as Hb.
  { rewrite verify_state. destruct (domainSchema_validate _); [apply initial_withinBudget|].
    apply run_withinBudget, initial_withinBudget. }
  destruct Hb as (_ & Hb & _). revert Hb.
  unfold verify. unfold evaluationOf, verifyResolverOf.
  destruct (domainSchema_validate _) as [err|].
  - intros Hb. eexists. split; [reflexivity|]. split; [left; reflexivity | exact Hb].
  - destruct (run _ _ initialState) as [st [[r|]|e]]; intros Hb.
    + eexists. split; [reflexivity|]. split; [left | exact Hb].
      by rewrite (proj2 (proj2 (proj2 (proj2 (verifyResponse_fields _ _ _ _ _ _))))).
    + eexists. split; [reflexivity|]. split; [right; repeat split | exact Hb].
    + eexists. split; [reflexivity|]. split; [left | exact Hb].
      by rewrite (proj2 (proj2 (proj2 (proj2 (verifyResponse_fields _ _ _ _ _ _))))).
Qed.

(** X6. A sender whose domain the Joi schema refuses: no DNS query is
    made, the evaluator is not started, and the result is none, with zero
    lookups reported. *)
Theorem verify_invalid_domain `{Libmime, Os, Joi, Dns, SpfVerify} (opts : verifyOpts) err :
  domainSchema_validate (senderDomain (normalSender (sender opts) (helo opts))) = Some err ->
  exists resp,
    verify opts = (initialState, Ok resp)
    /\ st_result (r_status resp) = JStr "none"
    /\ st_comment (r_status resp)
       = JStr (orElse (mta opts) hostname +:+ ": "
               +:+ senderDomain (normalSender (sender opts) (helo opts))
               +:+ " does not designate permitted sender hosts")
    /\ r_lookups resp = Some (Number (effectiveLimit (maxResolveCount opts)), Number 0).
Proof.
  intros Hv. unfold verify. rewrite Hv. eexists. split; [reflexivity|]. by repeat split.
Qed.

Lemma verify_invalid_domain_witness :
  exists resp,
    @verify sampleLibmime sampleOs strictJoi sampleDns sampleSpfVerify sampleOpts
    = (initialState, Ok resp)
    /\ st_result (r_status resp) = JStr "none"
    /\ st_comment (r_status resp)
       = JStr "mx.example.com: example.com does not designate permitted sender hosts"
    /\ r_lookups resp = Some (Number 3, Number 0).
Proof.
  apply (@verify_invalid_domain sampleLibmime sampleOs strictJoi sampleDns sampleSpfVerify
           sampleOpts (newError "must be a valid domain")).
  reflexivity.
Defined.

(** X7. An error thrown while the record is evaluated does not leave
    [verify]: with an SPF outcome attached, the response is the one of
    that outcome; without one, the result is temperror and the comment
    ends with the message of the error. *)
Theorem verify_thrown_error `{Libmime, Os, Joi, Dns, SpfVerify} (opts : verifyOpts) st e :
  domainSchema_validate (senderDomain (normalSender (sender opts) (helo opts))) = None ->
  run (verifyResolverOf opts) (evaluationOf opts) initialState = (st, Throw e) ->
  let mta := orElse (mta opts) hostname in
  let sender := normalSender (sender opts) (helo opts) in
  let lookups := Some (Number (effectiveLimit (maxResolveCount opts)), Number (resolveCount st)) in
  exists resp,
    verify opts = (st, Ok resp)
    /\ match spfResult e with
       | Some outcome =>
           resp = verifyResponse mta sender (senderDomain sender) (normalIp (ip opts)) (helo opts)
                    (Some (withLookups outcome lookups))
       | None =>
           st_result (r_status resp) = JStr "temperror"
           /\ st_comment (r_status resp)
              = JStr (mta +:+ ": error in processing during lookup of " +:+ sender
                      +:+ (if String.eqb (message e) "" then "" else ": " +:+ message e))
       end.
Proof.
  intros Hv Hrun. unfold verify. rewrite Hv.
  unfold evaluationOf, verifyResolverOf in Hrun. rewrite Hrun.
  eexists. split; [reflexivity|].
  destruct (spfResult e) as [outcome|]; [reflexivity|]. by split.
Qed.

Lemma verify_thrown_error_witness :
  exists resp,
    @verify sampleLibmime sampleOs sampleJoi sampleDns failingSpfVerify sampleOpts
    = (initialState, Ok resp)
    /\ st_result (r_status resp) = JStr "temperror"
    /\ st_comment (r_status resp)
       = JStr ("mx.example.com: error in processing during lookup of alice@example.com"
               +:+ ": socket hang up").
Proof.
  apply (@verify_thrown_error sampleLibmime sampleOs sampleJoi sampleDns failingSpfVerify
           sampleOpts initialState (newError "socket hang up")); reflexivity.
Defined.

(** ** SPF: the sender, its domain and the client address *)

Lemma indexOf_app_stop x a b :
  indexOf x a = None -> indexOf x (a ++ x :: b) = Some (List.length a).
Proof.
  induction a as [|c a IH]; simpl; [by rewrite Ascii.eqb_refl|].
  destruct (Ascii.eqb c x); [discriminate|].
  destruct (indexOf x a); [discriminate|]. intros _. by rewrite IH.
Qed.

(** X8. The sender [verify] works with always has a local part: its first
    at sign is not its first character. A sender that is given with a
    local part is left as it is. *)
Theorem normalSender_local_part (sender helo : option string) :
  (exists n, indexOf "@"%char (chars (normalSender sender helo)) = Some (S n))
  /\ (forall s n, sender = Some s -> indexOf "@"%char (chars s) = Some (S n) ->
      normalSender sender helo = s).
Proof.
  split.
  - unfold normalSender.
    destruct (indexOf "@"%char (chars (orElse sender _))) as [[|n]|] eqn:E.
    + rewrite chars_app. change (chars "postmaster") with (chars "postmaste" ++ ["r"%char]).
      rewrite <- app_assoc.
      destruct (chars (orElse sender _)) as [|c r]; [discriminate|].
      simpl in E. destruct (Ascii.eqb c "@"%char) eqn:Ec.
      * apply Ascii.eqb_eq in Ec. subst c. by eexists.
      * destruct (indexOf "@"%char r); discriminate.
    + by eexists.
    + rewrite chars_app. change (chars "postmaster@") with (chars "postmaster" ++ ["@"%char]).
      rewrite <- app_assoc. simpl. by eexists.
  - intros s n -> Hs. unfold normalSender, orElse.
    destruct (String.eqb s "") eqn:E; [apply String.eqb_eq in E; by subst|].
    by rewrite Hs.
Qed.

Lemma lowerChar_at c : lowerChar c = "@"%char -> c = "@"%char.
Proof. destruct c as [[] [] [] [] [] [] [] []]; vm_compute; congruence. Qed.

(** X9. The domain [verify] evaluates is never empty (a hyphen stands for
    an empty one), holds no at sign, is in lower case and has no white
    space around it. *)
Theorem senderDomain_shape (sender : string) :
  let domain := senderDomain sender in
  domain <> ""
  /\ ~ In "@"%char (chars domain)
  /\ toLowerCase domain = domain
  /\ trim domain = domain.
Proof.
  unfold senderDomain, orElse.
  set (l := afterLast "@"%char (chars sender)).
  destruct (String.eqb (trim (toLowerCase (str l))) "") eqn:E.
  { cbv zeta. split; [discriminate|]. split; [|split; reflexivity].
    simpl. intros [?|[]]. discriminate. }
  cbv zeta. split; [by apply String.eqb_neq in E|].
  unfold trim, toLowerCase. rewrite !chars_str.
  assert (Forall (fun c => c <> "@"%char) l) as Hl.
  { unfold l, afterLast. apply List.Forall_rev.
    eapply List.Forall_impl; [|apply takeWhile_Forall].
    intros c Hc ->. by rewrite Ascii.eqb_refl in Hc. }
  split; [|split].
  - assert (Forall (fun c => c <> "@"%char) (trimL (map lowerChar l))) as HF.
    { apply trimL_Forall. apply List.Forall_forall. intros c Hc.
      apply List.in_map_iff in Hc as (c0 & <- & Hc0). intros Ec. apply lowerChar_at in Ec.
      rewrite List.Forall_forall in Hl. by apply (Hl _ Hc0). }
    rewrite List.Forall_forall in HF. intros Hin. by apply (HF _ Hin).
  - f_equal.
    assert (Forall (fun c => lowerChar c = c) (trimL (map lowerChar l))) as HF.
    { apply trimL_Forall. apply List.Forall_forall. intros c Hc.
      apply List.in_map_iff in Hc as (c0 & <- & _). apply lowerChar_idem. }
    induction HF as [|c r Hc _ IH]; [reflexivity|]. simpl. by rewrite Hc, IH.
  - by rewrite trimL_idem.
Qed.

Lemma splitOn_members x l c :
  In c l -> c = x \/ exists p, In p (splitOn x l) /\ In c p.
Proof.
  induction l as [|d l IH]; [intros []|]. intros Hin. simpl.
  destruct (Ascii.eqb d x) eqn:E.
  - destruct Hin as [->|Hin]; [left; by apply Ascii.eqb_eq|].
    destruct (IH Hin) as [?|(p & Hp & Hc)]; [by left|]. right. exists p. split; [by right|exact Hc].
  - destruct Hin as [->|Hin].
    + right. destruct (splitOn x l) as [|h t]; eexists; (split; [by left|by left]).
    + destruct (IH Hin) as [?|(p & Hp & Hc)]; [by left|]. right.
      destruct (splitOn x l) as [|h t]; [destruct Hp|].
      destruct Hp as [->|Hp]; [exists (d :: p); split; [by left|by right]|].
      exists p. split; [by right|exact Hc].
Qed.

Lemma dottedQuad_no_colon l : isDottedQuad l = true -> ~ In ":"%char l.
Proof.
  unfold isDottedQuad. intros H Hin. apply andb_true_iff in H as [_ H].
  rewrite forallb_forall in H.
  destruct (splitOn_members "."%char l _ Hin) as [?|(p & Hp & Hc)]; [discriminate|].
  specialize (H p Hp). apply andb_true_iff in H as [_ H].
  rewrite forallb_forall in H. specialize (H _ Hc). discriminate.
Qed.

Lemma takeWhile_app_stop {A} (p : A -> bool) a c b :
  Forall (fun x => p x = true) a -> p c = false -> takeWhile p (a ++ c :: b) = a.
Proof.
  induction 1 as [|x a Hx _ IH]; intros Hc; simpl; [by rewrite Hc|]. by rewrite Hx, IH.
Qed.

Lemma dropWhile_app_all {A} (p : A -> bool) a b :
  Forall (fun x => p x = true) a -> dropWhile p (a ++ b) = dropWhile p b.
Proof. induction 1 as [|x a Hx _ IH]; simpl; [reflexivity|]. by rewrite Hx. Qed.

Lemma takeWhile_dropWhile {A} (p : A -> bool) l : takeWhile p l ++ dropWhile p l = l.
Proof. induction l as [|c l IH]; simpl; [reflexivity|]. destruct (p c); simpl; by rewrite ?IH. Qed.

Lemma dropWhile_stops {A} (p : A -> bool) l c r : dropWhile p l = c :: r -> p c = false.
Proof.
  induction l as [|d l IH]; simpl; [discriminate|].
  destruct (p d) eqn:E; [exact IH|]. by intros [= <- <-].
Qed.

Lemma last_split x l :
  In x l -> l = beforeLast x l ++ x :: afterLast x l.
Proof.
  intros Hin. unfold beforeLast, afterLast.
  rewrite <- (rev_involutive l) at 1. apply List.in_rev in Hin.
  set (p := fun c => negb (Ascii.eqb c x)).
  revert Hin. generalize (rev l). clear l. intros l Hin.
  pose proof (takeWhile_dropWhile p l) as Hs.
  destruct (dropWhile p l) as [|c r] eqn:Hd.
  - exfalso. rewrite app_nil_r in Hs.
    pose proof (takeWhile_Forall p l) as HF. rewrite Hs in HF.
    rewrite List.Forall_forall in HF.
    specialize (HF x Hin). unfold p in HF. by rewrite Ascii.eqb_refl in HF.
  - apply dropWhile_stops in Hd. unfold p in Hd. apply negb_false_iff, Ascii.eqb_eq in Hd.
    subst c. simpl. rewrite <- Hs at 1.
    rewrite rev_app_distr. simpl. by rewrite <- app_assoc.
Qed.

Lemma last_split_unique x a b :
  ~ In x b -> beforeLast x (a ++ x :: b) = a /\ afterLast x (a ++ x :: b) = b.
Proof.
  intros Hb. unfold beforeLast, afterLast.
  rewrite rev_app_distr. simpl. rewrite <- app_assoc. simpl.
  assert (Forall (fun c => negb (Ascii.eqb c x) = true) (rev b)) as HF.
  { apply List.Forall_rev, List.Forall_forall. intros c Hc.
    apply negb_true_iff, Ascii.eqb_neq. intros ->. by apply Hb. }
  split.
  - rewrite dropWhile_app_all by exact HF. simpl. rewrite Ascii.eqb_refl. simpl.
    apply rev_involutive.
  - rewrite takeWhile_app_stop; [apply rev_involutive | exact HF |].
    by rewrite Ascii.eqb_refl.
Qed.

(** X10. The client address: [verify] replaces an address by a dotted quad
    exactly when the address is a non-empty run of colons and letters A to
    F (of either case), a colon, and that dotted quad, as an IPv4-mapped
    IPv6 address is; an address without a colon is left as it is. *)
Theorem mappingMatch_mapped (s q : string) :
  (mappingMatch s = Some q
   <-> exists prefix,
        s = str (prefix ++ ":"%char :: chars q)
        /\ prefix <> [] /\ forallb isMappingPrefixChar prefix = true
        /\ isDottedQuad (chars q) = true)
  /\ (~ In ":"%char (chars s) -> normalIp (Some s) = JStr s).
Proof.
  split; [split|].
  - unfold mappingMatch. destruct (existsb _ (chars s)) eqn:Hex; [|discriminate].
    apply existsb_exists in Hex as (c & Hc & Ec). apply Ascii.eqb_eq in Ec. subst c.
    destruct (negb (Nat.eqb (List.length (beforeLast ":"%char (chars s))) 0)
              && forallb isMappingPrefixChar (beforeLast ":"%char (chars s))
              && isDottedQuad (afterLast ":"%char (chars s))) eqn:Hok; [|discriminate].
    intros [= <-]. apply andb_true_iff in Hok as [Hok Hq].
    apply andb_true_iff in Hok as [Hne Hp].
    exists (beforeLast ":"%char (chars s)). rewrite chars_str.
    split; [by rewrite <- last_split, str_chars|].
    split; [intros E; by rewrite E in Hne|]. by split.
  - intros (prefix & -> & Hne & Hp & Hq). unfold mappingMatch. rewrite chars_str.
    assert (existsb (Ascii.eqb ":"%char) (prefix ++ ":"%char :: chars q) = true) as ->.
    { apply existsb_exists. exists ":"%char. split; [|reflexivity].
      apply in_or_app. right. by left. }
    destruct (last_split_unique ":"%char prefix (chars q)) as [-> ->];
      [by apply dottedQuad_no_colon|].
    rewrite Hp, Hq. destruct prefix; [done|]. simpl. by rewrite str_chars.
  - intros Hn. unfold normalIp, mappingMatch, orElse.
    destruct (String.eqb s "") eqn:E.
    + apply String.eqb_eq in E. by subst.
    + destruct (existsb _ (chars s)) eqn:Hex; [|reflexivity].
      apply existsb_exists in Hex as (c & Hc & Ec). apply Ascii.eqb_eq in Ec. by subst c.
Qed.

(** ** SPF: the counting resolver *)

Lemma query_not_bookkeeping d t :
  isQuery d t = true ->
  (negb (truthy d) && String.eqb t "resolveCount") = false
  /\ (negb (truthy d) && String.eqb t "resolveLimit") = false.
Proof.
  unfold isQuery. destruct (truthy d); simpl; [done|].
  destruct (String.eqb t "resolveCount"), (String.eqb t "resolveLimit"); done.
Qed.

(** X11. What the counting resolver makes of an error of the wrapped
    resolver, for a query within the budget: the query is counted and
    logged; a name that is not found, or has no data, is an empty answer;
    a timeout is thrown on with the SPF outcome temperror, DNS timeout;
    any other error is thrown on as it is. *)
Theorem limitedResolver_upstream_error (resolver : resolver_t) (maxResolveCount : option Z)
    d t st e :
  isQuery d t = true ->
  (resolveCount st + 1 <= effectiveLimit maxResolveCount)%Z ->
  laxDomain (toString d) = true ->
  resolver (upstream st) d t = Throw e ->
  let out := limitedResolver resolver maxResolveCount d t st in
  fst out = mkResolverState (resolveCount st + 1) (upstream st ++ [(d, t)])
  /\ (code e = Some "ENOTFOUND" \/ code e = Some "ENODATA" -> snd out = Ok (Records []))
  /\ (code e = Some "ETIMEOUT" ->
      snd out = Throw (mkError (err_name e) (message e) (code e) (err_rr e)
                         (Some (mkSpfResult None (Some "temperror") (Some "DNS timeout")
                                  None None))))
  /\ (code e <> Some "ENOTFOUND" -> code e <> Some "ENODATA" -> code e <> Some "ETIMEOUT" ->
      snd out = Throw e).
Proof.
  intros Hq Hle Hd Hr. unfold limitedResolver.
  destruct (query_not_bookkeeping d t Hq) as [-> ->].
  cbv zeta. simpl resolveCount. simpl upstream.
  destruct (Z.ltb_spec (effectiveLimit maxResolveCount) (resolveCount st + 1)) as [Hlt|_]; [lia|].
  rewrite Hd, Hr. simpl negb. cbv iota.
  destruct (code e) as [c|].
  - destruct (String.eqb_spec c "ENOTFOUND") as [->|Hn1]; simpl.
    { split; [reflexivity|]. split; [reflexivity|]. split; [discriminate|]. by intros Hn. }
    destruct (String.eqb_spec c "ENODATA") as [->|Hn2]; simpl.
    { split; [reflexivity|]. split; [reflexivity|]. split; [discriminate|]. by intros _ Hn. }
    destruct (String.eqb_spec c "ETIMEOUT") as [->|Hn3]; simpl.
    { split; [reflexivity|]. split; [intros [?|?]; discriminate|]. split; [reflexivity|].
      by intros _ _ Hn. }
    split; [reflexivity|]. split; [intros [[= ?]|[= ?]]; by subst|].
    split; [intros [= ?]; by subst | reflexivity].
  - split; [reflexivity|]. split; [intros [?|?]; discriminate|]. split; [discriminate|reflexivity].
Qed.

Lemma limitedResolver_upstream_error_witness :
  let out := limitedResolver notFoundResolver None (JStr "example.com") "TXT" initialState in
  fst out = mkResolverState 1 [(JStr "example.com", "TXT")]
  /\ snd out = Ok (Records []).
Proof.
  destruct (limitedResolver_upstream_error notFoundResolver None (JStr "example.com") "TXT"
              initialState (mkError "Error" "queryTxt ENOTFOUND" (Some "ENOTFOUND") None None))
    as (Hst & Hnf & _); [reflexivity | vm_compute; discriminate | reflexivity | reflexivity |].
  split; [exact Hst | apply Hnf; by left].
Defined.

(** X12. Once the counter has reached the limit, nothing is sent to the
    wrapped resolver any more, whatever the evaluation goes on to ask and
    whether or not it catches the refusals; each query is refused with the
    error Too many DNS requests. *)
Theorem exhausted_budget_sends_nothing (resolver : resolver_t) (maxResolveCount : option Z)
    (p : spf_eval) (st : resolverState) :
  (effectiveLimit maxResolveCount <= resolveCount st)%Z ->
  upstream (fst (run (limitedResolver resolver maxResolveCount) p st)) = upstream st
  /\ forall d t, isQuery d t = true ->
       snd (limitedResolver resolver maxResolveCount d t st) = Throw tooManyRequests.
Proof.
  intros Hle. split.
  - apply (run_invariant
             (fun s => (effectiveLimit maxResolveCount <= resolveCount s)%Z
                       /\ upstream s = upstream st)
             (limitedResolver resolver maxResolveCount)); [|by split].
    intros d t s [Hs Hu]. destruct (isQuery d t) eqn:Hq.
    + destruct (query_step resolver maxResolveCount d t s Hq) as (Hc & Hover & _).
      rewrite Hover by lia. simpl. split; [lia | exact Hu].
    + by destruct (bookkeeping_keeps_state resolver maxResolveCount d t s Hq) as [-> _].
  - intros d t Hq.
    destruct (query_step resolver maxResolveCount d t st Hq) as (_ & Hover & _).
    by rewrite Hover by lia.
Qed.

Lemma exhausted_budget_sends_nothing_witness :
  upstream (fst (run (limitedResolver (@dns_resolve sampleDns) None) (stubbornChain 3)
                   exhaustedState)) = []
  /\ forall d t, isQuery d t = true ->
       snd (limitedResolver (@dns_resolve sampleDns) None d t exhaustedState)
       = Throw tooManyRequests.
Proof.
  apply (exhausted_budget_sends_nothing (@dns_resolve sampleDns) None (stubbornChain 3)
           exhaustedState).
  vm_compute. discriminate.
Defined.

Lemma step_onlyValidQueries (resolver : resolver_t) (maxResolveCount : option Z) d t st :
  onlyValidQueries st ->
  onlyValidQueries (fst (limitedResolver resolver maxResolveCount d t st)).
Proof.
  intros Hst. destruct (isQuery d t) eqn:Hq.
  - unfold limitedResolver. destruct (query_not_bookkeeping d t Hq) as [-> ->].
    cbv zeta. simpl resolveCount. simpl upstream.
    destruct (_ <? _)%Z; [exact Hst|].
    destruct (laxDomain (toString d)) eqn:Hd; simpl negb; cbv iota; [|exact Hst].
    assert (onlyValidQueries (mkResolverState (resolveCount st + 1) (upstream st ++ [(d, t)])))
      as Hnew.
    { unfold onlyValidQueries. simpl. apply List.Forall_app. split; [exact Hst|].
      constructor; [by split | constructor]. }
    destruct (resolver (upstream st) d t) as [a|e]; [exact Hnew|].
    destruct (code e) as [c|]; [|exact Hnew].
    destruct (String.eqb c "ENOTFOUND" || String.eqb c "ENODATA"); [exact Hnew|].
    destruct (String.eqb c "ETIMEOUT"); exact Hnew.
  - by destruct (bookkeeping_keeps_state resolver maxResolveCount d t st Hq) as [-> _].
Qed.

(** X13. [verify] sends the wrapped resolver nothing but queries for names
    that pass the domain test of the counting resolver: a name that fails
    it is refused before any DNS traffic, and the two bookkeeping calls
    are answered by the counter itself. *)
Theorem verify_sends_valid_queries `{Libmime, Os, Joi, Dns, SpfVerify} (opts : verifyOpts) :
  onlyValidQueries (fst (verify opts)).
Proof.
  rewrite verify_state. destruct (domainSchema_validate _); [constructor|].
  apply (run_invariant onlyValidQueries); [|constructor].
  intros d t st. apply step_onlyValidQueries.
Qed.

(** A name that passes the domain test is no property objects inherit. *)
Lemma laxDomain_not_inherited (name : string) :
  laxDomain name = true -> includes objectPrototype name = false.
Proof.
  intros Hd. destruct (includes objectPrototype name) eqn:Hin; [|reflexivity].
  unfold includes in Hin. apply existsb_exists in Hin as (x & Hx & Heq).
  apply String.eqb_eq in Heq. subst x.
  simpl in Hx.
  repeat (destruct Hx as [<-|Hx]; [vm_compute in Hd; discriminate Hd|]).
  destruct Hx.
Qed.

(** X14. The report command's resolver behind the counting resolver. For
    a name that passes the domain test and a record type that is no
    property objects inherit, the resolver of [cmd] reads own properties
    only: it returns the answer the file has for the name and the record
    type, and throws the error of code ENOTFOUND where the file has none
    or has the number zero. A query within the budget to a resolver that
    does the same never fails: a name or record type the file does not
    have reads as an empty answer, the same as a domain without such
    records. *)
Theorem cacheResolver_limited (dnsCache : gmap string (gmap string answer))
    (resolver : resolver_t) (maxResolveCount : option Z) (name rr : string)
    (st : resolverState) :
  (resolveCount st + 1 <= effectiveLimit maxResolveCount)%Z ->
  laxDomain name = true ->
  includes objectPrototype rr = false ->
  (forall found, cacheResolver dnsCache (JStr name) rr = Returns found ->
                 resolver (upstream st) (JStr name) rr = Ok found) ->
  (forall e, cacheResolver dnsCache (JStr name) rr = Throws e ->
             resolver (upstream st) (JStr name) rr = Throw e) ->
  cacheResolver dnsCache (JStr name) rr
  = match dnsCache !! name ≫= (.!! rr) with
    | Some (Number 0) | None => Throws notFound
    | Some found => Returns found
    end
  /\ limitedResolver resolver maxResolveCount (JStr name) rr st
     = (mkResolverState (resolveCount st + 1) (upstream st ++ [(JStr name, rr)]),
        Ok (match dnsCache !! name ≫= (.!! rr) with
            | Some (Number 0) | None => Records []
            | Some found => found
            end)).
Proof.
  intros Hle Hd Hrr Hfound Hthrows.
  assert (cacheResolver dnsCache (JStr name) rr
          = match dnsCache !! name ≫= (.!! rr) with
            | Some (Number 0) | None => Throws notFound
            | Some found => Returns found
            end) as Hcache.
  { unfold cacheResolver. simpl toString.
    destruct (dnsCache !! name) as [entry|]; cbn [mbind option_bind].
    - destruct (entry !! rr) as [[l|n]|]; [reflexivity|by destruct n|].
      rewrite Hrr. reflexivity.
    - rewrite (laxDomain_not_inherited name Hd). reflexivity. }
  split; [exact Hcache|].
  unfold limitedResolver.
  assert (truthy (JStr name) = true) as ->.
  { destruct name; [discriminate|reflexivity]. }
  simpl negb. simpl andb. cbv iota zeta. simpl resolveCount. simpl upstream.
  destruct (Z.ltb_spec (effectiveLimit maxResolveCount) (resolveCount st + 1)) as [Hlt|_]; [lia|].
  simpl toString. rewrite Hd. simpl negb. cbv iota.
  destruct (dnsCache !! name ≫= (.!! rr)) as [[l|n]|].
  - rewrite (Hfound _ Hcache). reflexivity.
  - destruct n; [rewrite (Hthrows _ Hcache) | rewrite (Hfound _ Hcache)
                 | rewrite (Hfound _ Hcache)]; reflexivity.
  - rewrite (Hthrows _ Hcache). reflexivity.
Qed.

Lemma cacheResolver_limited_witness :
  (cacheResolver sampleCache (JStr "example.com") "TXT" = Returns (Records [Txt ["v=spf1 -all"]])
   /\ limitedResolver sampleCacheResolver None (JStr "example.com") "TXT" initialState
      = (mkResolverState 1 [(JStr "example.com", "TXT")], Ok (Records [Txt ["v=spf1 -all"]])))
  /\ (cacheResolver sampleCache (JStr "example.org") "TXT" = Throws notFound
      /\ limitedResolver sampleCacheResolver None (JStr "example.org") "TXT" initialState
         = (mkResolverState 1 [(JStr "example.org", "TXT")], Ok (Records []))).
Proof.
  split.
  - apply (cacheResolver_limited sampleCache sampleCacheResolver None "example.com" "TXT"
             initialState).
    + vm_compute. discriminate.
    + reflexivity.
    + reflexivity.
    + intros found Hfound. unfold sampleCacheResolver. rewrite Hfound. reflexivity.
    + intros e He. unfold sampleCacheResolver. rewrite He. reflexivity.
  - apply (cacheResolver_limited sampleCache sampleCacheResolver None "example.org" "TXT"
             initialState).
    + vm_compute. discriminate.
    + reflexivity.
    + reflexivity.
    + intros found Hfound. unfold sampleCacheResolver. rewrite Hfound. reflexivity.
    + intros e He. unfold sampleCacheResolver. rewrite He. reflexivity.
Defined.

(** A record type that is a property objects inherit: the resolver of
    [cmd] returns the inherited value, which is no answer. *)
Example cacheResolver_inherited :
  cacheResolver sampleCache (JStr "example.com") "constructor" = ReturnsInherited "constructor"
  /\ cacheResolver sampleCache (JStr "example.com") "A" = Throws notFound
  /\ cacheResolver sampleCache (JStr "toString") "TXT" = ReadsInherited "toString" "TXT".
Proof. repeat split. Qed.

(** ** Escaped values and the Authentication-Results row *)

Lemma unescape_escapeChars (p : ascii -> bool) l :
  p "\"%char = true -> unescapeL (escapeChars p l) = l.
Proof.
  intros Hp. induction l as [|c l IH]; [reflexivity|].
  unfold escapeChars in *. cbn [flat_map]. destruct (p c) eqn:E.
  - cbn. by rewrite IH.
  - cbn [app unescapeL]. destruct (Ascii.eqb_spec c "\"%char) as [->|_]; [congruence|].
    by rewrite IH.
Qed.

Lemma escapeChars_allEscaped (p : ascii -> bool) l :
  p "\"%char = true -> allEscaped p (escapeChars p l).
Proof.
  intros Hp. induction l as [|c l IH]; [exact I|].
  unfold escapeChars in *. cbn [flat_map]. destruct (p c) eqn:E.
  - cbn. exact IH.
  - cbn [app allEscaped]. destruct (Ascii.eqb_spec c "\"%char) as [->|_]; [congruence|].
    by split.
Qed.

Lemma escapePropValue_controlFree v : controlFree (escapePropValue v).
Proof.
  unfold controlFree, escapePropValue. fold (cleanValue v).
  destruct (negb (existsb isPropSpecial (cleanValue v))); rewrite chars_str.
  - apply cleanValue_shape.
  - constructor; [reflexivity|]. apply List.Forall_app. split; [|by repeat constructor].
    apply escapeChars_Forall; [reflexivity | apply cleanValue_shape].
Qed.

(** X15. An escaped comment value holds no control character (so no CR
    and no LF), and no closing bracket or backslash that is not escaped:
    it cannot end the comment it is put in, nor the header line. Read
    back, it is the value with its runs of control characters and white
    space made single spaces, trimmed. *)
Theorem escapeCommentValue_safe (value : jsval) :
  let out := chars (escapeCommentValue value) in
  Forall (fun c => isControl c = false) out
  /\ allEscaped (fun c => Ascii.eqb c "\"%char || Ascii.eqb c ")"%char) out
  /\ unescapeL out = cleanValue value
  /\ singleSpaced (cleanValue value)
  /\ noLeadingSpace (cleanValue value) /\ noTrailingSpace (cleanValue value).
Proof.
  cbv zeta. unfold escapeCommentValue. fold (cleanValue value). rewrite chars_str.
  destruct (cleanValue_shape value) as (Hc & Hs & Hl & Ht).
  split; [rewrite <- (chars_str (escapeChars _ _)); apply (escapeCommentValue_controlFree value)|].
  split; [by apply escapeChars_allEscaped|].
  split; [by apply unescape_escapeChars|]. by repeat split.
Qed.

(** X16. An escaped property value holds no control character and is
    either a token, the cleaned value itself, with no white space, no
    character above DEL and none of the specials of a header parameter,
    or a quoted string: between two double quotes, a text in which every
    double quote and backslash is escaped and which reads back as the
    cleaned value. *)
Theorem escapePropValue_token_or_quoted (value : jsval) :
  let out := chars (escapePropValue value) in
  Forall (fun c => isControl c = false) out
  /\ (out = cleanValue value /\ Forall (fun c => isPropSpecial c = false) out
      \/ exists inner,
           out = DQUOTE :: inner ++ [DQUOTE]
           /\ allEscaped (fun c => Ascii.eqb c DQUOTE || Ascii.eqb c "\"%char) inner
           /\ unescapeL inner = cleanValue value).
Proof.
  cbv zeta. unfold escapePropValue. fold (cleanValue value).
  destruct (cleanValue_shape value) as (Hc & _).
  destruct (existsb isPropSpecial (cleanValue value)) eqn:E; simpl negb; cbv iota;
    rewrite chars_str.
  - split.
    + constructor; [reflexivity|]. apply List.Forall_app. split; [|by repeat constructor].
      by apply escapeChars_Forall.
    + right. eexists. split; [reflexivity|].
      split; [by apply escapeChars_allEscaped | by apply unescape_escapeChars].
  - split; [exact Hc|]. left. split; [reflexivity|].
    apply List.Forall_forall. intros c Hin.
    destruct (isPropSpecial c) eqn:Ec; [|reflexivity].
    assert (existsb isPropSpecial (cleanValue value) = true) as Hex
      by (apply existsb_exists; eauto).
    congruence.
Qed.

Lemma controlFree_joinWith sep l :
  controlFree sep -> Forall controlFree l -> controlFree (joinWith sep l).
Proof.
  intros Hsep. induction 1 as [|x l Hx Hl IH]; [constructor|].
  destruct l as [|y l]; [exact Hx|].
  change (controlFree (x +:+ sep +:+ joinWith sep (y :: l))).
  by repeat apply controlFree_app.
Qed.

Ltac control_free :=
  repeat first [ assumption
               | apply escapePropValue_controlFree
               | apply escapeCommentValue_controlFree
               | solve [unfold controlFree; simpl; repeat constructor]
               | apply controlFree_app ].

Lemma ptypeRows_controlFree ptype group :
  controlFree ptype ->
  Forall (fun row => controlFree row.1) (default [] group) ->
  Forall controlFree (ptypeRows ptype group).
Proof.
  intros Hp. unfold ptypeRows. destruct group as [props|]; [|constructor].
  simpl. induction 1 as [|[prop v] props Hprop _ IH]; [constructor|].
  cbn [flat_map]. destruct (truthy v); [|exact IH].
  apply List.Forall_app. split; [|exact IH]. constructor; [|constructor].
  simpl in Hprop. control_free.
Qed.

(** X17. No value can break out of an Authentication-Results row: when the
    method, the result and the names of the properties hold no control
    character, the row holds none, whatever the comment and the values of
    the properties are; in particular no CR and no LF. *)
Theorem formatAuthHeaderRow_controlFree (method : string) (st : status) :
  controlFree method ->
  controlFree (toString (st_result st)) ->
  Forall (fun row => controlFree row.1)
    (default [] (st_policy st) ++ default [] (st_smtp st)
     ++ default [] (st_body st) ++ default [] (st_header st)) ->
  controlFree (formatAuthHeaderRow method st).
Proof.
  intros Hm Hr Hprops.
  apply List.Forall_app in Hprops as [Hpol Hprops].
  apply List.Forall_app in Hprops as [Hsmtp Hprops].
  apply List.Forall_app in Hprops as [Hbody Hhdr].
  unfold formatAuthHeaderRow. apply controlFree_joinWith; [control_free|].
  apply List.Forall_app; split; [apply List.Forall_app; split|].
  - constructor; [|constructor].
    destruct (truthy (st_result st)); control_free.
  - destruct (truthy (st_comment st)); [|constructor].
    constructor; [|constructor]. control_free.
  - apply List.Forall_app; split; [by apply ptypeRows_controlFree; [control_free|]|].
    apply List.Forall_app; split; [by apply ptypeRows_controlFree; [control_free|]|].
    apply List.Forall_app; split; by apply ptypeRows_controlFree; [control_free|].
Qed.

Lemma formatAuthHeaderRow_controlFree_witness :
  controlFree (formatAuthHeaderRow "spf" hostileStatus).
Proof.
  apply (formatAuthHeaderRow_controlFree "spf" hostileStatus).
  - control_free.
  - control_free.
  - simpl. repeat constructor.
Defined.

(** ** DMARC alignment: the value returned *)

Lemma findDomain_value `{Punycode, Psl} (test : string -> bool) (domainList : list string) d :
  findDomain test domainList = Some d ->
  exists domain, In domain domainList /\ d = formatDomain (orgDomain domain) /\ test d = true.
Proof.
  induction domainList as [|x l IH]; simpl; [discriminate|].
  destruct (test (formatDomain (orgDomain x))) eqn:E.
  - intros [= <-]. exists x. auto.
  - intros Hf. destruct (IH Hf) as (y & Hin & Hd & Ht). exists y. auto.
Qed.

(** X18. What [getAligment] returns when it aligns: never the From domain
    as given nor a domain of the list as given, but the formatted
    organizational domain of a domain of the list; it is the formatted
    organizational domain of the From domain, or, in strict mode, a name
    whose formatted form is that of the From domain. With an empty list
    nothing aligns. *)
Theorem getAligment_value `{Punycode, Psl} (fromDomain : string) (domainList : list string)
    (strict : bool) (aligned : string) :
  getAligment fromDomain domainList strict = Some aligned ->
  (exists domain, In domain domainList /\ aligned = formatDomain (orgDomain domain))
  /\ (aligned = formatDomain (orgDomain (if strict then formatDomain fromDomain else fromDomain))
      \/ strict = true /\ formatDomain aligned = formatDomain fromDomain)
  /\ getAligment fromDomain [] strict = None.
Proof.
  intros Ha. split; [|split].
  - unfold getAligment in Ha.
    destruct strict.
    + destruct (findDomain _ domainList) as [d|] eqn:Hs.
      * injection Ha as <-. destruct (findDomain_value _ _ _ Hs) as (x & Hin & Hd & _). eauto.
      * destruct (findDomain_value _ _ _ Ha) as (x & Hin & Hd & _). eauto.
    + destruct (findDomain_value _ _ _ Ha) as (x & Hin & Hd & _). eauto.
  - unfold getAligment in Ha.
    destruct strict.
    + destruct (findDomain _ domainList) as [d|] eqn:Hs.
      * injection Ha as <-. destruct (findDomain_value _ _ _ Hs) as (x & _ & _ & Ht).
        right. split; [reflexivity | by apply String.eqb_eq].
      * destruct (findDomain_value _ _ _ Ha) as (x & _ & _ & Ht).
        left. by apply String.eqb_eq.
    + destruct (findDomain_value _ _ _ Ha) as (x & _ & _ & Ht). left. by apply String.eqb_eq.
  - by destruct strict.
Qed.

Lemma getAligment_value_witness :
  (exists domain,
     In domain ["mail.example.com"; "example.net"]
     /\ "example.com" = @formatDomain samplePunycode (@orgDomain samplePsl domain))
  /\ ("example.com" = @formatDomain samplePunycode (@orgDomain samplePsl "news.example.com")
      \/ false = true
         /\ @formatDomain samplePunycode "example.com"
            = @formatDomain samplePunycode "news.example.com")
  /\ @getAligment samplePunycode samplePsl "news.example.com" [] false = None.
Proof.
  apply (@getAligment_value samplePunycode samplePsl "news.example.com"
           ["mail.example.com"; "example.net"] false "example.com").
  vm_compute. reflexivity.
Defined.

(** ** Signature headers: failures and corner cases *)

Lemma mapM_throw {A B} (f : A -> result B) (l : list A) e :
  mapM f l = Throw e -> exists x, In x l /\ f x = Throw e.
Proof.
  induction l as [|x l IH]; simpl; [discriminate|].
  destruct (f x) as [y|e'] eqn:Ex; cbn [mbind result_bind].
  - destruct (mapM f l) as [k|e'']; cbn [mbind result_bind]; [discriminate|].
    intros [= ->]. destruct (IH eq_refl) as (x' & Hin & Hx). eauto.
  - intros [= ->]. eauto.
Qed.

Lemma mapM_throw_intro {A B} (f : A -> result B) (l : list A) x e :
  In x l -> f x = Throw e ->
  (forall y e', In y l -> f y = Throw e' -> e' = e) ->
  mapM f l = Throw e.
Proof.
  induction l as [|y l IH]; simpl; [intros []|].
  intros Hin Hx Hall. destruct (f y) as [b|e'] eqn:Ey; cbn [mbind result_bind].
  - destruct Hin as [->|Hin]; [congruence|].
    rewrite (IH Hin Hx); [reflexivity|].
    intros y' e'' Hy' Hfy. apply (Hall y' e''); [by right | exact Hfy].
  - f_equal. apply (Hall y e'); [by left | exact Ey].
Qed.

Lemma formatTag_throw `{Punycode} type (values : gmap string jsval) folded key e :
  formatTag type values folded key = Throw e
  <-> key = "i" /\ type = "DKIM"
      /\ (exists v, values !! "i" = Some v /\ truthy v = true /\ forall s, v <> JStr s)
      /\ e = typeError "val.indexOf is not a function".
Proof.
  unfold formatTag. cbv zeta. split.
  - destruct (String.eqb key "b" && folded && _); [discriminate|].
    destruct (String.eqb_spec key "i") as [->|Hk]; simpl andb.
    + change (includes ["d"; "s"] "i") with false. cbv iota.
      destruct (String.eqb_spec type "DKIM") as [->|Ht]; [|discriminate].
      unfold jsget. destruct (values !! "i") as [v|]; cbn [from_option id]; [|discriminate].
      destruct (truthy v) eqn:Etv; [|discriminate].
      destruct v as [| |b|n|s]; try discriminate.
      * intros [= <-]. repeat split; try done. exists (JBool b). repeat split; done.
      * intros [= <-]. repeat split; try done. exists (JNum n). repeat split; done.
      * destruct (indexOf "@"%char (chars s)); discriminate.
    + cbv iota. cbn [mbind result_bind]. discriminate.
  - intros (-> & -> & (v & Hv & Htv & Hs) & ->).
    rewrite Hv. unfold jsget. cbn [from_option id]. rewrite Htv.
    change (String.eqb "i" "b") with false. simpl andb. cbv iota.
    change (includes ["d"; "s"] "i") with false. cbv iota.
    destruct v as [| |b|n|s]; try discriminate; try reflexivity.
    by destruct (Hs s).
Qed.

Lemma isEmitted_presentKeys keyOrdering (values : gmap string jsval) key :
  In key (presentKeys keyOrdering values) <-> isEmitted keyOrdering values key = true.
Proof.
  unfold presentKeys. rewrite <- list_elem_of_In, list_elem_of_filter. split; [by intros [? _]|].
  intros He. split; [exact He|]. by apply isEmitted_elem_of in He as [? _].
Qed.

Lemma emittedKeys_present :
  (forall values, emittedKeys keyOrderingDKIM values = presentKeys keyOrderingDKIM values)
  /\ (forall values, emittedKeys keyOrderingARC values = presentKeys keyOrderingARC values)
  /\ (forall values, emittedKeys keyOrderingAS values = presentKeys keyOrderingAS values).
Proof.
  destruct keyOrderings_sorted as ((Hs1 & Hn1) & (Hs2 & Hn2) & (Hs3 & Hn3)).
  repeat split; intros values; by apply emittedKeys_ordered.
Qed.

Lemma mapM_never_throws {A B} (f : A -> result B) (l : list A) :
  (forall x e, In x l -> f x <> Throw e) -> exists k, mapM f l = Ok k.
Proof.
  intros Hf. destruct (mapM f l) as [k|e] eqn:E; [by eexists|].
  destruct (mapM_throw f l e E) as (x & Hin & Hx). by destruct (Hf x e Hin).
Qed.

(** X19. When the making of a signature header fails. It throws for a type
    that is none of DKIM, ARC and AS (in any case of letters), and for a
    DKIM header whose [i] value is a number or [true], which has no
    [indexOf]; it throws in no other case, and an ARC header takes such an
    [i] value. *)
Theorem formatSignatureHeaderLine_throws `{Punycode, Libmime, Clock} (type : string)
    (values : gmap string jsval) (folded : bool) (e : error) :
  formatSignatureHeaderLine type values folded = Throw e
  <-> (~ In (toUpperCase type) ["DKIM"; "ARC"; "AS"] /\ e = newError "Unknown Signature type")
      \/ (toUpperCase type = "DKIM"
          /\ values !! "key" <> Some JNull
          /\ (exists v, values !! "i" = Some v /\ truthy v = true /\ forall s, v <> JStr s)
          /\ e = typeError "val.indexOf is not a function").
Proof.
  destruct emittedKeys_present as (Hk1 & Hk2 & Hk3).
  unfold formatSignatureHeaderLine. cbv zeta.
  destruct (String.eqb_spec (toUpperCase type) "DKIM") as [Ht|Hn1].
  - rewrite Ht. cbn [mbind result_bind]. rewrite Hk1. fold (dkimValues values).
    assert (dkimValues values !! "i" = values !! "i") as Hi.
    { unfold dkimValues, assign. rewrite lookup_union.
      destruct (values !! "i"); reflexivity. }
    assert (dkimValues values !! "key" = values !! "key") as Hkey.
    { unfold dkimValues, assign. rewrite lookup_union.
      destruct (values !! "key"); reflexivity. }
    split.
    + intros Hthrow. right. split; [reflexivity|].
      destruct (mapM _ _) as [tags|e'] eqn:Em; [discriminate|].
      cbn [mbind result_bind] in Hthrow. injection Hthrow as ->.
      destruct (mapM_throw _ _ _ Em) as (key & Hin & Hkeythrow).
      apply formatTag_throw in Hkeythrow as (-> & _ & (v & Hv & Htv & Hs) & ->).
      apply isEmitted_presentKeys in Hin. unfold isEmitted in Hin.
      rewrite Hkey in Hin. rewrite Hi in Hv.
      split; [|split; [eauto|reflexivity]].
      intros Hnull. rewrite Hnull in Hin. clear -Hin.
      destruct (dkimValues values !! "i") as [[| |[]| |]|]; discriminate Hin.
    + intros [[Hno _]|(_ & Hkeyn & (v & Hv & Htv & Hs) & ->)].
      { exfalso. apply Hno. by left. }
      rewrite (mapM_throw_intro _ _ "i" (typeError "val.indexOf is not a function"));
        [reflexivity| | |].
      * apply isEmitted_presentKeys. unfold isEmitted. rewrite Hi, Hkey, Hv.
        destruct v as [| |[]|n|s]; try discriminate.
        -- destruct (values !! "key") as [[]|]; try reflexivity. by destruct Hkeyn.
        -- destruct (values !! "key") as [[]|]; try reflexivity. by destruct Hkeyn.
        -- by destruct (Hs s).
      * apply formatTag_throw. rewrite Hi. repeat split; eauto.
      * intros y e' _ Hy. by apply formatTag_throw in Hy as (_ & _ & _ & ->).
  - destruct (String.eqb_spec (toUpperCase type) "ARC") as [Ht|Hn2].
    + rewrite Ht. cbn [mbind result_bind].
      destruct (mapM_never_throws (formatTag "ARC" (arcValues values) folded)
                  (emittedKeys keyOrderingARC (arcValues values))) as [k Hk].
      { intros x e' _ Hx. by apply formatTag_throw in Hx as (_ & [=] & _). }
      unfold arcValues in Hk. rewrite Hk. cbn [mbind result_bind].
      split; [discriminate|].
      intros [[Hno _]|([=] & _)]. exfalso. apply Hno. right. by left.
    + destruct (String.eqb_spec (toUpperCase type) "AS") as [Ht|Hn3].
      * rewrite Ht. cbn [mbind result_bind].
        destruct (mapM_never_throws (formatTag "AS" (sealValues values) folded)
                    (emittedKeys keyOrderingAS (sealValues values))) as [k Hk].
        { intros x e' _ Hx. by apply formatTag_throw in Hx as (_ & [=] & _). }
        unfold sealValues in Hk. rewrite Hk. cbn [mbind result_bind].
        split; [discriminate|].
        intros [[Hno _]|([=] & _)]. exfalso. apply Hno. right. right. by left.
      * cbn [mbind result_bind]. split.
        -- intros [= <-]. left. split; [|reflexivity].
           intros [?|[?|[?|[]]]]; congruence.
        -- intros [[_ ->]|(? & _)]; [reflexivity | congruence].
Qed.

(** X20. A property called [key] whose value is [null] empties the
    header: the filter of the tags reads [values.key], not the value of
    the tag at hand, so that with it no tag passes, and the header is its
    name and nothing else. *)
Theorem signature_null_key `{Punycode, Libmime, Clock} (type : string)
    (values : gmap string jsval) (folded : bool) :
  values !! "key" = Some JNull ->
  In type ["DKIM"; "ARC"; "AS"] ->
  formatSignatureHeaderLine type values folded
  = Ok (if folded then foldLines (headerKeyOf type +:+ ": ") None
        else headerKeyOf type +:+ ": ").
Proof.
  intros Hnull Ht.
  assert (forall ordering (defaults : gmap string jsval),
             emittedKeys ordering (assign defaults values) = []) as Hnone.
  { intros ordering defaults. unfold emittedKeys.
    assert (filter (fun key => isEmitted ordering (assign defaults values) key = true)
              (map_to_list (assign defaults values)).*1 = []) as ->; [|reflexivity].
    assert (forall key, isEmitted ordering (assign defaults values) key = false) as Hno.
    { intros key. unfold isEmitted.
      assert (assign defaults values !! "key" = Some JNull) as ->.
      { unfold assign. by apply lookup_union_Some_l. }
      by destruct (assign defaults values !! key) as [[| |[]| |]|]. }
    induction ((map_to_list (assign defaults values)).*1) as [|key l IH]; [reflexivity|].
    rewrite filter_cons. destruct (decide _) as [Hyes|_]; [|exact IH].
    by rewrite Hno in Hyes. }
  unfold formatSignatureHeaderLine. cbv zeta.
  destruct Ht as [<-|[<-|[<-|[]]]];
    [change (toUpperCase "DKIM") with "DKIM"
    |change (toUpperCase "ARC") with "ARC"
    |change (toUpperCase "AS") with "AS"];
    cbn [String.eqb Ascii.eqb Bool.eqb mbind result_bind];
    rewrite Hnone; reflexivity.
Qed.

Lemma signature_null_key_witness :
  @formatSignatureHeaderLine idnPunycode sampleLibmime sampleClock "DKIM" nullKeyValues false
  = Ok "DKIM-Signature: ".
Proof.
  apply (@signature_null_key idnPunycode sampleLibmime sampleClock "DKIM" nullKeyValues false).
  - vm_compute. reflexivity.
  - simpl. by left.
Defined.

Lemma filter_dropWhile_space l :
  List.filter (fun c => negb (isSpace c)) (dropWhile isSpace l)
  = List.filter (fun c => negb (isSpace c)) l.
Proof.
  induction l as [|c l IH]; [reflexivity|]. simpl.
  destruct (isSpace c) eqn:E; simpl; [exact IH | by rewrite E].
Qed.

Lemma filter_rev_list {A} (p : A -> bool) l : List.filter p (rev l) = rev (List.filter p l).
Proof.
  induction l as [|c l IH]; [reflexivity|]. simpl.
  rewrite List.filter_app, IH. simpl. destruct (p c); simpl; [reflexivity|].
  by rewrite app_nil_r.
Qed.

Lemma filter_trimL l :
  List.filter (fun c => negb (isSpace c)) (trimL l) = List.filter (fun c => negb (isSpace c)) l.
Proof.
  unfold trimL, ltrimL, rtrimL.
  rewrite filter_dropWhile_space, filter_rev_list, filter_dropWhile_space, filter_rev_list.
  by rewrite rev_involutive.
Qed.

Lemma filter_spaceEvery n fuel l :
  List.filter (fun c => negb (isSpace c)) (spaceEvery n fuel l)
  = List.filter (fun c => negb (isSpace c)) l.
Proof.
  revert l. induction fuel as [|fuel IH]; intros l; [reflexivity|].
  destruct l as [|c r]; [reflexivity|]. cbn [spaceEvery].
  destruct (_ && _).
  - rewrite List.filter_app. cbn [List.filter]. change (negb (isSpace SP)) with false. cbv iota.
    rewrite IH, <- List.filter_app. by rewrite take_drop.
  - cbn [List.filter]. by rewrite IH.
Qed.

(** X21. Folding a signature changes its white space only: the folded
    [b] tag holds the characters of the tag that are no white space, all
    of them and in their order, so that the signature reads the same with
    the folding white space taken out. *)
Theorem foldSignature_keeps_text (tag : string) :
  List.filter (fun c => negb (isSpace c)) (chars (foldSignature tag))
  = List.filter (fun c => negb (isSpace c)) (chars tag).
Proof.
  unfold foldSignature. rewrite chars_str, filter_trimL. apply filter_spaceEvery.
Qed.

(** An identity that is a number: the DKIM header fails, the ARC header
    is made. *)
Example formatSignatureHeaderLine_numeric_identity :
  @formatSignatureHeaderLine idnPunycode sampleLibmime sampleClock "dkim" numericIdentity false
  = Throw (typeError "val.indexOf is not a function")
  /\ @formatSignatureHeaderLine idnPunycode sampleLibmime sampleClock "arc" numericIdentity false
     = Ok ("ARC-Message-Signature: i=42; a=rsa-sha256; c=relaxed/relaxed; "
           +:+ "d=xn--ber-goa.example; h=from:to:subject; q=dns/txt; s=selector; "
           +:+ "t=1650000000; bh=Ym9keWhhc2g=; b=c2lnbmF0dXJl").
Proof. split; vm_compute; reflexivity. Qed.

(** ** DKIM key records: every outcome *)

Section KeyOutcomes.
Context `{Dns, DkimHeaders, Crypto, GlobalObject}.
Context (type name : string) (minBitLength : option Z) (resolver : option resolver_t).

(** X22. The key [getPublicKey] returns. A call returns exactly when the
    record is not empty, its [p] tag is not empty, for DKIM a [v] tag is
    DKIM1, the assignment to [publicKeyPem] goes through, crypto reads
    the PEM text of the [p] tag as an RSA or Ed25519 key, and a [k] tag
    names the kind of the key; what is returned then is the PEM text of
    the [p] tag and the record without white space. The length of the key
    has no part in it: the length test reads a property the key object
    does not have. Nor has [minBitLength]: the same call with any other
    gives the same. *)
Theorem getPublicKey_returned_key (r : publicKeyResult) :
  (getPublicKey type name minBitLength resolver = Ok r <->
   exists list tags p key,
     default dns_resolve resolver [] (JStr name) "TXT" = Ok list
     /\ keyRecord list <> ""
     /\ tagsOf list = Some tags /\ tags !! "p" = Some p /\ p <> ""
     /\ (type = "DKIM" -> forall v, tags !! "v" = Some v -> trim (toLowerCase v) = "dkim1")
     /\ hasGlobalProperty "publicKeyPem" = true
     /\ createPublicKey (pemOf p) = Ok key
     /\ (asymmetricKeyType key = "rsa" \/ asymmetricKeyType key = "ed25519")
     /\ (forall k, tags !! "k" = Some k -> toLowerCase k = asymmetricKeyType key)
     /\ r = mkPublicKeyResult (pemOf p) (keyRecord list))
  /\ forall otherLength,
       getPublicKey type name otherLength resolver
       = getPublicKey type name minBitLength resolver.
Proof.
  split; [|reflexivity]. split.
  - intros Hr. unfold getPublicKey in Hr.
    destruct (default dns_resolve resolver [] (JStr name) "TXT") as [list|e] eqn:Hres;
      [|discriminate].
    cbn [mbind result_bind] in Hr.
    destruct (String.eqb_spec (keyRecord list) "") as [|Hrr]; [discriminate|]. cbn [negb] in Hr.
    fold (tagsOf list) in Hr.
    destruct (tagsOf list) as [tags|] eqn:Htags; [|discriminate].
    cbn [mbind option_bind] in Hr.
    destruct (tags !! "p") as [[|c p]|] eqn:Hp; [discriminate| |discriminate].
    destruct (String.eqb type "DKIM" && _) eqn:Hv; [discriminate|].
    unfold assignIdentifier in Hr.
    change (includes moduleScope "publicKeyPem") with false in Hr. cbn [orb] in Hr.
    destruct (hasGlobalProperty "publicKeyPem") eqn:Hglobal; [|discriminate].
    cbn [mbind result_bind] in Hr.
    destruct (createPublicKey _) as [key|e] eqn:Hkey; [|discriminate].
    cbn [mbind result_bind] in Hr.
    destruct (negb (includes ["rsa"; "ed25519"] (asymmetricKeyType key)) || _) eqn:Hk;
      [discriminate|].
    destruct (String.eqb (asymmetricKeyType key) "rsa" && _); [discriminate|].
    injection Hr as <-.
    apply orb_false_iff in Hk as [Hkind Hk]. apply negb_false_iff in Hkind.
    exists list, tags, (String c p), key.
    split; [reflexivity|]. split; [exact Hrr|]. split; [exact Htags|]. split; [exact Hp|].
    split; [discriminate|].
    split.
    { intros -> v Hvt. rewrite Hvt in Hv. simpl in Hv.
      apply negb_false_iff in Hv. by apply String.eqb_eq. }
    split; [reflexivity|]. split; [exact Hkey|].
    split.
    { unfold includes in Hkind. simpl in Hkind.
      destruct (String.eqb_spec (asymmetricKeyType key) "rsa") as [->|_]; [by left|].
      destruct (String.eqb_spec (asymmetricKeyType key) "ed25519") as [->|_]; [by right|].
      discriminate. }
    split; [|reflexivity].
    intros k Hkt. rewrite Hkt in Hk. apply negb_false_iff in Hk. by apply String.eqb_eq.
  - intros (list & tags & p & key & Hres & Hrr & Htags & Hp & Hne & Hv & Hglobal & Hkey
            & Hkind & Hk & ->).
    unfold getPublicKey. rewrite Hres. cbn [mbind result_bind].
    apply String.eqb_neq in Hrr. rewrite Hrr. cbn [negb].
    unfold tagsOf in Htags. rewrite Htags. cbn [mbind option_bind]. rewrite Hp.
    destruct p as [|c p]; [done|].
    assert (String.eqb type "DKIM"
            && match tags !! "v" with
               | Some value => negb (String.eqb (trim (toLowerCase value)) "dkim1")
               | None => false
               end = false) as ->.
    { destruct (String.eqb_spec type "DKIM") as [Ht|_]; [|reflexivity].
      destruct (tags !! "v") as [v|] eqn:Hvt; [|reflexivity].
      simpl. rewrite (Hv Ht v eq_refl). reflexivity. }
    unfold assignIdentifier. rewrite Hglobal, orb_true_r. cbn [mbind result_bind].
    rewrite Hkey. cbn [mbind result_bind]. cbv zeta.
    assert (negb (includes ["rsa"; "ed25519"] (asymmetricKeyType key))
            || match tags !! "k" with
               | Some value => negb (String.eqb (toLowerCase value) (asymmetricKeyType key))
               | None => false
               end = false) as ->.
    { apply orb_false_iff. split.
      - destruct Hkind as [-> | ->]; reflexivity.
      - destruct (tags !! "k") as [k|] eqn:Hkt; [|reflexivity].
        rewrite (Hk k eq_refl), String.eqb_refl. reflexivity. }
    unfold keyObject_modulusLength. rewrite andb_false_r. reflexivity.
Qed.

(** X23. The errors of [getPublicKey]. A call that throws throws the error
    of the resolver, the error of crypto, the ReferenceError of the
    assignment to [publicKeyPem], or one of four errors of its own:
    Missing key value (EINVALIDVAL) without the record when the record is
    empty and with it when the [p] tag is, Unknown key version
    (EINVALIDVER, for DKIM only), Unknown key type (EINVALIDTYPE) and Key
    too short (ESHORTKEY), each with the record without white space. *)
Theorem getPublicKey_errors (e : error) :
  getPublicKey type name minBitLength resolver = Throw e ->
  default dns_resolve resolver [] (JStr name) "TXT" = Throw e
  \/ exists list,
       default dns_resolve resolver [] (JStr name) "TXT" = Ok list
       /\ (keyRecord list = "" /\ e = keyError "Missing key value" "EINVALIDVAL" None
           \/ e = keyError "Missing key value" "EINVALIDVAL" (Some (keyRecord list))
           \/ type = "DKIM"
              /\ e = keyError "Unknown key version" "EINVALIDVER" (Some (keyRecord list))
           \/ e = mkError "ReferenceError" "publicKeyPem is not defined" None None None
           \/ (exists pem, createPublicKey pem = Throw e)
           \/ e = keyError "Unknown key type" "EINVALIDTYPE" (Some (keyRecord list))
           \/ e = keyError "Key too short" "ESHORTKEY" (Some (keyRecord list))).
Proof.
  unfold getPublicKey.
  destruct (default dns_resolve resolver [] (JStr name) "TXT") as [list|e'] eqn:Hres;
    cbn [mbind result_bind]; [|intros [= ->]; by left].
  intros He. right. exists list. split; [reflexivity|].
  destruct (String.eqb_spec (keyRecord list) "") as [Hrr|Hrr]; cbn [negb] in He.
  { injection He as <-. left. by split. }
  right.
  destruct (parseDkimHeaders _ ≫= (.!! "p")) as [[|c p]|];
    [injection He as <-; by left| |injection He as <-; by left].
  right.
  destruct (String.eqb_spec type "DKIM") as [Ht|_]; simpl andb in He.
  - destruct (match parseDkimHeaders _ ≫= (.!! "v") with Some _ => _ | None => _ end).
    { injection He as <-. left. by split. }
    right. revert He. generalize (parseDkimHeaders ("DNS: TXT;" +:+ keyRecord list)).
    intros entry He. apply (getPublicKey_tail_errors _ _ _ _ He).
  - right. revert He. generalize (parseDkimHeaders ("DNS: TXT;" +:+ keyRecord list)).
    intros entry He. apply (getPublicKey_tail_errors _ _ _ _ He).
Qed.
End KeyOutcomes.

(** The RSA key of 512 bits is returned, where [publicKeyPem] is a
    global: with the least length left out and with one of 4096 bits. *)
Lemma getPublicKey_returned_key_witness :
  @getPublicKey sampleDns sampleDkimHeaders sampleCrypto globalWithPem "DKIM"
    "sel._domainkey.example.com" None (Some (txtResolver rsa512Record))
  = Ok (mkPublicKeyResult (pemOf rsa512Key) ("v=DKIM1;k=rsa;p=" +:+ rsa512Key))
  /\ @getPublicKey sampleDns sampleDkimHeaders sampleCrypto globalWithPem "DKIM"
       "sel._domainkey.example.com" (Some 4096%Z) (Some (txtResolver rsa512Record))
     = Ok (mkPublicKeyResult (pemOf rsa512Key) ("v=DKIM1;k=rsa;p=" +:+ rsa512Key)).
Proof.
  destruct (@getPublicKey_returned_key sampleDns sampleDkimHeaders sampleCrypto globalWithPem
              "DKIM" "sel._domainkey.example.com" None (Some (txtResolver rsa512Record))
              (mkPublicKeyResult (pemOf rsa512Key) ("v=DKIM1;k=rsa;p=" +:+ rsa512Key)))
    as [[_ Hreturns] Hlength].
  assert (@getPublicKey sampleDns sampleDkimHeaders sampleCrypto globalWithPem "DKIM"
            "sel._domainkey.example.com" None (Some (txtResolver rsa512Record))
          = Ok (mkPublicKeyResult (pemOf rsa512Key) ("v=DKIM1;k=rsa;p=" +:+ rsa512Key)))
    as Hkey.
  { apply Hreturns.
    exists (Records [Txt rsa512Record]),
           (list_to_map [("v", "DKIM1"); ("k", "rsa"); ("p", rsa512Key)]),
           rsa512Key, (mkKeyObject "rsa" (mkKeyDetails (Some 512%Z))).
    split; [reflexivity|]. split; [vm_compute; discriminate|].
    split; [vm_compute; reflexivity|]. split; [vm_compute; reflexivity|].
    split; [vm_compute; discriminate|].
    split.
    { intros _ v Hv. vm_compute in Hv. injection Hv as <-. vm_compute. reflexivity. }
    split; [reflexivity|]. split; [vm_compute; reflexivity|]. split; [by left|].
    split; [|vm_compute; reflexivity].
    intros k Hk. vm_compute in Hk. injection Hk as <-. vm_compute. reflexivity. }
  split; [exact Hkey|]. rewrite Hlength. exact Hkey.
Defined.

(** A record that calls the RSA key of 512 bits an Ed25519 key: the error
    is Unknown key type, with the record. *)
Lemma getPublicKey_errors_witness :
  exists list,
    txtResolver ["v=DKIM1; k=ed25519; p=" +:+ rsa512Key] []
      (JStr "sel._domainkey.example.com") "TXT" = Ok list
    /\ keyError "Unknown key type" "EINVALIDTYPE"
         (Some ("v=DKIM1;k=ed25519;p=" +:+ rsa512Key))
       = keyError "Unknown key type" "EINVALIDTYPE" (Some (keyRecord list)).
Proof.
  destruct (@getPublicKey_errors sampleDns sampleDkimHeaders sampleCrypto globalWithPem
              "DKIM" "sel._domainkey.example.com" None
              (Some (txtResolver ["v=DKIM1; k=ed25519; p=" +:+ rsa512Key]))
              (keyError "Unknown key type" "EINVALIDTYPE"
                 (Some ("v=DKIM1;k=ed25519;p=" +:+ rsa512Key))))
    as [Hres|(list & Hres & _)].
  - vm_compute. reflexivity.
  - discriminate Hres.
  - exists list. split; [exact Hres|]. injection Hres as <-. vm_compute. reflexivity.
Defined.

(** ** Verified Mark Certificates: names and failures *)

Lemma trim_idem (s : string) : trim (trim s) = trim s.
Proof. unfold trim. by rewrite chars_str, trimL_idem. Qed.

Lemma certAltNames_trimmed (cert : certificate) :
  Forall (fun n => n <> "" /\ trim n = n) (certAltNames cert).
Proof.
  unfold certAltNames. apply List.Forall_flat_map. apply List.Forall_forall. intros d _.
  destruct (altNames d) as [ans|]; [|constructor].
  apply List.Forall_flat_map. apply List.Forall_forall. intros an _.
  destruct (dnsName an) as [n|]; [|constructor].
  destruct (String.eqb_spec (trim n) "") as [|Hn]; constructor; [|constructor].
  split; [exact Hn | apply trim_idem].
Qed.

(** X24. The names of a logo that [parseLogoFromX509] returns: there is
    at least one, none of them is empty, and none has white space around
    it; the certificate text is handed back as it was given. *)
Theorem logo_names_trimmed `{X509, Zlib} (pem : string) (l : logo) :
  parseLogoFromX509 pem = Ok (Some l) ->
  logo_altNames l <> []
  /\ Forall (fun n => n <> "" /\ trim n = n) (logo_altNames l)
  /\ logo_pem l = pem.
Proof.
  unfold parseLogoFromX509.
  destruct (fromPEM pem) as [cert|e]; cbn [mbind result_bind]; [|discriminate].
  pose proof (certAltNames_trimmed cert) as Hn.
  destruct (certAltNames cert) as [|n ns] eqn:Hnames; [discriminate|].
  cbn [List.length Nat.eqb].
  destruct (head _ ≫= ext_value) as [[|c value]|]; [discriminate| |discriminate].
  destruct (match searchWord (chars "data:") false _ with Some _ => _ | None => _ end)
    as [index|]; [|discriminate].
  destruct (gunzip _) as [picture|e]; cbn [mbind result_bind]; [|discriminate].
  intros [= <-]. by repeat split.
Qed.

Lemma logo_names_trimmed_witness :
  ["example.com"] <> []
  /\ Forall (fun n => n <> "" /\ trim n = n) ["example.com"]
  /\ "vmc" = "vmc".
Proof.
  apply (@logo_names_trimmed (sampleX509 "0#data:image/svg+xml;base64,H4sIAAAA") gzipOfSvg
           "vmc" (mkLogo "vmc" ["example.com"] "<svg/>")).
  vm_compute. reflexivity.
Defined.

(** X25. [parseLogoFromX509] throws in two cases only: the text does not
    parse as a certificate, or the certificate has names and a logotype
    value with both marks and the payload after the first [base64,] does
    not unpack; the error is the one of the parser or of zlib. A
    certificate without names or without a picture is no error. *)
Theorem parseLogoFromX509_errors `{X509, Zlib} (pem : string) (e : error) :
  parseLogoFromX509 pem = Throw e ->
  fromPEM pem = Throw e
  \/ exists cert value index,
       fromPEM pem = Ok cert
       /\ certAltNames cert <> []
       /\ logoValue cert = Some value
       /\ searchWord (chars "data:") false (chars (utf8 value)) <> None
       /\ searchWord (chars "base64,") false (chars (utf8 value)) = Some index
       /\ gunzip (fromBase64 (str (drop (index + 7) (chars (utf8 value))))) = Throw e.
Proof.
  unfold parseLogoFromX509, logoValue.
  destruct (fromPEM pem) as [cert|e']; cbn [mbind result_bind]; [|intros [= ->]; by left].
  intros He. right. exists cert.
  destruct (certAltNames cert) as [|n ns]; [discriminate|].
  cbn [List.length Nat.eqb] in He.
  destruct (head _ ≫= ext_value) as [[|c value]|]; [discriminate| |discriminate].
  destruct (searchWord (chars "data:") false _) as [i|] eqn:Hd; [|discriminate].
  destruct (searchWord (chars "base64,") false _) as [index|] eqn:Hb; [|discriminate].
  destruct (gunzip _) as [picture|e'] eqn:Hz; cbn [mbind result_bind] in He; [discriminate|].
  injection He as ->. exists (String c value), index.
  repeat split; try done. by rewrite Hd.
Qed.

Lemma parseLogoFromX509_errors_witness :
  exists cert value index,
    @fromPEM (sampleX509 "0#data:image/svg+xml;base64,H4sIAAAA") "vmc" = Ok cert
    /\ certAltNames cert <> []
    /\ logoValue cert = Some value
    /\ searchWord (chars "base64,") false (chars (@utf8 noGzip value)) = Some index
    /\ @gunzip noGzip (@fromBase64 noGzip (str (drop (index + 7) (chars (@utf8 noGzip value)))))
       = Throw (mkError "Error" "incorrect header check" (Some "Z_DATA_ERROR") None None).
Proof.
  destruct (@parseLogoFromX509_errors (sampleX509 "0#data:image/svg+xml;base64,H4sIAAAA")
              noGzip "vmc"
              (mkError "Error" "incorrect header check" (Some "Z_DATA_ERROR") None None))
    as [Hpem|(cert & value & index & Hc & Hn & Hv & _ & Hb & Hz)].
  - vm_compute. reflexivity.
  - discriminate Hpem.
  - exists cert, value, index. by repeat split.
Defined.

(** ** Algorithm names *)

Lemma lowerChar_hyphen c : Ascii.eqb (lowerChar c) "-"%char = Ascii.eqb c "-"%char.
Proof. destruct c as [[] [] [] [] [] [] [] []]; vm_compute; reflexivity. Qed.

Lemma splitOn_map_lower l :
  splitOn "-"%char (map lowerChar l) = map (map lowerChar) (splitOn "-"%char l).
Proof.
  induction l as [|c l IH]; [reflexivity|]. simpl.
  rewrite lowerChar_hyphen. destruct (Ascii.eqb c "-"%char); rewrite IH; [reflexivity|].
  by destruct (splitOn "-"%char l).
Qed.

Lemma splitOn_nonempty x l : splitOn x l <> [].
Proof.
  destruct l as [|c l]; simpl; [discriminate|].
  destruct (Ascii.eqb c x); [discriminate|]. by destruct (splitOn x l).
Qed.

Lemma splitOn_one x l b : splitOn x l = [b] -> l = b.
Proof.
  revert b. induction l as [|d l IH]; intros b; simpl; [by intros [= <-]|].
  destruct (Ascii.eqb d x).
  - intros [= _ E]. by destruct (splitOn_nonempty x l).
  - destruct (splitOn x l) as [|h [|? ?]] eqn:E; try discriminate.
    + by destruct (splitOn_nonempty x l).
    + intros [= <-]. f_equal. by apply IH.
Qed.

Lemma splitOn_two x l a b : splitOn x l = [a; b] -> l = a ++ x :: b.
Proof.
  revert a. induction l as [|c l IH]; intros a; simpl; [discriminate|].
  destruct (Ascii.eqb_spec c x) as [->|_].
  - intros [= <- Hb]. simpl. f_equal. by apply (splitOn_one x).
  - destruct (splitOn x l) as [|h t] eqn:E; [by destruct (splitOn_nonempty x l)|].
    intros [= <- ->]. simpl. f_equal. by apply IH.
Qed.

Lemma str_inj (a b : list ascii) : str a = str b -> a = b.
Proof. intros E. by rewrite <- (chars_str a), <- (chars_str b), E. Qed.

(** X26. The algorithm names [validateAlgorithm] lets through are, in any
    case of letters, rsa-sha256 and ed25519-sha256, and rsa-sha1 and
    ed25519-sha1 as well when [strict] is not set; everything else,
    a missing name among it, is refused, and every refusal is an error of
    code EINVALIDALGO. *)
Theorem validateAlgorithm_accepts (algorithm : option string) (strict : bool) :
  (validateAlgorithm algorithm strict = Ok tt
   <-> exists name,
        algorithm = Some name
        /\ In (toLowerCase name)
             (["rsa-sha256"; "ed25519-sha256"]
              ++ if strict then [] else ["rsa-sha1"; "ed25519-sha1"]))
  /\ forall e, validateAlgorithm algorithm strict = Throw e ->
       err_name e = "Error" /\ code e = Some "EINVALIDALGO".
Proof.
  split; [split|].
  - unfold validateAlgorithm. cbv zeta.
    destruct algorithm as [name|]; [|discriminate]. cbn [default from_option id].
    destruct (String.eqb name ""); [discriminate|]. simpl orb.
    destruct (splitOn "-"%char (chars name)) as [|a [|b [|? ?]]] eqn:Hsplit;
      try discriminate.
    destruct (negb (Nat.eqb (List.length a) 0) && negb (Nat.eqb (List.length b) 0));
      [|discriminate].
    cbn [negb].
    assert (map str (splitOn "-"%char (chars (toLowerCase name)))
            = [str (map lowerChar a); str (map lowerChar b)]) as ->.
    { unfold toLowerCase. by rewrite chars_str, splitOn_map_lower, Hsplit. }
    cbn [lookup list_lookup].
    destruct (includes ["rsa"; "ed25519"] (str (map lowerChar a))) eqn:Hsign; [|discriminate].
    cbn [negb].
    destruct (includes ("sha256" :: if strict then [] else ["sha1"]) (str (map lowerChar b)))
      eqn:Hhash; [|discriminate].
    intros _. exists name. split; [reflexivity|].
    apply splitOn_two in Hsplit. unfold toLowerCase. rewrite Hsplit.
    rewrite map_app. cbn [map]. rewrite str_app.
    change (str (lowerChar "-"%char :: map lowerChar b)) with ("-" +:+ str (map lowerChar b)).
    unfold includes in Hsign, Hhash. simpl in Hsign.
    destruct (String.eqb_spec (str (map lowerChar a)) "rsa") as [->|_];
      [|destruct (String.eqb_spec (str (map lowerChar a)) "ed25519") as [->|_];
        [|discriminate]];
      (destruct strict; simpl in Hhash;
       [destruct (String.eqb_spec (str (map lowerChar b)) "sha256") as [->|_];
        [simpl; tauto | discriminate]
       |destruct (String.eqb_spec (str (map lowerChar b)) "sha256") as [->|_];
        [simpl; tauto|];
        destruct (String.eqb_spec (str (map lowerChar b)) "sha1") as [->|_];
        [simpl; tauto | discriminate]]).
  - intros (name & -> & Hin). unfold validateAlgorithm. cbv zeta. cbn [default from_option id].
    assert (exists a b, splitOn "-"%char (chars (toLowerCase name)) = [a; b]
                        /\ a <> [] /\ b <> []) as (la & lb & Hl & Ha & Hb).
    { destruct strict; simpl in Hin;
        repeat (destruct Hin as [<-|Hin]; [do 2 eexists; split; [reflexivity|]; by split|]);
        destruct Hin. }
    assert (String.eqb name "" = false) as ->.
    { destruct name; [|reflexivity]. by destruct strict; simpl in Hin; intuition. }
    pose proof Hl as Hl'. unfold toLowerCase in Hl'. rewrite chars_str, splitOn_map_lower in Hl'.
    destruct (splitOn "-"%char (chars name)) as [|a [|b [|? ?]]]; try discriminate.
    injection Hl' as <- <-.
    assert (negb (Nat.eqb (List.length a) 0) && negb (Nat.eqb (List.length b) 0) = true) as ->.
    { destruct a; [done|]. destruct b; [done|]. reflexivity. }
    simpl orb. cbv iota.
    destruct strict; simpl in Hin;
      repeat (destruct Hin as [<-|Hin]; [reflexivity|]); destruct Hin.
  - intros e. unfold validateAlgorithm. cbv zeta.
    destruct (_ || _); [by intros [= <-]|].
    destruct (negb _); [by intros [= <-]|].
    destruct (negb _); [by intros [= <-]|discriminate].
Qed.

(** ** Header blocks *)

Lemma splitLines_nonempty l : splitLines l <> [].
Proof.
  destruct l as [|c l]; simpl; [discriminate|].
  destruct (Ascii.eqb c LF); [discriminate|].
  destruct (Ascii.eqb c CR).
  - destruct l as [|d l]; [discriminate|].
    destruct (Ascii.eqb d LF); [discriminate|]. by destruct (splitLines (d :: l)).
  - by destruct (splitLines l).
Qed.

Lemma joinRows_consRow c rows :
  rows <> [] -> joinRows (consRow c rows) = String c (joinRows rows).
Proof. destruct rows as [|h [|h' t]]; [done|reflexivity|reflexivity]. Qed.

Lemma joinRows_empty_row rows :
  rows <> [] -> joinRows ([] :: rows) = CRLF +:+ joinRows rows.
Proof. destruct rows as [|h t]; [done|reflexivity]. Qed.

Lemma noBareLF_weaken b l : noBareLF false l -> noBareLF b l.
Proof. destruct l as [|c l]; [done|]. simpl. intros [Hc Hl]. split; [|exact Hl]. intros E. discriminate (Hc E). Qed.

Lemma splitLines_join_aux n l :
  List.length l <= n -> noBareLF false l -> joinRows (splitLines l) = str l.
Proof.
  revert l. induction n as [|n IH]; intros l Hn Hl.
  { destruct l; [reflexivity | simpl in Hn; lia]. }
  destruct l as [|c r]; [reflexivity|].
  simpl in Hn. cbn [splitLines]. destruct Hl as [Hc Hr].
  destruct (Ascii.eqb_spec c LF) as [->|Hlf]; [by specialize (Hc eq_refl)|].
  destruct (Ascii.eqb_spec c CR) as [->|Hcr].
  - destruct r as [|d r']; [reflexivity|].
    destruct Hr as [Hd Hr']. simpl in Hn.
    destruct (Ascii.eqb_spec d LF) as [->|Hdl].
    + rewrite joinRows_empty_row by apply splitLines_nonempty.
      rewrite IH; [reflexivity | lia | exact Hr'].
    + rewrite joinRows_consRow by apply splitLines_nonempty.
      rewrite IH; [reflexivity | simpl; lia |]. by split.
  - rewrite joinRows_consRow by apply splitLines_nonempty.
    rewrite IH; [reflexivity | lia | exact Hr].
Qed.

Lemma noBareLF_prefix b a t : noBareLF b (a ++ t) -> noBareLF b a.
Proof.
  revert b. induction a as [|c a IH]; intros b; [done|].
  simpl. intros [Hc Hr]. split; [exact Hc | by apply IH].
Qed.

Lemma joinWith_app sep (a b : list string) :
  a <> [] -> b <> [] -> joinWith sep (a ++ b) = joinWith sep a +:+ sep +:+ joinWith sep b.
Proof.
  intros Ha Hb. induction a as [|x a IH]; [done|].
  destruct a as [|y a].
  - destruct b; [done|reflexivity].
  - change (x +:+ sep +:+ joinWith sep ((y :: a) ++ b)
            = (x +:+ sep +:+ joinWith sep (y :: a)) +:+ sep +:+ joinWith sep b).
    rewrite IH by done. by rewrite !append_assoc.
Qed.

Lemma joinRows_groups (groups : list (list (list ascii))) :
  Forall (fun g => g <> []) groups ->
  joinWith CRLF (map joinRows groups) = joinRows (concat groups).
Proof.
  induction 1 as [|g groups Hg Hgs IH]; [reflexivity|].
  destruct groups as [|g' groups].
  - simpl. by rewrite app_nil_r.
  - change (joinRows g +:+ CRLF +:+ joinWith CRLF (map joinRows (g' :: groups))
            = joinRows (g ++ concat (g' :: groups))).
    rewrite IH. unfold joinRows. rewrite map_app, joinWith_app; [reflexivity| |].
    + by destruct g.
    + inversion Hgs; subst. by destruct g'.
Qed.

(** The grouping of the rows: every group is a row followed by rows that
    start with white space, and only the first group may start with such
    a row. *)
Lemma attachRows_groups (rows : list (list ascii)) :
  concat (attachRows rows) = rows
  /\ Forall (fun g => g <> [] /\ Forall (fun r => startsWithSpace r = true) (tail g))
       (attachRows rows)
  /\ Forall (fun g => startsWithSpace (default [] (head g)) = false) (tail (attachRows rows)).
Proof.
  induction rows as [|row rest (Hc & Hg & Ht)]; [by repeat split|].
  cbn [attachRows]. destruct (attachRows rest) as [|next groups].
  { simpl in Hc. subst rest. repeat split; repeat constructor; done. }
  destruct (startsWithSpace (default [] (head next))) eqn:E.
  - split; [simpl in *; by rewrite <- Hc|].
    inversion Hg as [|? ? [Hne Hnext] Hgs]; subst. split.
    + constructor; [|exact Hgs]. split; [done|]. simpl.
      destruct next as [|r next]; [done|]. constructor; [exact E | exact Hnext].
    + exact Ht.
  - split; [simpl in *; by rewrite <- Hc|]. split.
    + constructor; [|exact Hg]. split; [done | constructor].
    + simpl. constructor; [exact E | exact Ht].
Qed.

Lemma h_line_headerOfRows g : h_line (headerOfRows g) = joinRows g.
Proof. unfold headerOfRows. cbv zeta. by destruct (takeWhile _ _). Qed.

Lemma headerOfRows_wellKeyed g : wellKeyed (headerOfRows g).
Proof.
  unfold headerOfRows, wellKeyed. cbv zeta.
  destruct (takeWhile _ (chars (joinRows g))) as [|c key] eqn:Hk; [exact I|].
  cbn [h_key h_casedKey]. split; [reflexivity|]. split; [apply trim_idem|].
  unfold trim. rewrite !chars_str.
  assert (Forall (fun x => x <> ":"%char) (trimL (c :: key))) as HF.
  { apply trimL_Forall. rewrite <- Hk.
    eapply List.Forall_impl; [|apply takeWhile_Forall].
    intros x Hx ->. by rewrite Ascii.eqb_refl in Hx. }
  rewrite List.Forall_forall in HF. intros Hin. by apply (HF _ Hin).
Qed.

Lemma parseHeaders_wellKeyed buf : Forall wellKeyed (parseHeaders buf).
Proof.
  unfold parseHeaders. apply List.Forall_forall. intros h Hin.
  apply List.in_map_iff in Hin as (g & <- & _). apply headerOfRows_wellKeyed.
Qed.

Lemma parseHeaders_lines buf :
  joinWith CRLF (map h_line (parseHeaders buf))
  = joinRows (splitLines (stripNewlinesL (chars buf))).
Proof.
  unfold parseHeaders. rewrite map_map.
  rewrite (map_ext _ joinRows) by apply h_line_headerOfRows.
  destruct (attachRows_groups (splitLines (stripNewlinesL (chars buf)))) as (Hc & Hg & _).
  rewrite joinRows_groups; [by rewrite Hc|].
  eapply List.Forall_impl; [|exact Hg]. by intros g [? _].
Qed.

Lemma stripNewlinesL_ending l :
  exists ending,
    l = stripNewlinesL l ++ ending /\ Forall (fun c => isLineTerminator c = true) ending.
Proof.
  exists (rev (takeWhile isLineTerminator (rev l))). split.
  - unfold stripNewlinesL. rewrite <- rev_app_distr, takeWhile_dropWhile.
    symmetry. apply rev_involutive.
  - apply List.Forall_rev, takeWhile_Forall.
Qed.

(** X27. [parseHeaders] loses nothing: for a block whose line feeds all
    come after a carriage return, the lines of the headers it returns, put
    together again with CRLF between them, are the block itself up to the
    line ends at its end. *)
Theorem parseHeaders_lossless (buf : string) :
  noBareLF false (chars buf) ->
  exists ending,
    buf = joinWith CRLF (map h_line (parseHeaders buf)) +:+ str ending
    /\ Forall (fun c => isLineTerminator c = true) ending.
Proof.
  intros Hb. destruct (stripNewlinesL_ending (chars buf)) as (ending & Hl & He).
  exists ending. split; [|exact He].
  rewrite parseHeaders_lines, (splitLines_join_aux _ _ (Nat.le_refl _)).
  - by rewrite <- str_app, <- Hl, str_chars.
  - rewrite Hl in Hb. by apply noBareLF_prefix in Hb.
Qed.

Lemma parseHeaders_lossless_witness :
  exists ending,
    sampleBlock = joinWith CRLF (map h_line (parseHeaders sampleBlock)) +:+ str ending
    /\ Forall (fun c => isLineTerminator c = true) ending.
Proof.
  apply (parseHeaders_lossless sampleBlock). vm_compute. intuition discriminate.
Defined.

(** X28. The headers [parseHeaders] returns: they are made of the rows of
    the block, in order and each row in one header; a header is a row and
    the rows after it that start with white space, so that no header but
    the first starts with such a row; and the key of a header is its cased
    key in lower case, the cased key being the text before the first
    colon, trimmed, with no colon in it. *)
Theorem parseHeaders_entries (buf : string) :
  exists groups : list (list (list ascii)),
    parseHeaders buf = map headerOfRows groups
    /\ concat groups = splitLines (stripNewlinesL (chars buf))
    /\ Forall (fun g => g <> [] /\ Forall (fun r => startsWithSpace r = true) (tail g)) groups
    /\ Forall (fun g => startsWithSpace (default [] (head g)) = false) (tail groups)
    /\ Forall (fun h => wellKeyed h
                        /\ h_casedKey h
                           = match takeWhile (fun c => negb (Ascii.eqb c ":"%char))
                                     (chars (h_line h)) with
                             | [] => None
                             | key => Some (trim (str key))
                             end)
         (parseHeaders buf).
Proof.
  exists (attachRows (splitLines (stripNewlinesL (chars buf)))).
  destruct (attachRows_groups (splitLines (stripNewlinesL (chars buf)))) as (Hc & Hg & Ht).
  split; [reflexivity|]. split; [exact Hc|]. split; [exact Hg|]. split; [exact Ht|].
  unfold parseHeaders. apply List.Forall_forall. intros h Hin.
  apply List.in_map_iff in Hin as (g & <- & _). split; [apply headerOfRows_wellKeyed|].
  rewrite h_line_headerOfRows. unfold headerOfRows. cbv zeta.
  by destruct (takeWhile _ _).
Qed.

(** The sample block: five headers, the first of two rows. *)
Example parseHeaders_sample :
  map (fun h => (h_key h, h_casedKey h)) (parseHeaders sampleBlock)
  = [(Some "received", Some "Received"); (Some "from", Some "From");
     (Some "subject", Some "Subject"); (Some "subject", Some "Subject");
     (Some "x-mailer", Some "X-Mailer")]
  /\ h_line <$> head (parseHeaders sampleBlock)
     = Some ("Received: from a" +:+ CRLF +:+ " by b").
Proof. split; vm_compute; reflexivity. Qed.

(** ** The headers to sign *)

Lemma takeLast_last fieldName l x :
  hasKey fieldName x = true -> takeLast fieldName (l ++ [x]) = Some (x, l).
Proof.
  intros Hx. induction l as [|h l IH]; simpl; [by rewrite Hx|]. by rewrite IH.
Qed.

Lemma takeLast_miss fieldName l x :
  hasKey fieldName x = false ->
  takeLast fieldName (l ++ [x])
  = match takeLast fieldName l with
    | Some (found, rest) => Some (found, rest ++ [x])
    | None => None
    end.
Proof.
  intros Hx. induction l as [|h l IH]; simpl; [by rewrite Hx|].
  rewrite IH. destruct (takeLast fieldName l) as [[found rest]|]; [reflexivity|].
  by destruct (hasKey fieldName h).
Qed.

Lemma selectForVerify_miss fieldNames l x :
  Forall (fun fieldName => hasKey fieldName x = false) fieldNames ->
  selectForVerify fieldNames (l ++ [x]) = selectForVerify fieldNames l.
Proof.
  intros Hx. revert l. induction Hx as [|fieldName names Hn _ IH]; intros l; [reflexivity|].
  simpl. rewrite takeLast_miss by exact Hn.
  destruct (takeLast fieldName l) as [[found rest]|]; [by rewrite IH | apply IH].
Qed.

(** Verifying with the keys of the headers chosen for signing chooses the
    same headers. *)
Lemma select_round_trip (fieldNames : list string) (l : list header) :
  selectForVerify (map keyName (selectForSign fieldNames l)) l = selectForSign fieldNames l.
Proof.
  unfold selectForSign. induction l as [|x l IH] using rev_ind; [reflexivity|].
  rewrite rev_app_distr. cbn [rev app List.filter].
  destruct (h_key x) as [key|] eqn:Hkey.
  - destruct (includes fieldNames key) eqn:Hin.
    + cbn [map]. unfold keyName at 1. rewrite Hkey. cbn [default from_option id selectForVerify].
      rewrite takeLast_last; [by rewrite IH|]. unfold hasKey. rewrite Hkey. apply String.eqb_refl.
    + rewrite selectForVerify_miss; [exact IH|].
      apply List.Forall_forall. intros name Hname.
      apply List.in_map_iff in Hname as (h & <- & Hh). apply filter_In in Hh as [_ Hh].
      unfold hasKey, keyName. rewrite Hkey.
      destruct (h_key h) as [k|]; [|discriminate]. cbn [default from_option id].
      apply String.eqb_neq. intros ->. congruence.
  - rewrite selectForVerify_miss; [exact IH|].
    apply List.Forall_forall. intros name _. unfold hasKey. by rewrite Hkey.
Qed.

Lemma splitOn_none x l : ~ In x l -> splitOn x l = [l].
Proof.
  induction l as [|c l IH]; intros Hn; [reflexivity|]. simpl.
  destruct (Ascii.eqb_spec c x) as [->|_]; [exfalso; apply Hn; by left|].
  rewrite IH; [reflexivity|]. intros Hin. apply Hn. by right.
Qed.

Lemma splitOn_app_sep x a b : ~ In x a -> splitOn x (a ++ x :: b) = a :: splitOn x b.
Proof.
  induction a as [|c a IH]; intros Hn; simpl; [by rewrite Ascii.eqb_refl|].
  destruct (Ascii.eqb_spec c x) as [->|_]; [exfalso; apply Hn; by left|].
  rewrite IH; [reflexivity|]. intros Hin. apply Hn. by right.
Qed.

(** The pieces between the colons of a list of keys joined by a colon and
    a space. *)
Lemma splitOn_joined_keys (casedKey : string) (rest : list string) :
  Forall (fun k => ~ In ":"%char (chars k)) (casedKey :: rest) ->
  splitOn ":"%char (chars (joinWith ": " (casedKey :: rest)))
  = chars casedKey :: map (fun k => SP :: chars k) rest.
Proof.
  revert casedKey. induction rest as [|k rest IH]; intros casedKey Hk.
  - inversion Hk; subst. by apply splitOn_none.
  - inversion Hk as [|? ? Hc Hrest]; subst.
    change (joinWith ": " (casedKey :: k :: rest))
      with (casedKey +:+ ": " +:+ joinWith ": " (k :: rest)).
    rewrite chars_app. change (chars (": " +:+ joinWith ": " (k :: rest)))
      with (":"%char :: SP :: chars (joinWith ": " (k :: rest))).
    rewrite splitOn_app_sep by exact Hc.
    cbn [splitOn]. change (Ascii.eqb SP ":"%char) with false. cbv iota.
    by rewrite IH.
Qed.

Lemma trimL_after_space l :
  l <> [] -> noLeadingSpace l -> noTrailingSpace l -> trimL (SP :: l) = l.
Proof.
  intros Hne Hl Ht. unfold trimL, ltrimL. rewrite rtrimL_id.
  - simpl. by apply dropWhile_id.
  - unfold noTrailingSpace in *. simpl.
    destruct (rev l) as [|c r] eqn:E; [|exact Ht].
    apply (f_equal (@rev ascii)) in E. rewrite rev_involutive in E. by subst.
Qed.

Lemma toLowerCase_nonempty s : s <> "" -> toLowerCase s <> "".
Proof. by destruct s. Qed.

Lemma fieldNamesOf_joined (casedKeys : list string) :
  Forall (fun k => k <> "" /\ trim k = k /\ ~ In ":"%char (chars k)) casedKeys ->
  fieldNamesOf (Some (joinWith ": " casedKeys)) = map toLowerCase casedKeys.
Proof.
  intros Hk. destruct casedKeys as [|k rest]; [reflexivity|].
  unfold fieldNamesOf. cbn [default from_option id].
  rewrite splitOn_joined_keys
    by (eapply List.Forall_impl; [|exact Hk]; by intros ? (_ & _ & ?)).
  assert (forall s, s <> "" -> trim s = s ->
                    chars s <> [] /\ noLeadingSpace (chars s) /\ noTrailingSpace (chars s))
    as Hshape.
  { intros s Hs Ht. split; [by destruct s|].
    rewrite <- Ht. unfold trim. rewrite chars_str.
    split; [apply trimL_noLeading | apply trimL_noTrailing]. }
  inversion Hk as [|? ? (Hne & Htrim & _) Hrest]; subst.
  cbn [map List.filter].
  destruct (Hshape k Hne Htrim) as (_ & Hl & Ht).
  rewrite (trimL_id _ Hl Ht), str_chars.
  destruct (String.eqb_spec (toLowerCase k) "") as [E|_];
    [by apply toLowerCase_nonempty in E|].
  cbn [negb]. f_equal. clear -Hrest Hshape.
  induction Hrest as [|s rest (Hne & Htrim & _) _ IH]; [reflexivity|].
  cbn [map List.filter].
  destruct (Hshape s Hne Htrim) as (Hc & Hl & Ht).
  rewrite (trimL_after_space _ Hc Hl Ht), str_chars.
  destruct (String.eqb_spec (toLowerCase s) "") as [E|_];
    [by apply toLowerCase_nonempty in E|].
  cbn [negb]. by rewrite IH.
Qed.

Lemma fieldNamesOf_nonempty fieldNames : Forall (fun k => k <> "") (fieldNamesOf fieldNames).
Proof.
  unfold fieldNamesOf. apply List.Forall_forall. intros k Hk.
  apply filter_In in Hk as [_ Hk]. apply negb_true_iff in Hk. by apply String.eqb_neq.
Qed.

(** The headers chosen for signing, when their keys go together: the
    names read back from the list of their cased keys are their keys. *)
Lemma signed_keys_read_back (parsed : list header) (fieldNames : option string) :
  Forall wellKeyed parsed ->
  let signed := selectForSign (fieldNamesOf fieldNames) parsed in
  fieldNamesOf (Some (joinWith ": " (map (fun entry => default "" (h_casedKey entry)) signed)))
  = map keyName signed.
Proof.
  intros Hw signed. rewrite fieldNamesOf_joined.
  - rewrite map_map. apply map_ext_in. intros h Hh.
    apply filter_In in Hh as [Hin Hsel]. apply List.in_rev in Hin.
    rewrite List.Forall_forall in Hw. specialize (Hw h Hin).
    unfold wellKeyed, keyName in *.
    destruct (h_key h) as [k|]; [|discriminate].
    destruct (h_casedKey h) as [ck|]; [|done]. by destruct Hw as (-> & _).
  - apply List.Forall_forall. intros ck Hck.
    apply List.in_map_iff in Hck as (h & <- & Hh).
    apply filter_In in Hh as [Hin Hsel]. apply List.in_rev in Hin.
    rewrite List.Forall_forall in Hw. specialize (Hw h Hin).
    unfold wellKeyed in Hw.
    destruct (h_key h) as [k|]; [|discriminate].
    destruct (h_casedKey h) as [ck|]; [|done]. destruct Hw as (-> & Htrim & Hcolon).
    cbn [default from_option id]. split; [|by split].
    intros ->. pose proof (fieldNamesOf_nonempty fieldNames) as Hne.
    rewrite List.Forall_forall in Hne.
    unfold includes in Hsel. apply existsb_exists in Hsel as (n & Hn & E).
    apply String.eqb_eq in E. subst n. by apply (Hne _ Hn).
Qed.

(** X29. Signing and verifying choose the same headers: when the headers
    of a parsed block are chosen for signing, and the list of their cased
    keys (the [h] tag of the signature) is used to choose the headers for
    verifying, the outcome is the same headers in the same order, with
    the same list of keys, whatever the block and the field names. *)
Theorem signing_round_trip (buf : string) (fieldNames : option string) :
  let parsed := parseHeaders buf in
  let signed := getSigningHeaderLines parsed fieldNames false in
  getSigningHeaderLines parsed (Some (sl_keys signed)) true = signed.
Proof.
  cbv zeta. unfold getSigningHeaderLines. cbn [sl_keys sl_headers].
  rewrite (signed_keys_read_back _ _ (parseHeaders_wellKeyed buf)).
  by rewrite select_round_trip.
Qed.

Lemma takeLast_Some fieldName l found rest :
  takeLast fieldName l = Some (found, rest) ->
  hasKey fieldName found = true /\ l ≡ₚ found :: rest.
Proof.
  revert found rest. induction l as [|h l IH]; intros found rest; simpl; [discriminate|].
  destruct (takeLast fieldName l) as [[f r]|].
  - intros [= <- <-]. destruct (IH f r eq_refl) as [Hk Hp]. split; [exact Hk|].
    rewrite Hp. apply Permutation_swap.
  - destruct (hasKey fieldName h) eqn:Hk; [|discriminate]. by intros [= <- <-].
Qed.

Lemma hasKey_keyName fieldName h : hasKey fieldName h = true -> keyName h = fieldName.
Proof.
  unfold hasKey, keyName. destruct (h_key h) as [k|]; [|discriminate].
  intros E. apply String.eqb_eq in E. by subst.
Qed.

(** X30. Choosing the headers to verify: each header of the block is
    chosen at most once, so that a field name listed more often than the
    block has headers of that name chooses nothing more; and the keys of
    the chosen headers come in the order of the field names, each name
    choosing one header or none. *)
Theorem verify_selection_once (parsedHeaders : list header) (fieldNames : option string) :
  let chosen := sl_headers (getSigningHeaderLines parsedHeaders fieldNames true) in
  chosen ⊆+ parsedHeaders
  /\ sublist (map keyName chosen) (fieldNamesOf fieldNames).
Proof.
  unfold getSigningHeaderLines. cbn [sl_headers].
  generalize (fieldNamesOf fieldNames). intros names. revert parsedHeaders.
  induction names as [|name names IH]; intros l; simpl.
  - split; [apply submseteq_nil_l | constructor].
  - destruct (takeLast name l) as [[found rest]|] eqn:E.
    + apply takeLast_Some in E as [Hk Hp]. destruct (IH rest) as [Hsub Hkeys]. split.
      * rewrite Hp. by apply submseteq_skip.
      * cbn [map]. rewrite (hasKey_keyName _ _ Hk). by apply sublist_skip.
    + destruct (IH l) as [Hsub Hkeys]. split; [exact Hsub | by apply sublist_cons].
Qed.

(** The sample block: signing takes both Subject headers, the lower one
    first; a verifier that is given Subject once takes the lower one. *)
Example signing_sample :
  sl_keys (getSigningHeaderLines (parseHeaders sampleBlock) (Some "from:subject") false)
  = "Subject: Subject: From"
  /\ map h_line (sl_headers (getSigningHeaderLines (parseHeaders sampleBlock)
                               (Some "Subject:From:Subject:Subject") true))
     = ["Subject : two"; "From: Alice <alice@example.com>"; "Subject: one"].
Proof. split; vm_compute; reflexivity. Qed.
